(** * The in-browser voxel editor (EDITOR_SCRIPT): command history, selection,
      ray filtering, grid snapping and tool dispatch.

    The embedding follows the editor script of [src/services/gemini.ts]
    (the text after the second document separator, lines 784-1511).

    Conventions.
    - Every [THREE.Object3D] lives in a heap addressed by an object identity
      ([oid]); JavaScript [===] on objects is equality of identities.
    - JavaScript numbers are modelled as rationals ([Q]); [Math.round]
      is [floor (x + 1/2)].  Values produced by [Math.round] and [parseInt]
      are kept as integers ([Z]).  The product that the Pipette rounds is
      the Number product [js_mul], rounded to the nearest binary64 value;
      the sums and products of the hover computation are exact.
    - [Object3D.add], [Object3D.remove], [Array.prototype.slice] and
      [Array.prototype.find] are library operations; they are written out
      below with the behaviour of the library. *)

From Stdlib Require Import List ZArith QArith Qround Qabs Bool Lia String Arith.
From Stdlib Require DecimalString.
Import ListNotations.
Close Scope Q_scope.
Open Scope nat_scope.

(* ================================================================== *)
(** ** Numbers and transforms *)

Record Vector3 := mkVector3 { vx : Q; vy : Q; vz : Q }.
Record Quaternion := mkQuaternion { qx : Q; qy : Q; qz : Q; qw : Q }.

(** The [{ position, quaternion, scale }] snapshot used by [TransformCommand]
    and by [gizmoStart]. *)
Record TransformState := mkTransformState {
  position : Vector3;
  quaternion : Quaternion;
  scale : Vector3
}.

(** [Math.round]: nearest integer, halves towards plus infinity. *)
Definition Math_round (x : Q) : Z := Qfloor (x + (1 # 2))%Q.

Definition ofZ (n : Z) : Q := inject_Z n.

(** [2^e] for an integer exponent of either sign. *)
Definition pow2 (e : Z) : Q :=
  if (0 <=? e)%Z then inject_Z (2 ^ e) else (1 / inject_Z (2 ^ (- e)))%Q.

(** For a positive [x], the integer [k] with [2^k <= x < 2^(k+1)]. *)
Definition ilog2 (x : Q) : Z :=
  let k := (Z.log2 (Qnum x) - Z.log2 (Zpos (Qden x)))%Z in
  if Qle_bool (pow2 k) x then k else (k - 1)%Z.

(** The nearest integer, a half going to the even neighbour. *)
Definition round_half_even (x : Q) : Z :=
  let f := Qfloor x in
  match ((x - inject_Z f) ?= 1 # 2)%Q with
  | Lt => f
  | Gt => (f + 1)%Z
  | Eq => if Z.even f then f else (f + 1)%Z
  end.

(** The Number (IEEE 754 binary64) nearest to a real: 53 significant bits,
    exponent of the last bit at least -1074, ties to even.  A result beyond
    the largest Number is kept as that larger value where JavaScript has
    [Infinity]; [Math.round] and a range test treat the two alike. *)
Definition fl64 (x : Q) : Q :=
  if Qeq_bool x 0 then 0%Q
  else
    let a := Qabs x in
    let e := Z.max (ilog2 a - 52) (-1074) in
    let r := (inject_Z (round_half_even (a / pow2 e)) * pow2 e)%Q in
    if Qle_bool 0 x then r else (- r)%Q.

(** [a * b] on Numbers: the exact product, rounded to the nearest Number. *)
Definition js_mul (a b : Q) : Q := fl64 (a * b).

(** A rational that is an integer. *)
Definition is_integer (q : Q) : Prop := exists n : Z, q = inject_Z n.

Definition vec_set (x y z : Z) : Vector3 := mkVector3 (ofZ x) (ofZ y) (ofZ z).

(** [v.clone().multiplyScalar(k)], [v.add(w)], [v.sub(w)], [v.addScalar(k)]. *)
Definition multiplyScalar (v : Vector3) (k : Q) : Vector3 :=
  mkVector3 (vx v * k)%Q (vy v * k)%Q (vz v * k)%Q.
Definition vec_add (v w : Vector3) : Vector3 :=
  mkVector3 (vx v + vx w)%Q (vy v + vy w)%Q (vz v + vz w)%Q.
Definition vec_sub (v w : Vector3) : Vector3 :=
  mkVector3 (vx v - vx w)%Q (vy v - vy w)%Q (vz v - vz w)%Q.
Definition addScalar (v : Vector3) (k : Q) : Vector3 :=
  mkVector3 (vx v + k)%Q (vy v + k)%Q (vz v + k)%Q.

(** A [Matrix4] by its sixteen entries; [makeScale] is the diagonal scale. *)
Definition Matrix4 := list Q.
Definition makeScale (x y z : Q) : Matrix4 :=
  [x; 0; 0; 0;  0; y; 0; 0;  0; 0; z; 0;  0; 0; 0; 1]%Q.

(* ================================================================== *)
(** ** The object heap and the scene graph *)

Definition oid := nat.

(** Objects created once at start-up: [window.scene] and the three helpers of
    the [HELPERS] section ([controlGizmo], [selectionBox], [ghostCursor]). *)
Definition scene : oid := 0.
Definition controlGizmo : oid := 1.
Definition selectionBox : oid := 2.
Definition ghostCursor : oid := 3.

Inductive Geometry :=
| BoxGeometry (width height depth : Q)
| OtherGeometry.

(** What the editor probes on an object: [isInstancedMesh], [isGroup],
    [type], [geometry], [material.color], [getColorAt]. *)
Inductive ObjKind :=
| Mesh (geometry : Geometry) (materialColor : option Z)
| Group
| InstancedMesh (instanceColor : option (list Z))
| Light
| CameraHelper
| OtherObject.

Record ObjProps := mkObjProps {
  kind : ObjKind;
  name : string;
  isTransformControlsPlane : bool
}.

Record Heap := mkHeap {
  parent : oid -> option oid;           (* object.parent *)
  children : oid -> list oid;           (* object.children *)
  transform : oid -> TransformState;    (* position, quaternion, scale *)
  locked : oid -> bool;                 (* object.userData.locked *)
  props : oid -> ObjProps;
  instanceMatrix : oid -> list Matrix4; (* InstancedMesh.instanceMatrix *)
  next : oid                            (* identity of the next allocation *)
}.

Definition upd {A : Type} (f : oid -> A) (o : oid) (a : A) : oid -> A :=
  fun o' => if Nat.eqb o' o then a else f o'.

Definition set_parent (f : oid -> option oid) (h : Heap) : Heap :=
  mkHeap f (children h) (transform h) (locked h) (props h) (instanceMatrix h) (next h).
Definition set_children (f : oid -> list oid) (h : Heap) : Heap :=
  mkHeap (parent h) f (transform h) (locked h) (props h) (instanceMatrix h) (next h).
Definition set_transform (f : oid -> TransformState) (h : Heap) : Heap :=
  mkHeap (parent h) (children h) f (locked h) (props h) (instanceMatrix h) (next h).
Definition set_locked (f : oid -> bool) (h : Heap) : Heap :=
  mkHeap (parent h) (children h) (transform h) f (props h) (instanceMatrix h) (next h).
Definition set_props (f : oid -> ObjProps) (h : Heap) : Heap :=
  mkHeap (parent h) (children h) (transform h) (locked h) f (instanceMatrix h) (next h).
Definition set_instanceMatrix (f : oid -> list Matrix4) (h : Heap) : Heap :=
  mkHeap (parent h) (children h) (transform h) (locked h) (props h) f (next h).
Definition set_next (n : oid) (h : Heap) : Heap :=
  mkHeap (parent h) (children h) (transform h) (locked h) (props h) (instanceMatrix h) n.

(** [children.indexOf(v) !== -1]. *)
Definition inb (v : oid) (l : list oid) : bool := existsb (Nat.eqb v) l.

(** [children.splice(children.indexOf(v), 1)]: drop the first occurrence. *)
Fixpoint splice_first (v : oid) (l : list oid) : list oid :=
  match l with
  | [] => []
  | x :: l' => if Nat.eqb x v then l' else x :: splice_first v l'
  end.

(** [P.remove(v)] of three.js: when [v] is among the children of [P], clear
    [v.parent] and splice [v] out of [P.children]; otherwise nothing. *)
Definition obj_remove (P v : oid) (h : Heap) : Heap :=
  if inb v (children h P)
  then set_children (upd (children h) P (splice_first v (children h P)))
         (set_parent (upd (parent h) v None) h)
  else h.

(** [v.removeFromParent()]. *)
Definition removeFromParent (v : oid) (h : Heap) : Heap :=
  match parent h v with
  | Some Q => obj_remove Q v h
  | None => h
  end.

(** [P.add(v)] of three.js: refused when [v === P]; otherwise [v] leaves its
    current parent, [v.parent] becomes [P] and [v] is pushed on [P.children]. *)
Definition obj_add (P v : oid) (h : Heap) : Heap :=
  if Nat.eqb v P then h
  else
    let h1 := removeFromParent v h in
    set_children (upd (children h1) P (children h1 P ++ [v]))
      (set_parent (upd (parent h1) v (Some P)) h1).

(** [obj.parent || window.scene]. *)
Definition parent_or_scene (h : Heap) (v : oid) : oid :=
  match parent h v with
  | Some P => P
  | None => scene
  end.

(* ================================================================== *)
(** ** Editor state *)

Inductive Tool :=
| ToolSelect | ToolMove | ToolRotate | ToolScale
| ToolBuild | ToolBreak | ToolPipette.

Definition tool_eqb (a b : Tool) : bool :=
  match a, b with
  | ToolSelect, ToolSelect | ToolMove, ToolMove | ToolRotate, ToolRotate
  | ToolScale, ToolScale | ToolBuild, ToolBuild | ToolBreak, ToolBreak
  | ToolPipette, ToolPipette => true
  | _, _ => false
  end.

(** [['move', 'rotate', 'scale'].includes(tool)]. *)
Definition is_transform_tool (t : Tool) : bool :=
  match t with
  | ToolMove | ToolRotate | ToolScale => true
  | _ => false
  end.

(** The three command classes.  [TransformCommand] is only ever constructed
    as [new TransformCommand(controlGizmo.object, gizmoStart, newState)]: its
    [oldState] is a reference to the one shared [gizmoStart] object, so the
    command stores the object and the cloned [newState], and [undo] reads
    [gizmoStart] from the editor state. *)
Inductive Command :=
| AddVoxelCommand (cparent voxel : oid)
| RemoveVoxelCommand (cparent voxel : oid)
| TransformCommand (object : oid) (newState : TransformState).

(** [state.hoveredVoxel = { x, y, z, hitObj, hitId }]. *)
Record HoveredVoxel := mkHoveredVoxel {
  hx : Z; hy : Z; hz : Z;
  hitObj : oid;
  hitId : option nat
}.

(** An entry of the context menu.  [ctxEnabled] says whether [el.onclick]
    was installed, which is decided when the menu is built. *)
Inductive CtxAction := CtxDelete | CtxClone | CtxFocus.
Record CtxItem := mkCtxItem {
  ctxAction : CtxAction;
  ctxTarget : oid;
  ctxEnabled : bool
}.

Record Editor := mkEditor {
  graph : Heap;
  history : list Command;               (* CommandManager.history *)
  index : Z;                            (* CommandManager.index *)
  activeTool : Tool;
  selectedObject : option oid;
  hoveredVoxel : option HoveredVoxel;
  brushColor : Z;
  brushSize : Z;
  lastPipetteClick : Z;
  gizmoObject : option oid;             (* controlGizmo.object *)
  gizmoStart : TransformState;
  selectionBoxVisible : bool;
  ghostVisible : bool;
  ctxMenu : option (list CtxItem);      (* None: display 'none' *)
  controlsTarget : option Vector3       (* window.controls.target, if any *)
}.

Definition set_graph (v : Heap) (s : Editor) : Editor :=
  mkEditor v (history s) (index s) (activeTool s) (selectedObject s)
    (hoveredVoxel s) (brushColor s) (brushSize s) (lastPipetteClick s)
    (gizmoObject s) (gizmoStart s) (selectionBoxVisible s) (ghostVisible s)
    (ctxMenu s) (controlsTarget s).
Definition set_history (v : list Command) (s : Editor) : Editor :=
  mkEditor (graph s) v (index s) (activeTool s) (selectedObject s)
    (hoveredVoxel s) (brushColor s) (brushSize s) (lastPipetteClick s)
    (gizmoObject s) (gizmoStart s) (selectionBoxVisible s) (ghostVisible s)
    (ctxMenu s) (controlsTarget s).
Definition set_index (v : Z) (s : Editor) : Editor :=
  mkEditor (graph s) (history s) v (activeTool s) (selectedObject s)
    (hoveredVoxel s) (brushColor s) (brushSize s) (lastPipetteClick s)
    (gizmoObject s) (gizmoStart s) (selectionBoxVisible s) (ghostVisible s)
    (ctxMenu s) (controlsTarget s).
Definition set_activeTool (v : Tool) (s : Editor) : Editor :=
  mkEditor (graph s) (history s) (index s) v (selectedObject s)
    (hoveredVoxel s) (brushColor s) (brushSize s) (lastPipetteClick s)
    (gizmoObject s) (gizmoStart s) (selectionBoxVisible s) (ghostVisible s)
    (ctxMenu s) (controlsTarget s).
Definition set_selectedObject (v : option oid) (s : Editor) : Editor :=
  mkEditor (graph s) (history s) (index s) (activeTool s) v (hoveredVoxel s)
    (brushColor s) (brushSize s) (lastPipetteClick s) (gizmoObject s)
    (gizmoStart s) (selectionBoxVisible s) (ghostVisible s) (ctxMenu s)
    (controlsTarget s).
Definition set_hoveredVoxel (v : option HoveredVoxel) (s : Editor) : Editor :=
  mkEditor (graph s) (history s) (index s) (activeTool s) (selectedObject s) v
    (brushColor s) (brushSize s) (lastPipetteClick s) (gizmoObject s)
    (gizmoStart s) (selectionBoxVisible s) (ghostVisible s) (ctxMenu s)
    (controlsTarget s).
Definition set_brushColor (v : Z) (s : Editor) : Editor :=
  mkEditor (graph s) (history s) (index s) (activeTool s) (selectedObject s)
    (hoveredVoxel s) v (brushSize s) (lastPipetteClick s) (gizmoObject s)
    (gizmoStart s) (selectionBoxVisible s) (ghostVisible s) (ctxMenu s)
    (controlsTarget s).
Definition set_brushSize (v : Z) (s : Editor) : Editor :=
  mkEditor (graph s) (history s) (index s) (activeTool s) (selectedObject s)
    (hoveredVoxel s) (brushColor s) v (lastPipetteClick s) (gizmoObject s)
    (gizmoStart s) (selectionBoxVisible s) (ghostVisible s) (ctxMenu s)
    (controlsTarget s).
Definition set_lastPipetteClick (v : Z) (s : Editor) : Editor :=
  mkEditor (graph s) (history s) (index s) (activeTool s) (selectedObject s)
    (hoveredVoxel s) (brushColor s) (brushSize s) v (gizmoObject s)
    (gizmoStart s) (selectionBoxVisible s) (ghostVisible s) (ctxMenu s)
    (controlsTarget s).
Definition set_gizmoObject (v : option oid) (s : Editor) : Editor :=
  mkEditor (graph s) (history s) (index s) (activeTool s) (selectedObject s)
    (hoveredVoxel s) (brushColor s) (brushSize s) (lastPipetteClick s) v
    (gizmoStart s) (selectionBoxVisible s) (ghostVisible s) (ctxMenu s)
    (controlsTarget s).
Definition set_gizmoStart (v : TransformState) (s : Editor) : Editor :=
  mkEditor (graph s) (history s) (index s) (activeTool s) (selectedObject s)
    (hoveredVoxel s) (brushColor s) (brushSize s) (lastPipetteClick s)
    (gizmoObject s) v (selectionBoxVisible s) (ghostVisible s) (ctxMenu s)
    (controlsTarget s).
Definition set_selectionBoxVisible (v : bool) (s : Editor) : Editor :=
  mkEditor (graph s) (history s) (index s) (activeTool s) (selectedObject s)
    (hoveredVoxel s) (brushColor s) (brushSize s) (lastPipetteClick s)
    (gizmoObject s) (gizmoStart s) v (ghostVisible s) (ctxMenu s)
    (controlsTarget s).
Definition set_ghostVisible (v : bool) (s : Editor) : Editor :=
  mkEditor (graph s) (history s) (index s) (activeTool s) (selectedObject s)
    (hoveredVoxel s) (brushColor s) (brushSize s) (lastPipetteClick s)
    (gizmoObject s) (gizmoStart s) (selectionBoxVisible s) v (ctxMenu s)
    (controlsTarget s).
Definition set_ctxMenu (v : option (list CtxItem)) (s : Editor) : Editor :=
  mkEditor (graph s) (history s) (index s) (activeTool s) (selectedObject s)
    (hoveredVoxel s) (brushColor s) (brushSize s) (lastPipetteClick s)
    (gizmoObject s) (gizmoStart s) (selectionBoxVisible s) (ghostVisible s) v
    (controlsTarget s).
Definition set_controlsTarget (v : option Vector3) (s : Editor) : Editor :=
  mkEditor (graph s) (history s) (index s) (activeTool s) (selectedObject s)
    (hoveredVoxel s) (brushColor s) (brushSize s) (lastPipetteClick s)
    (gizmoObject s) (gizmoStart s) (selectionBoxVisible s) (ghostVisible s)
    (ctxMenu s) v.

(** The [state] literal and [new CommandManager()], over the heap [g] of the
    generated page once the three helpers have been added to the scene, and
    the target of [window.controls] when the page has an orbit controller. *)
Definition initialEditor (g : Heap) (controls : option Vector3) : Editor :=
  mkEditor g [] (-1)%Z ToolSelect None None 16777215%Z 1%Z 0%Z None
    (mkTransformState (mkVector3 0 0 0) (mkQuaternion 0 0 0 1) (mkVector3 0 0 0))
    false false None controls.

(* ================================================================== *)
(** ** Selection *)

Definition oid_opt_eqb (a : option oid) (b : oid) : bool :=
  match a with
  | Some x => Nat.eqb x b
  | None => false
  end.

(** [selectObject(obj)].  [updateTree()] only redraws the tree panel. *)
Definition selectObject (obj : option oid) (s : Editor) : Editor :=
  let s1 := set_selectedObject obj s in
  match obj with
  | Some o =>
      let s2 := set_selectionBoxVisible true s1 in
      if locked (graph s2) o then set_gizmoObject None s2
      else if is_transform_tool (activeTool s2) then set_gizmoObject (Some o) s2
      else s2
  | None => set_gizmoObject None (set_selectionBoxVisible false s1)
  end.

(** [setTool(toolId)]. *)
Definition setTool (t : Tool) (s : Editor) : Editor :=
  let s1 := set_activeTool t s in
  let s2 :=
    if is_transform_tool t then
      match selectedObject s1 with
      | Some o =>
          if locked (graph s1) o then set_gizmoObject None s1
          else set_gizmoObject (Some o) s1
      | None => s1
      end
    else set_gizmoObject None s1 in
  set_ghostVisible (tool_eqb t ToolBuild || tool_eqb t ToolBreak) s2.

(* ================================================================== *)
(** ** Commands and the command manager *)

Definition set_object_transform (o : oid) (t : TransformState) (h : Heap) : Heap :=
  set_transform (upd (transform h) o t) h.

(** [cmd.execute()]. *)
Definition cmd_execute (c : Command) (s : Editor) : Editor :=
  match c with
  | AddVoxelCommand P v => set_graph (obj_add P v (graph s)) s
  | RemoveVoxelCommand P v =>
      let s1 := set_graph (obj_remove P v (graph s)) s in
      if oid_opt_eqb (selectedObject s1) v then selectObject None s1 else s1
  | TransformCommand o ns => set_graph (set_object_transform o ns (graph s)) s
  end.

(** [cmd.undo()]. *)
Definition cmd_undo (c : Command) (s : Editor) : Editor :=
  match c with
  | AddVoxelCommand P v => set_graph (obj_remove P v (graph s)) s
  | RemoveVoxelCommand P v => set_graph (obj_add P v (graph s)) s
  | TransformCommand o _ =>
      set_graph (set_object_transform o (gizmoStart s) (graph s)) s
  end.

Definition zlength {A : Type} (l : list A) : Z := Z.of_nat (List.length l).

(** [arr.slice(0, e)]: a negative [e] counts from the end. *)
Definition slice0 {A : Type} (l : list A) (e : Z) : list A :=
  if (e <? 0)%Z then firstn (Z.to_nat (Z.max (zlength l + e) 0)) l
  else firstn (Z.to_nat e) l.

(** [arr[i]]: [undefined] outside the array. *)
Definition js_nth {A : Type} (l : list A) (i : Z) : option A :=
  if (i <? 0)%Z then None else nth_error l (Z.to_nat i).

(** [CommandManager.execute(cmd)]. *)
Definition execute (cmd : Command) (s : Editor) : Editor :=
  let s1 := cmd_execute cmd s in
  let s2 :=
    if (index s1 <? zlength (history s1) - 1)%Z
    then set_history (slice0 (history s1) (index s1 + 1)) s1
    else s1 in
  let s3 := set_history (history s2 ++ [cmd]) s2 in
  set_index (index s3 + 1) s3.

(** [CommandManager.undo()].  Reading a missing entry raises a [TypeError]
    before anything is changed. *)
Definition undo (s : Editor) : Editor :=
  if (index s >=? 0)%Z then
    match js_nth (history s) (index s) with
    | Some c => let s1 := cmd_undo c s in set_index (index s1 - 1) s1
    | None => s
    end
  else s.

(** [CommandManager.redo()].  The index is incremented before the entry is
    read. *)
Definition redo (s : Editor) : Editor :=
  if (index s <? zlength (history s) - 1)%Z then
    let s1 := set_index (index s + 1) s in
    match js_nth (history s1) (index s1) with
    | Some c => cmd_execute c s1
    | None => s1
    end
  else s.

(* ================================================================== *)
(** ** Allocation, cloning and lookup by name *)

Definition defaultTransform : TransformState :=
  mkTransformState (mkVector3 0 0 0) (mkQuaternion 0 0 0 1) (mkVector3 1 1 1).

(** [new THREE.Mesh(...)], [new THREE.Group()]: a detached object with no
    children, the default transform and an empty [userData]. *)
Definition alloc (p : ObjProps) (t : TransformState) (lk : bool)
    (im : list Matrix4) (h : Heap) : oid * Heap :=
  let o := next h in
  (o, mkHeap (upd (parent h) o None) (upd (children h) o [])
        (upd (transform h) o t) (upd (locked h) o lk) (upd (props h) o p)
        (upd (instanceMatrix h) o im) (S o)).

(** [obj.clone()]: a recursive copy ([copy(source, true)] clones every child
    and adds it to the copy); [userData] is copied as well.  [fuel] bounds
    the depth of the copy. *)
Fixpoint clone_obj (fuel : nat) (o : oid) (h : Heap) : oid * Heap :=
  let '(c, h1) := alloc (props h o) (transform h o) (locked h o)
                    (instanceMatrix h o) h in
  match fuel with
  | O => (c, h1)
  | S f =>
      (c, fold_left
            (fun acc child =>
               let '(cc, h') := clone_obj f child acc in obj_add c cc h')
            (children h o) h1)
  end.

(** [root.getObjectByName(nm)]: pre-order search, [fuel] bounds the depth. *)
Fixpoint getObjectByName (fuel : nat) (h : Heap) (o : oid) (nm : string)
    : option oid :=
  if String.eqb (name (props h o)) nm then Some o
  else
    match fuel with
    | O => None
    | S f =>
        (fix first_in (l : list oid) : option oid :=
           match l with
           | [] => None
           | c :: l' =>
               match getObjectByName f h c nm with
               | Some r => Some r
               | None => first_in l'
               end
           end) (children h o)
    end.

(* ================================================================== *)
(** ** Context menu, tree rows, lock button, keyboard *)

(** [showCtxMenu(e, obj)]: the three entries are built from the lock flag
    read at this moment; a disabled entry gets no [onclick]. *)
Definition showCtxMenu (obj : oid) (s : Editor) : Editor :=
  let s1 := selectObject (Some obj) s in
  let isLocked := locked (graph s1) obj in
  set_ctxMenu
    (Some [ mkCtxItem CtxDelete obj (negb isLocked);
            mkCtxItem CtxClone obj (negb isLocked);
            mkCtxItem CtxFocus obj true ]) s1.

(** The [action] closures of the menu entries. *)
Definition ctx_action (a : CtxAction) (obj : oid) (s : Editor) : Editor :=
  match a with
  | CtxDelete =>
      execute (RemoveVoxelCommand (parent_or_scene (graph s) obj) obj) s
  | CtxClone =>
      let '(clone, h1) := clone_obj (next (graph s)) obj (graph s) in
      let t := transform h1 clone in
      let h2 := set_object_transform clone
                  (mkTransformState (addScalar (position t) 2)
                     (quaternion t) (scale t)) h1 in
      let s1 := set_graph h2 s in
      execute (AddVoxelCommand (parent_or_scene (graph s1) obj) clone) s1
  | CtxFocus =>
      match controlsTarget s with
      | Some _ =>
          set_controlsTarget (Some (position (transform (graph s) obj))) s
      | None => s
      end
  end.

(** The window [click] listener hides the context menu. *)
Definition window_click (s : Editor) : Editor := set_ctxMenu None s.

(** A click on the [i]-th entry of the displayed menu: an enabled entry runs
    its action and hides the menu; the click then bubbles to the window. *)
Definition ctx_item_click (i : nat) (s : Editor) : Editor :=
  match ctxMenu s with
  | None => s
  | Some items =>
      match nth_error items i with
      | None => s
      | Some it =>
          let s1 :=
            if ctxEnabled it
            then set_ctxMenu None (ctx_action (ctxAction it) (ctxTarget it) s)
            else s in
          window_click s1
      end
  end.

(** [el.onmousedown] of a tree row. *)
Definition row_onmousedown (button : nat) (obj : oid) (s : Editor) : Editor :=
  let s1 := if Nat.eqb button 0 then selectObject (Some obj) s else s in
  if Nat.eqb button 2 then showCtxMenu obj s1 else s1.

(** [lockBtn.onclick]: [e.stopPropagation()] keeps the click from the window
    listener, so the context menu is not touched. *)
Definition lockBtn_onclick (obj : oid) (s : Editor) : Editor :=
  let h := graph s in
  let s1 := set_graph (set_locked (upd (locked h) obj (negb (locked h obj))) h) s in
  if oid_opt_eqb (selectedObject s1) obj && locked (graph s1) obj
  then set_gizmoObject None s1
  else s1.

Inductive Key :=
| KeyV | KeyG | KeyR | KeyS | KeyB | KeyX | KeyI | KeyZ
| KeyDelete | KeyBackspace | KeyOther.

(** [toolDefs.find(t => t.key === key)]. *)
Definition tool_of_key (k : Key) : option Tool :=
  match k with
  | KeyV => Some ToolSelect | KeyG => Some ToolMove | KeyR => Some ToolRotate
  | KeyS => Some ToolScale | KeyB => Some ToolBuild | KeyX => Some ToolBreak
  | KeyI => Some ToolPipette
  | _ => None
  end.

(** The window [keydown] listener. *)
Definition keydown (k : Key) (ctrlOrMeta shift repeat : bool) (s : Editor)
    : Editor :=
  if repeat then s
  else if ctrlOrMeta && (match k with KeyZ => true | _ => false end)
  then (if shift then redo s else undo s)
  else
    let s1 := match tool_of_key k with
              | Some t => setTool t s
              | None => s
              end in
    match k with
    | KeyDelete | KeyBackspace =>
        match selectedObject s1 with
        | Some o =>
            if locked (graph s1) o then s1
            else execute (RemoveVoxelCommand (parent_or_scene (graph s1) o) o) s1
        | None => s1
        end
    | _ => s1
    end.

(** The [dragging-changed] listener of the gizmo: drag start copies the
    object's transform into the shared [gizmoStart]; drag end executes a
    [TransformCommand] carrying [gizmoStart] and a clone of the live state. *)
Definition dragging_changed (value : bool) (s : Editor) : Editor :=
  match gizmoObject s with
  | None => s
  | Some o =>
      if value then set_gizmoStart (transform (graph s) o) s
      else execute (TransformCommand o (transform (graph s) o)) s
  end.

(* ================================================================== *)
(** ** Ray hits and their filters *)

(** One entry of [raycaster.intersectObjects(window.scene.children, true)];
    the list is ordered by distance. *)
Record Intersection := mkIntersection {
  iobject : oid;
  point : Vector3;
  face : option Vector3;      (* hit.face.normal; no face on lines *)
  instanceId : option nat
}.

(** The [find] predicate of the [mousemove] listener (Build, Break and
    Pipette): only the lock flag of the hit object itself is read. *)
Definition hover_filter (h : Heap) (i : Intersection) : bool :=
  let o := iobject i in
  negb (Nat.eqb o ghostCursor) && negb (Nat.eqb o controlGizmo)
  && negb (Nat.eqb o selectionBox)
  && negb (isTransformControlsPlane (props h o))
  && negb (locked h o).

(** The [while (check && check !== window.scene)] loop of the Select filter:
    [Some true] when a locked object is met on the way up, [Some false] when
    the loop ends at the scene or at a missing parent, [None] when [fuel]
    iterations did not end it. *)
Fixpoint locked_in_chain (fuel : nat) (h : Heap) (check : option oid)
    : option bool :=
  match fuel with
  | O => None
  | S f =>
      match check with
      | None => Some false
      | Some c =>
          if Nat.eqb c scene then Some false
          else if locked h c then Some true
          else locked_in_chain f h (parent h c)
      end
  end.

(** The [find] predicate of the Select branch of the [mousedown] listener. *)
Definition select_filter (fuel : nat) (h : Heap) (o : oid) : option bool :=
  if Nat.eqb o controlGizmo || Nat.eqb o selectionBox
     || isTransformControlsPlane (props h o)
  then Some false
  else option_map negb (locked_in_chain fuel h (Some o)).

(** [intersects.find(p)] for a predicate that may fail to terminate:
    [None] when [p] does not terminate on an entry that is reached. *)
Fixpoint find_opt {A : Type} (p : A -> option bool) (l : list A)
    : option (option A) :=
  match l with
  | [] => Some None
  | x :: l' =>
      match p x with
      | None => None
      | Some true => Some (Some x)
      | Some false => find_opt p l'
      end
  end.

(* ================================================================== *)
(** ** Pointer handlers on the render surface *)

(** [obj.position.set(x, y, z)]. *)
Definition set_position (o : oid) (p : Vector3) (h : Heap) : Heap :=
  let t := transform h o in
  set_object_transform o (mkTransformState p (quaternion t) (scale t)) h.

(** [obj.material.color.setHex(c)] on a mesh. *)
Definition set_material_color (o : oid) (c : Z) (h : Heap) : Heap :=
  match kind (props h o) with
  | Mesh g _ =>
      set_props
        (upd (props h) o
           (mkObjProps (Mesh g (Some c)) (name (props h o))
              (isTransformControlsPlane (props h o)))) h
  | _ => h
  end.

(** [updateGhostGeometry()]: the ghost cursor gets a box of the brush size. *)
Definition updateGhostGeometry (s : Editor) : Editor :=
  let h := graph s in
  let sz := ofZ (brushSize s) in
  let color := match kind (props h ghostCursor) with
               | Mesh _ c => c
               | _ => None
               end in
  set_graph
    (set_props
       (upd (props h) ghostCursor
          (mkObjProps (Mesh (BoxGeometry sz sz sz) color)
             (name (props h ghostCursor))
             (isTransformControlsPlane (props h ghostCursor)))) h) s.

(** The centre before snapping: [point + normal * (size * 0.5)] for Build,
    [point - normal * (size * 0.5)] otherwise. *)
Definition candidateCenter (tool : Tool) (size : Z) (pt normal : Vector3)
    : Vector3 :=
  let shift := multiplyScalar normal (ofZ size * (1 # 2))%Q in
  if tool_eqb tool ToolBuild then vec_add pt shift else vec_sub pt shift.

(** The per-axis [Math.round] of a centre. *)
Definition snap (v : Vector3) : Z * Z * Z :=
  (Math_round (vx v), Math_round (vy v), Math_round (vz v)).

(** [sizeSlider.oninput]: [parseInt] of the slider value. *)
Definition sizeSlider_oninput (value : Z) (s : Editor) : Editor :=
  updateGhostGeometry (set_brushSize value s).

(** The [mousemove] listener. *)
Definition mousemove (intersects : list Intersection) (s : Editor) : Editor :=
  match activeTool s with
  | ToolBuild | ToolBreak | ToolPipette =>
      match find (hover_filter (graph s)) intersects with
      | Some hit =>
          match face hit with
          | None => s                       (* TypeError on hit.face.normal *)
          | Some normal =>
              let targetPos :=
                candidateCenter (activeTool s) (brushSize s) (point hit) normal in
              let '(sx, sy, sz) := snap targetPos in
              let h1 := set_position ghostCursor (vec_set sx sy sz) (graph s) in
              let h2 :=
                set_material_color ghostCursor
                  (if tool_eqb (activeTool s) ToolBreak
                   then 16711680%Z else 65280%Z) h1 in
              set_hoveredVoxel
                (Some (mkHoveredVoxel sx sy sz (iobject hit) (instanceId hit)))
                (set_ghostVisible true (set_graph h2 s))
          end
      | None => set_hoveredVoxel None (set_ghostVisible false s)
      end
  | _ => s
  end.

Definition isInstancedMesh (h : Heap) (o : oid) : bool :=
  match kind (props h o) with
  | InstancedMesh _ => true
  | _ => false
  end.

(** [target.setMatrixAt(id, mat)]: a write past the end of the typed array
    is ignored. *)
Fixpoint setMatrixAt (id : nat) (m : Matrix4) (l : list Matrix4)
    : list Matrix4 :=
  match l, id with
  | [], _ => []
  | _ :: l', O => m :: l'
  | x :: l', S k => x :: setMatrixAt k m l'
  end.

(** The decimal text of a brush size, for the name ["Voxel " + size]. *)
Definition voxel_name (size : Z) : string :=
  ("Voxel " ++ DecimalString.NilZero.string_of_int (Z.to_int size))%string.

(** [window.scene.getObjectByName("UserLayer")], creating the group and
    adding it to the scene when there is none. *)
Definition ensureUserLayer (h : Heap) : oid * Heap :=
  match getObjectByName (next h) h scene "UserLayer" with
  | Some u => (u, h)
  | None =>
      let '(u, h') := alloc (mkObjProps Group "UserLayer" false)
                        defaultTransform false [] h in
      (u, obj_add scene u h')
  end.

(** The Build branch. *)
Definition build_click (hv : HoveredVoxel) (s : Editor) : Editor :=
  let size := brushSize s in
  let '(voxel, h1) :=
    alloc (mkObjProps
             (Mesh (BoxGeometry (ofZ size) (ofZ size) (ofZ size))
                (Some (brushColor s)))
             (voxel_name size) false)
      (mkTransformState (vec_set (hx hv) (hy hv) (hz hv))
         (quaternion defaultTransform) (scale defaultTransform))
      false [] (graph s) in
  let '(userLayer, h2) := ensureUserLayer h1 in
  execute (AddVoxelCommand userLayer voxel) (set_graph h2 s).

(** The Break branch. *)
Definition break_click (hv : HoveredVoxel) (s : Editor) : Editor :=
  let target := hitObj hv in
  if locked (graph s) target then s
  else if negb (isInstancedMesh (graph s) target)
  then execute (RemoveVoxelCommand (parent_or_scene (graph s) target) target) s
  else
    match hitId hv with
    | Some id =>
        let h := graph s in
        set_graph
          (set_instanceMatrix
             (upd (instanceMatrix h) target
                (setMatrixAt id (makeScale 0 0 0) (instanceMatrix h target))) h) s
    | None => s
    end.

(** [width || 1]. *)
Definition or_one (w : Q) : Q := if Qeq_bool w 0 then 1%Q else w.

(** The Pipette branch.  [getColorAt] on an [InstancedMesh] without
    [instanceColor] raises a [TypeError], which ends the handler. *)
Definition pipette_click (isDbl : bool) (hv : HoveredVoxel) (s : Editor)
    : Editor :=
  let target := hitObj hv in
  let h := graph s in
  match kind (props h target) with
  | InstancedMesh None => s
  | InstancedMesh (Some colors) =>
      set_brushColor
        (nth (match hitId hv with Some id => id | None => 0 end) colors 0%Z) s
  | k =>
      let s1 :=
        match k with
        | Mesh _ (Some c) => set_brushColor c s
        | _ => s
        end in
      match k with
      | Mesh (BoxGeometry w _ _) _ =>
          if isDbl then
            let sd := js_mul (vx (scale (transform h target))) (or_one w) in
            let rounded := Math_round sd in
            if (1 <=? rounded)%Z && (rounded <=? 5)%Z
            then updateGhostGeometry (set_brushSize rounded s1)
            else s1
          else s1
      | _ => s1
      end
  end.

(** The [mousedown] listener: [now] is [Date.now()].  The Select branch does
    not return when its ancestor loop does not terminate; then no change is
    observed. *)
Definition mousedown (button : nat) (now : Z) (intersects : list Intersection)
    (s : Editor) : Editor :=
  if negb (Nat.eqb button 0) then s
  else
    let isDbl := (now - lastPipetteClick s <? 300)%Z in
    let s0 := set_lastPipetteClick now s in
    match activeTool s0, hoveredVoxel s0 with
    | ToolSelect, _ =>
        match find_opt
                (fun i => select_filter (S (next (graph s0))) (graph s0) (iobject i))
                intersects with
        | Some (Some hit) => selectObject (Some (iobject hit)) s0
        | Some None => selectObject None s0
        | None => s0
        end
    | ToolBuild, Some hv => build_click hv s0
    | ToolBreak, Some hv => break_click hv s0
    | ToolPipette, Some hv => pipette_click isDbl hv s0
    | _, _ => s0
    end.

(* ================================================================== *)
(** ** Runs of the command manager *)

Inductive HistoryOp :=
| OpExecute (c : Command)
| OpUndo
| OpRedo.

Definition history_step (op : HistoryOp) (s : Editor) : Editor :=
  match op with
  | OpExecute c => execute c s
  | OpUndo => undo s
  | OpRedo => redo s
  end.

Definition run_history (ops : list HistoryOp) (s : Editor) : Editor :=
  fold_left (fun st op => history_step op st) ops s.

(** The cursor is within [-1, length - 1]. *)
Definition cursor_in_bounds (s : Editor) : Prop :=
  (-1 <= index s <= zlength (history s) - 1)%Z.


(* ================================================================== *)
(** ** A small scene used for concrete runs *)

(** Objects 1-3 are the editor helpers; 4 is a group holding the cube 5 of
    side 4; 6 is a cube of side 8; 7 is an [InstancedMesh] of two cubes. *)
Definition sampleProps (o : oid) : ObjProps :=
  match o with
  | 3 => mkObjProps (Mesh (BoxGeometry 1 1 1) (Some 65280%Z)) "" false
  | 4 => mkObjProps Group "Tree" false
  | 5 => mkObjProps (Mesh (BoxGeometry 4 4 4) (Some 255%Z)) "Leaf" false
  | 6 => mkObjProps (Mesh (BoxGeometry 8 8 8) (Some 16711680%Z)) "Rock" false
  | 7 => mkObjProps (InstancedMesh (Some [255%Z; 65280%Z])) "Ground" false
  | _ => mkObjProps OtherObject "" false
  end.

Definition identityMatrix : Matrix4 := makeScale 1 1 1.

Definition emptyHeap : Heap :=
  mkHeap (fun _ => None) (fun _ => []) (fun _ => defaultTransform)
    (fun _ => false) sampleProps
    (fun o => if Nat.eqb o 7 then [identityMatrix; identityMatrix] else []) 8.

Definition sampleScene : Heap :=
  obj_add 4 5
    (obj_add scene 7
       (obj_add scene 6
          (obj_add scene 4
             (obj_add scene ghostCursor
                (obj_add scene selectionBox
                   (obj_add scene controlGizmo emptyHeap)))))).

Definition sampleTransform : TransformState :=
  mkTransformState (mkVector3 1 2 3) (mkQuaternion 0 0 0 1) (mkVector3 1 1 1).

(** The Build scenario: brush size 3, a hit at (2.1, 0.4, 2.9) on the top
    face (normal (0, 1, 0)) of object 6. *)
Definition scenarioHit : Intersection :=
  mkIntersection 6 (mkVector3 (21 # 10) (4 # 10) (29 # 10))
    (Some (mkVector3 0 1 0)) None.

Definition scenarioBuild : Editor :=
  mousedown 0 1000 [scenarioHit]
    (mousemove [scenarioHit]
       (keydown KeyB false false false
          (sizeSlider_oninput 3 (initialEditor sampleScene None)))).

(** The side length that the Pipette reads from a leaf cube:
    [target.scale.x * (target.geometry.parameters.width || 1)], a product of
    Numbers. *)
Definition cubeSide (h : Heap) (o : oid) : Q :=
  match kind (props h o) with
  | Mesh (BoxGeometry w _ _) _ => js_mul (vx (scale (transform h o))) (or_one w)
  | _ => 0%Q
  end.

(** The rule in the words of the specification: the side length rounded and
    clamped to [1, 5]. *)
Definition spec_clamped_size (side : Q) : Z :=
  Z.max 1 (Z.min 5 (Math_round side)).

(** [o] is the scene or hangs below it: following [parent] from [o] reaches
    [window.scene] within [fuel] steps. *)
Fixpoint reaches_scene (fuel : nat) (h : Heap) (o : oid) : bool :=
  Nat.eqb o scene
  || match fuel with
     | O => false
     | S f =>
         match parent h o with
         | Some p => reaches_scene f h p
         | None => false
         end
     end.

(** The objects that the Select loop visits from [o]: [o] and its ancestors,
    up to but not including the scene. *)
Inductive chain_to_root (h : Heap) : oid -> list oid -> Prop :=
| chain_scene : chain_to_root h scene []
| chain_orphan : forall o,
    o <> scene -> parent h o = None -> chain_to_root h o [o]
| chain_step : forall o p l,
    o <> scene -> parent h o = Some p -> chain_to_root h p l ->
    chain_to_root h o (o :: l).

(** An editor widget, as the Hover filter and the tree view know them. *)
Definition is_widget (h : Heap) (o : oid) : bool :=
  Nat.eqb o ghostCursor || Nat.eqb o controlGizmo || Nat.eqb o selectionBox
  || isTransformControlsPlane (props h o).

(** Select tool, pointer-down on a ray whose nearest hit is the (hidden)
    ghost cursor and whose second hit is the cube 6. *)
Definition ghostSelectTrace : Editor :=
  mousedown 0 1000
    [mkIntersection ghostCursor (mkVector3 0 0 0) (Some (mkVector3 0 1 0)) None;
     mkIntersection 6 (mkVector3 0 0 0) (Some (mkVector3 0 1 0)) None]
    (initialEditor sampleScene None).

(** The context menu is opened on the unlocked cube 6, the lock button of its
    row is clicked (pointer-down on the row, then the button's [onclick]),
    and then the Delete entry of the menu, which is still displayed. *)
Definition staleMenuBeforeDelete : Editor :=
  lockBtn_onclick 6
    (row_onmousedown 0 6
       (row_onmousedown 2 6 (initialEditor sampleScene None))).

Definition staleMenuTrace : Editor := ctx_item_click 0 staleMenuBeforeDelete.

(** After the Build scenario: Select tool, a click on the new voxel 8, then
    Ctrl+Z. *)
Definition danglingSelectionBeforeUndo : Editor :=
  mousedown 0 5000
    [mkIntersection 8 (mkVector3 2 3 3) (Some (mkVector3 0 1 0)) None]
    (keydown KeyV false false false scenarioBuild).

Definition danglingSelectionTrace : Editor :=
  keydown KeyZ true false false danglingSelectionBeforeUndo.

(* ================================================================== *)
(** ** Notions used for the undo/redo round trip *)

(** The scene graph is consistent when [parent] and [children] describe the
    same edges and no child is listed twice; three.js keeps it so. *)
Definition graph_wf (h : Heap) : Prop :=
  (forall v P, parent h v = Some P <-> In v (children h P))
  /\ (forall P, NoDup (children h P)).

(** Two heaps that agree on every object. *)
Definition same_graph (h1 h2 : Heap) : Prop :=
  (forall o,
      parent h1 o = parent h2 o
      /\ children h1 o = children h2 o
      /\ transform h1 o = transform h2 o
      /\ locked h1 o = locked h2 o
      /\ props h1 o = props h2 o
      /\ instanceMatrix h1 o = instanceMatrix h2 o)
  /\ next h1 = next h2.

(** A command as the editor constructs it: [RemoveVoxelCommand] is always
    built as [new RemoveVoxelCommand(obj.parent || window.scene, obj)], and no
    command names an object as its own parent. *)
Definition issuable (h : Heap) (c : Command) : bool :=
  match c with
  | AddVoxelCommand P v => negb (Nat.eqb v P)
  | RemoveVoxelCommand P v =>
      negb (Nat.eqb v P) && Nat.eqb P (parent_or_scene h v)
  | TransformCommand _ _ => true
  end.

(** [history.execute] on each command of a list in turn. *)
Definition execute_all (cs : list Command) (s : Editor) : Editor :=
  fold_left (fun st c => execute c st) cs s.

(** Every command of the list is issuable in the state in which it is
    executed. *)
Fixpoint issued (s : Editor) (cs : list Command) : bool :=
  match cs with
  | [] => true
  | c :: cs' => issuable (graph s) c && issued (execute c s) cs'
  end.

(** The effect of [cmd.execute()] and [cmd.undo()] on the heap alone. *)
Definition apply_heap (c : Command) (h : Heap) : Heap :=
  match c with
  | AddVoxelCommand P v => obj_add P v h
  | RemoveVoxelCommand P v => obj_remove P v h
  | TransformCommand o ns => set_object_transform o ns h
  end.

Definition revert_heap (gs : TransformState) (c : Command) (h : Heap) : Heap :=
  match c with
  | AddVoxelCommand P v => obj_remove P v h
  | RemoveVoxelCommand P v => obj_add P v h
  | TransformCommand o _ => set_object_transform o gs h
  end.

Definition run_heap (cs : list Command) (h : Heap) : Heap :=
  fold_left (fun g c => apply_heap c g) cs h.

Definition unrun_heap (gs : TransformState) (cs : list Command) (h : Heap)
    : Heap :=
  fold_right (fun c g => revert_heap gs c g) h cs.

Fixpoint issued_heap (h : Heap) (cs : list Command) : bool :=
  match cs with
  | [] => true
  | c :: cs' => issuable h c && issued_heap (apply_heap c h) cs'
  end.

(** [l] with every occurrence of [v] dropped. *)
Definition without (v : oid) (l : list oid) : list oid :=
  filter (fun x => negb (Nat.eqb x v)) l.

(** The node that a structural command moves. *)
Definition moved (c : Command) : option oid :=
  match c with
  | AddVoxelCommand _ v | RemoveVoxelCommand _ v => Some v
  | TransformCommand _ _ => None
  end.

(** [u] is moved by some command of the list. *)
Definition touched (cs : list Command) (u : oid) : bool :=
  existsb (fun c => oid_opt_eqb (moved c) u) cs.

(** The first command of the list that moves [u]. *)
Fixpoint first_move (cs : list Command) (u : oid) : option Command :=
  match cs with
  | [] => None
  | c :: cs' => if oid_opt_eqb (moved c) u then Some c else first_move cs' u
  end.

(** The [newState] of the last [TransformCommand] on [o] in the list. *)
Fixpoint last_transform (cs : list Command) (o : oid) : option TransformState :=
  match cs with
  | [] => None
  | c :: cs' =>
      match last_transform cs' o with
      | Some ns => Some ns
      | None =>
          match c with
          | TransformCommand o' ns => if Nat.eqb o o' then Some ns else None
          | _ => None
          end
      end
  end.

(** Two heaps with the same hierarchy once the nodes of [D] are set aside. *)
Definition agree_outside (D : oid -> bool) (a b : Heap) : Prop :=
  (forall u, D u = false -> parent a u = parent b u)
  /\ (forall Q, filter (fun x => negb (D x)) (children a Q)
               = filter (fun x => negb (D x)) (children b Q)).

(** The child appended to [Q] when a node gets the parent [X]. *)
Definition tail_for (X : option oid) (v Q : oid) : list oid :=
  match X with
  | Some P => if Nat.eqb Q P then [v] else []
  | None => []
  end.

(** [h'] is [h] with the node [v] taken out of every list of children and
    given the parent [X]. *)
Definition moved_to (v : oid) (X : option oid) (h h' : Heap) : Prop :=
  (forall u, parent h' u = if Nat.eqb u v then X else parent h u)
  /\ (forall Q, children h' Q = without v (children h Q) ++ tail_for X v Q).

(* ================================================================== *)
(** ** The editor as an event machine *)

(** [colorInput.oninput]: the brush colour is the [parseInt] of the chosen
    value. *)
Definition colorInput_oninput (c : Z) (s : Editor) : Editor :=
  set_brushColor c s.

(** What [TransformControls] does between drag start and drag end: it writes
    the dragged transform into the attached object. *)
Definition gizmo_drag (t : TransformState) (s : Editor) : Editor :=
  match gizmoObject s with
  | Some o => set_graph (set_object_transform o t (graph s)) s
  | None => s
  end.

(** The listeners the editor script installs, one constructor per listener.
    A click that reaches the window listener is the separate event
    [EvWindowClick]. *)
Inductive Event :=
| EvKeyDown (k : Key) (ctrlOrMeta shift repeat : bool)
| EvMouseMove (intersects : list Intersection)
| EvMouseDown (button : nat) (now : Z) (intersects : list Intersection)
| EvRowMouseDown (button : nat) (obj : oid)
| EvLockClick (obj : oid)
| EvCtxItemClick (i : nat)
| EvWindowClick
| EvToolButton (t : Tool)
| EvUndoButton
| EvRedoButton
| EvSizeSlider (value : Z)
| EvColorInput (c : Z)
| EvDraggingChanged (value : bool)
| EvGizmoDrag (t : TransformState).

Definition handle (e : Event) (s : Editor) : Editor :=
  match e with
  | EvKeyDown k c sh r => keydown k c sh r s
  | EvMouseMove hits => mousemove hits s
  | EvMouseDown b now hits => mousedown b now hits s
  | EvRowMouseDown b obj => row_onmousedown b obj s
  | EvLockClick obj => lockBtn_onclick obj s
  | EvCtxItemClick i => ctx_item_click i s
  | EvWindowClick => window_click s
  | EvToolButton t => setTool t s
  | EvUndoButton => undo s
  | EvRedoButton => redo s
  | EvSizeSlider v => sizeSlider_oninput v s
  | EvColorInput c => colorInput_oninput c s
  | EvDraggingChanged v => dragging_changed v s
  | EvGizmoDrag t => gizmo_drag t s
  end.

Definition run_events (es : list Event) (s : Editor) : Editor :=
  fold_left (fun st e => handle e st) es s.

(** An event the page can deliver in state [s]: a ray hit or a tree row is an
    object that exists, and the size slider ranges over 1..5. *)
Definition event_ok (s : Editor) (e : Event) : bool :=
  match e with
  | EvMouseDown _ _ hits =>
      forallb (fun i => Nat.ltb (iobject i) (next (graph s))) hits
  | EvRowMouseDown _ obj => Nat.ltb obj (next (graph s))
  | EvSizeSlider v => (1 <=? v)%Z && (v <=? 5)%Z
  | _ => true
  end.

Fixpoint events_ok (s : Editor) (es : list Event) : bool :=
  match es with
  | [] => true
  | e :: es' => event_ok s e && events_ok (handle e s) es'
  end.

(** The highlight box is shown exactly when something is selected. *)
Definition box_matches_selection (s : Editor) : Prop :=
  selectionBoxVisible s
  = match selectedObject s with Some _ => true | None => false end.

(** The manipulator, when attached, holds the selected node, under one of
    Move, Rotate and Scale, and that node is not locked. *)
Definition gizmo_ok (s : Editor) : Prop :=
  match gizmoObject s with
  | Some o =>
      selectedObject s = Some o
      /\ is_transform_tool (activeTool s) = true
      /\ locked (graph s) o = false
  | None => True
  end.

(** The selected node, if any, has been allocated. *)
Definition selection_allocated (s : Editor) : Prop :=
  match selectedObject s with
  | Some o => o < next (graph s)
  | None => True
  end.

(** [h'] has every object of [h], with the lock flag it has in [h]. *)
Definition heap_extends (h h' : Heap) : Prop :=
  next h <= next h'
  /\ (forall o, o < next h -> locked h' o = locked h o).

(** The brush size is one of 1..5. *)
Definition brush_in_range (s : Editor) : Prop := (1 <= brushSize s <= 5)%Z.

(** A walk through the log: any mix of [undo] and [redo]. *)
Inductive Nav := NavUndo | NavRedo.

Definition nav_step (n : Nav) (s : Editor) : Editor :=
  match n with
  | NavUndo => undo s
  | NavRedo => redo s
  end.

Definition navigate (navs : list Nav) (s : Editor) : Editor :=
  fold_left (fun st n => nav_step n st) navs s.

(** What holds of the heap [W] during a walk, when the commands [done] are
    applied and the commands [todo] are undone, with [h0] the heap before the
    first command. *)
Definition walk_inv (h0 : Heap) (done todo : list Command) (W : Heap) : Prop :=
  graph_wf W
  /\ agree_outside (touched todo) W (run_heap done h0)
  /\ (forall u P v,
        first_move todo u = Some (RemoveVoxelCommand P v) ->
        parent W u = Some P \/ parent W u = None)
  /\ (forall o,
        last_transform todo o = None ->
        transform W o = transform (run_heap done h0) o)
  /\ locked W = locked h0
  /\ props W = props h0
  /\ instanceMatrix W = instanceMatrix h0
  /\ next W = next h0.

(** The command is a [TransformCommand] on [o]. *)
Definition transform_target (c : Command) (o : oid) : bool :=
  match c with
  | TransformCommand ob _ => Nat.eqb o ob
  | _ => false
  end.

(** [h'] has every object of [h] with the same instance matrices. *)
Definition instances_kept (h h' : Heap) : Prop :=
  next h <= next h'
  /\ (forall o, o < next h -> instanceMatrix h' o = instanceMatrix h o).

(** Instance [id] of the allocated object [o] has the zero-scale matrix
    that Break writes. *)
Definition instance_hidden (h : Heap) (o : oid) (id : nat) : Prop :=
  o < next h
  /\ nth_error (instanceMatrix h o) id = Some (makeScale 0 0 0).

(** The mesh that Build creates for the brush of [s] at the hovered cell. *)
Definition voxelProps (s : Editor) : ObjProps :=
  mkObjProps
    (Mesh (BoxGeometry (ofZ (brushSize s)) (ofZ (brushSize s)) (ofZ (brushSize s)))
       (Some (brushColor s)))
    (voxel_name (brushSize s)) false.

(** Its transform: the hovered cell, no rotation, unit scale. *)
Definition voxelTransform (hv : HoveredVoxel) : TransformState :=
  mkTransformState (vec_set (hx hv) (hy hv) (hz hv))
    (quaternion defaultTransform) (scale defaultTransform).

(** No object of the heap is named [nm]. *)
Definition no_object_named (nm : string) (h : Heap) : Prop :=
  forall o, name (props h o) <> nm.

(** [h'] has every object of [h] unchanged in all its fields. *)
Definition objects_kept (h h' : Heap) : Prop :=
  next h <= next h'
  /\ (forall x, x < next h ->
        parent h' x = parent h x
        /\ children h' x = children h x
        /\ transform h' x = transform h x
        /\ locked h' x = locked h x
        /\ props h' x = props h x).

(** [c] is a detached copy of the object [o] of [h]. *)
Definition copy_of (h : Heap) (o : oid) (h' : Heap) (c : oid) : Prop :=
  c < next h'
  /\ parent h' c = None
  /\ transform h' c = transform h o
  /\ locked h' c = locked h o
  /\ props h' c = props h o.

(** The listeners other than history navigation (the undo and redo buttons,
    Ctrl+Z) and the entries of the context menu. *)
Definition direct_edit (e : Event) : bool :=
  match e with
  | EvKeyDown k c _ _ => negb (c && match k with KeyZ => true | _ => false end)
  | EvCtxItemClick _ | EvUndoButton | EvRedoButton => false
  | _ => true
  end.

(** The object [o] has the same parent and transform in [h'] as in [h]. *)
Definition node_kept (o : oid) (h h' : Heap) : Prop :=
  parent h' o = parent h o /\ transform h' o = transform h o.

(** The listener calls that reach neither [history.execute] nor
    [history.undo]/[history.redo] in state [s]: everything but Ctrl+Z, Delete
    and Backspace, a left press under Build or Break, a context-menu entry,
    the undo and redo buttons and the end of a drag. *)
Definition unrecorded (s : Editor) (e : Event) : bool :=
  match e with
  | EvKeyDown k c _ r =>
      r || match k with
           | KeyZ => negb c
           | KeyDelete | KeyBackspace => false
           | _ => true
           end
  | EvMouseDown b _ _ =>
      negb (Nat.eqb b 0)
      || match activeTool s with
         | ToolBuild | ToolBreak => false
         | _ => true
         end
  | EvCtxItemClick _ | EvUndoButton | EvRedoButton => false
  | EvDraggingChanged v => v
  | _ => true
  end.

(** Every parent link of the heap joins two allocated objects, and the scene
    is allocated. *)
Definition graph_closed (h : Heap) : Prop :=
  scene < next h
  /\ (forall v P, parent h v = Some P -> v < next h /\ P < next h).

(** The objects a command names are allocated. *)
Definition cmd_allocated (h : Heap) (c : Command) : Prop :=
  match c with
  | AddVoxelCommand P v | RemoveVoxelCommand P v => P < next h /\ v < next h
  | TransformCommand _ _ => True
  end.

(** The objects that the editor state refers to are allocated: the commands
    of the history, the selection, the hover target and the targets of the
    context-menu entries. *)
Definition refs_allocated (s : Editor) : Prop :=
  Forall (cmd_allocated (graph s)) (history s)
  /\ match selectedObject s with
     | Some o => o < next (graph s)
     | None => True
     end
  /\ match hoveredVoxel s with
     | Some hv => hitObj hv < next (graph s)
     | None => True
     end
  /\ match ctxMenu s with
     | Some items => Forall (fun it => ctxTarget it < next (graph s)) items
     | None => True
     end.

(** The scene graph is consistent and closed, and the state refers to
    allocated objects only. *)
Definition scene_inv (s : Editor) : Prop :=
  graph_wf (graph s) /\ graph_closed (graph s) /\ refs_allocated s.

(** The objects an event carries (ray hits, the object of a tree row) are
    allocated in [s]. *)
Definition event_allocated (s : Editor) (e : Event) : bool :=
  match e with
  | EvMouseMove hits | EvMouseDown _ _ hits =>
      forallb (fun i => Nat.ltb (iobject i) (next (graph s))) hits
  | EvRowMouseDown _ obj => Nat.ltb obj (next (graph s))
  | _ => true
  end.

Fixpoint events_allocated (s : Editor) (es : list Event) : bool :=
  match es with
  | [] => true
  | e :: es' => event_allocated s e && events_allocated (handle e s) es'
  end.

(** The geometry of the ghost cursor, when it is a mesh. *)
Definition ghost_geometry (h : Heap) : option Geometry :=
  match kind (props h ghostCursor) with
  | Mesh g _ => Some g
  | _ => None
  end.

(** The ghost cursor is allocated and is a box of the brush size. *)
Definition ghost_matches_brush (s : Editor) : Prop :=
  ghostCursor < next (graph s)
  /\ ghost_geometry (graph s)
     = Some (BoxGeometry (ofZ (brushSize s)) (ofZ (brushSize s))
               (ofZ (brushSize s))).

(** The presses of [es] on the render surface carry a time of [t0] or
    later. *)
Definition presses_not_before (t0 : Z) (es : list Event) : bool :=
  forallb (fun e => match e with
                    | EvMouseDown _ t _ => (t0 <=? t)%Z
                    | _ => true
                    end) es.

(* ================================================================== *)
(** * Properties *)

(** ** Frame facts of the command bodies *)

Lemma cmd_execute_history c s : history (cmd_execute c s) = history s.
Proof.
  destruct c; simpl; try reflexivity.
  destruct (oid_opt_eqb (selectedObject s) voxel); reflexivity.
Qed.

Lemma cmd_execute_index c s : index (cmd_execute c s) = index s.
Proof.
  destruct c; simpl; try reflexivity.
  destruct (oid_opt_eqb (selectedObject s) voxel); reflexivity.
Qed.

Lemma cmd_execute_gizmoStart c s : gizmoStart (cmd_execute c s) = gizmoStart s.
Proof.
  destruct c; simpl; try reflexivity.
  destruct (oid_opt_eqb (selectedObject s) voxel); reflexivity.
Qed.

Lemma cmd_undo_history c s : history (cmd_undo c s) = history s.
Proof. destruct c; reflexivity. Qed.

Lemma cmd_undo_index c s : index (cmd_undo c s) = index s.
Proof. destruct c; reflexivity. Qed.

Lemma cmd_undo_gizmoStart c s : gizmoStart (cmd_undo c s) = gizmoStart s.
Proof. destruct c; reflexivity. Qed.

Lemma zlength_app {A} (l1 l2 : list A) :
  zlength (l1 ++ l2) = (zlength l1 + zlength l2)%Z.
Proof. unfold zlength. rewrite length_app. lia. Qed.

Lemma zlength_cons {A} (x : A) (l : list A) :
  zlength (x :: l) = (zlength l + 1)%Z.
Proof. unfold zlength. simpl List.length. lia. Qed.

Lemma zlength_nil {A} : zlength (@nil A) = 0%Z.
Proof. reflexivity. Qed.

Lemma zlength_nonneg {A} (l : list A) : (0 <= zlength l)%Z.
Proof. unfold zlength. lia. Qed.

(** What [execute] does to the log, the cursor and the rest of the state. *)
Lemma execute_unfold c s :
  cursor_in_bounds s ->
  execute c s =
  set_index (index s + 1)
    (set_history (firstn (Z.to_nat (index s + 1)) (history s) ++ [c])
       (cmd_execute c s)).
Proof.
  intros Hb. unfold cursor_in_bounds in Hb. unfold execute.
  pose proof (cmd_execute_history c s) as Hh.
  pose proof (cmd_execute_index c s) as Hi.
  set (s1 := cmd_execute c s) in *.
  destruct (index s1 <? zlength (history s1) - 1)%Z eqn:E;
    unfold set_index, set_history; simpl; rewrite ?Hi, ?Hh.
  - unfold slice0.
    destruct (index s + 1 <? 0)%Z eqn:E2; [apply Z.ltb_lt in E2; lia|].
    reflexivity.
  - apply Z.ltb_ge in E. rewrite Hi, Hh in E.
    assert (Hlen : Z.to_nat (index s + 1) = List.length (history s))
      by (unfold zlength in *; lia).
    rewrite Hlen, firstn_all. reflexivity.
Qed.

Lemma execute_history c s :
  cursor_in_bounds s ->
  history (execute c s) = firstn (Z.to_nat (index s + 1)) (history s) ++ [c].
Proof. intros H. rewrite execute_unfold by assumption. reflexivity. Qed.

Lemma execute_index c s :
  cursor_in_bounds s -> index (execute c s) = (index s + 1)%Z.
Proof. intros H. rewrite execute_unfold by assumption. reflexivity. Qed.

Lemma execute_graph c s : graph (execute c s) = graph (cmd_execute c s).
Proof.
  unfold execute.
  destruct (index (cmd_execute c s) <? zlength (history (cmd_execute c s)) - 1)%Z;
    reflexivity.
Qed.

Lemma execute_cursor_at_end c s :
  cursor_in_bounds s ->
  index (execute c s) = (zlength (history (execute c s)) - 1)%Z.
Proof.
  intros Hb. rewrite execute_index, execute_history by assumption.
  rewrite zlength_app. unfold zlength. rewrite length_firstn.
  unfold cursor_in_bounds, zlength in Hb. simpl List.length. lia.
Qed.

Lemma execute_in_bounds c s : cursor_in_bounds s -> cursor_in_bounds (execute c s).
Proof.
  intros Hb. unfold cursor_in_bounds.
  rewrite (execute_cursor_at_end c s Hb).
  pose proof (execute_history c s Hb) as Hh. rewrite Hh, zlength_app.
  pose proof (zlength_nonneg (firstn (Z.to_nat (index s + 1)) (history s))).
  change (zlength [c]) with 1%Z. lia.
Qed.

Lemma undo_in_bounds s : cursor_in_bounds s -> cursor_in_bounds (undo s).
Proof.
  unfold cursor_in_bounds, undo. intros Hb.
  destruct (index s >=? 0)%Z eqn:E; [|assumption].
  destruct (js_nth (history s) (index s)); [|assumption].
  simpl. rewrite cmd_undo_index, cmd_undo_history.
  apply Z.geb_le in E. lia.
Qed.

Lemma redo_in_bounds s : cursor_in_bounds s -> cursor_in_bounds (redo s).
Proof.
  unfold cursor_in_bounds, redo. intros Hb.
  destruct (index s <? zlength (history s) - 1)%Z eqn:E; [|assumption].
  apply Z.ltb_lt in E.
  destruct (js_nth _ _); simpl.
  - rewrite cmd_execute_index, cmd_execute_history. simpl. lia.
  - lia.
Qed.

Lemma redo_at_end s :
  index s = (zlength (history s) - 1)%Z -> redo s = s.
Proof.
  intros H. unfold redo. rewrite H, Z.ltb_irrefl. reflexivity.
Qed.

Lemma run_history_in_bounds ops : forall s,
  cursor_in_bounds s -> cursor_in_bounds (run_history ops s).
Proof.
  induction ops as [|op ops IH]; intros s Hb; simpl; [assumption|].
  apply IH. destruct op; simpl;
    auto using execute_in_bounds, undo_in_bounds, redo_in_bounds.
Qed.

(** ** The cursor invariant *)

(** C7. In every history state reached from the empty history of a fresh
    editor by any sequence of [execute], [undo] and [redo], the cursor lies
    within [-1, length - 1], where [length] is the number of commands in the
    log. *)
Theorem cursor_always_in_bounds :
  forall (g : Heap) (controls : option Vector3) (ops : list HistoryOp),
    (-1 <= index (run_history ops (initialEditor g controls))
        <= zlength (history (run_history ops (initialEditor g controls))) - 1)%Z.
Proof.
  intros g controls ops.
  apply (run_history_in_bounds ops (initialEditor g controls)).
  unfold cursor_in_bounds, initialEditor, zlength. simpl. lia.
Qed.

(** ** Executing after undos *)

Lemma iter_redo_at_end n s :
  index s = (zlength (history s) - 1)%Z -> Nat.iter n redo s = s.
Proof.
  intros H. induction n as [|n IH]; simpl; [reflexivity|].
  rewrite IH. apply redo_at_end. assumption.
Qed.

(** C2. With the cursor [k] undos before the end of the log, [execute cmd]
    applies [cmd] (the result is the state after [cmd.execute()] with only the
    log and the cursor rewritten), keeps the entries up to the cursor and
    discards exactly the [k] entries past it, appends [cmd] and advances the
    cursor by one; [redo] is then without effect, however often it is
    called. *)
Theorem execute_discards_redo_branch :
  forall (cmd : Command) (s : Editor) (k : nat),
    k <= List.length (history s) ->
    index s = (zlength (history s) - 1 - Z.of_nat k)%Z ->
    execute cmd s =
      set_index (index s + 1)
        (set_history (firstn (List.length (history s) - k) (history s) ++ [cmd])
           (cmd_execute cmd s))
    /\ graph (execute cmd s) = graph (cmd_execute cmd s)
    /\ history (execute cmd s)
       = firstn (List.length (history s) - k) (history s) ++ [cmd]
    /\ List.length (history (execute cmd s)) = List.length (history s) - k + 1
    /\ index (execute cmd s) = (index s + 1)%Z
    /\ (forall n, Nat.iter n redo (execute cmd s) = execute cmd s).
Proof.
  intros cmd s k Hk Hi.
  assert (Hb : cursor_in_bounds s)
    by (unfold cursor_in_bounds, zlength in *; lia).
  assert (Hn : Z.to_nat (index s + 1) = List.length (history s) - k)
    by (unfold zlength in *; lia).
  pose proof (execute_unfold cmd s Hb) as Hu. rewrite Hn in Hu.
  split; [exact Hu|].
  split; [apply execute_graph|].
  split; [rewrite Hu; reflexivity|].
  split.
  - rewrite Hu. simpl. rewrite length_app, length_firstn. simpl. lia.
  - split; [rewrite Hu; reflexivity|].
    intros n. apply iter_redo_at_end. apply execute_cursor_at_end. exact Hb.
Qed.

Lemma execute_discards_redo_branch_witness :
  let s := run_history
             [OpExecute (AddVoxelCommand 4 8);
              OpExecute (TransformCommand 8 sampleTransform);
              OpUndo]
             (initialEditor sampleScene None) in
  history (execute (RemoveVoxelCommand 4 5) s)
  = [AddVoxelCommand 4 8; RemoveVoxelCommand 4 5].
Proof.
  intros s.
  assert (H1 : 1 <= List.length (history s)) by (vm_compute; repeat constructor).
  assert (H2 : index s = (zlength (history s) - 1 - Z.of_nat 1)%Z) by reflexivity.
  exact (proj1 (proj2 (proj2
           (execute_discards_redo_branch (RemoveVoxelCommand 4 5) s 1 H1 H2)))).
Defined.

(** ** Selecting through the object tree *)

(** C10. A primary click on the tree row of any node, locked or not, makes
    that node the selection and shows the bounding-box highlight; when the
    node is locked the manipulator is detached, when it is unlocked the
    manipulator is attached under Move, Rotate and Scale and left alone under
    the other tools.  Nothing else of the editor changes. *)
Theorem tree_row_click_ignores_lock : forall (obj : oid) (s : Editor),
  selectedObject (row_onmousedown 0 obj s) = Some obj
  /\ selectionBoxVisible (row_onmousedown 0 obj s) = true
  /\ gizmoObject (row_onmousedown 0 obj s)
     = (if locked (graph s) obj then None
        else if is_transform_tool (activeTool s) then Some obj
        else gizmoObject s)
  /\ row_onmousedown 0 obj s
     = set_gizmoObject (gizmoObject (row_onmousedown 0 obj s))
         (set_selectionBoxVisible true (set_selectedObject (Some obj) s)).
Proof.
  intros obj s. unfold row_onmousedown, selectObject. simpl.
  destruct (locked (graph s) obj); simpl;
    [|destruct (is_transform_tool (activeTool s)); simpl];
    repeat split; destruct s; reflexivity.
Qed.

(** ** Frame facts of [add] and [remove] *)

Lemma obj_remove_frame P v h :
  transform (obj_remove P v h) = transform h
  /\ locked (obj_remove P v h) = locked h
  /\ props (obj_remove P v h) = props h
  /\ instanceMatrix (obj_remove P v h) = instanceMatrix h
  /\ next (obj_remove P v h) = next h.
Proof.
  unfold obj_remove. destruct (inb v (children h P)); repeat split; reflexivity.
Qed.

Lemma obj_add_frame P v h :
  transform (obj_add P v h) = transform h
  /\ locked (obj_add P v h) = locked h
  /\ props (obj_add P v h) = props h
  /\ instanceMatrix (obj_add P v h) = instanceMatrix h
  /\ next (obj_add P v h) = next h.
Proof.
  unfold obj_add. destruct (Nat.eqb v P); [repeat split; reflexivity|].
  simpl. unfold removeFromParent.
  destruct (parent h v) as [Q|]; [|repeat split; reflexivity].
  apply obj_remove_frame.
Qed.

Lemma obj_add_transform P v h : transform (obj_add P v h) = transform h.
Proof. apply obj_add_frame. Qed.

Lemma obj_remove_transform P v h : transform (obj_remove P v h) = transform h.
Proof. apply obj_remove_frame. Qed.

Lemma execute_history_app c s : exists l, history (execute c s) = l ++ [c].
Proof.
  unfold execute.
  destruct (index (cmd_execute c s) <? zlength (history (cmd_execute c s)) - 1)%Z;
    simpl; eexists; reflexivity.
Qed.

Lemma upd_same {A} (f : oid -> A) o a : upd f o a o = a.
Proof. unfold upd. rewrite Nat.eqb_refl. reflexivity. Qed.

Lemma upd_other {A} (f : oid -> A) o a o' : o' <> o -> upd f o a o' = f o'.
Proof. unfold upd. intros H. apply Nat.eqb_neq in H. rewrite H. reflexivity. Qed.

(** ** Build placement *)

(** The node allocated by the Build branch, its place in the log and its
    centre. *)
Lemma ensureUserLayer_transform h o :
  o < next h -> transform (snd (ensureUserLayer h)) o = transform h o.
Proof.
  intros Ho. unfold ensureUserLayer.
  destruct (getObjectByName (next h) h scene "UserLayer"); [reflexivity|].
  cbn [alloc snd]. rewrite obj_add_transform. cbn [transform].
  apply upd_other. lia.
Qed.

Lemma build_click_creates hv s :
  exists l P,
    history (build_click hv s) = l ++ [AddVoxelCommand P (next (graph s))]
    /\ position (transform (graph (build_click hv s)) (next (graph s)))
       = vec_set (hx hv) (hy hv) (hz hv).
Proof.
  unfold build_click. cbv beta iota zeta delta [alloc].
  match goal with
  | |- context [ensureUserLayer ?h] =>
      pose proof (ensureUserLayer_transform h (next (graph s))) as Ht;
      destruct (ensureUserLayer h) as [u h2]
  end.
  cbn [next snd] in Ht.
  match goal with
  | |- context [execute ?c ?st] =>
      destruct (execute_history_app c st) as [l Hl]
  end.
  exists l, u. split; [exact Hl|].
  rewrite execute_graph. cbn [cmd_execute graph set_graph].
  rewrite obj_add_transform, Ht by lia.
  cbn [transform]. rewrite upd_same. reflexivity.
Qed.

Lemma mousemove_build_hover s intersects hit normal :
  activeTool s = ToolBuild ->
  find (hover_filter (graph s)) intersects = Some hit ->
  face hit = Some normal ->
  mousemove intersects s
  = set_hoveredVoxel
      (Some (mkHoveredVoxel
               (Math_round (vx (candidateCenter ToolBuild (brushSize s) (point hit) normal)))
               (Math_round (vy (candidateCenter ToolBuild (brushSize s) (point hit) normal)))
               (Math_round (vz (candidateCenter ToolBuild (brushSize s) (point hit) normal)))
               (iobject hit) (instanceId hit)))
      (set_ghostVisible true
         (set_graph
            (set_material_color ghostCursor 65280%Z
               (set_position ghostCursor
                  (vec_set
                     (Math_round (vx (candidateCenter ToolBuild (brushSize s) (point hit) normal)))
                     (Math_round (vy (candidateCenter ToolBuild (brushSize s) (point hit) normal)))
                     (Math_round (vz (candidateCenter ToolBuild (brushSize s) (point hit) normal))))
                  (graph s))) s)).
Proof.
  intros Ht Hf Hn. unfold mousemove. rewrite Ht, Hf, Hn. reflexivity.
Qed.

Lemma set_material_color_next o c h : next (set_material_color o c h) = next h.
Proof.
  unfold set_material_color. destruct (kind (props h o)); reflexivity.
Qed.

(** C5. Under the Build tool, for every brush size in 1..5 and every valid
    hit, the node created by the pointer-down that follows the pointer-move is
    the last entry of the log and its centre is the per-axis rounding of
    [point + normal * size / 2], so all three coordinates are integers.  In
    the scenario (brush size 3, hit (2.1, 0.4, 2.9), normal (0, 1, 0)) the
    candidate centre is (2.1, 1.9, 2.9), it snaps to (2, 2, 3), and the
    created node has centre exactly (2, 2, 3). *)
Theorem build_center_on_grid :
  (forall (s : Editor) (intersects intersects' : list Intersection) (now : Z)
          (hit : Intersection) (normal : Vector3),
      activeTool s = ToolBuild ->
      (1 <= brushSize s <= 5)%Z ->
      find (hover_filter (graph s)) intersects = Some hit ->
      face hit = Some normal ->
      exists l P v,
        history (mousedown 0 now intersects' (mousemove intersects s))
        = l ++ [AddVoxelCommand P v]
        /\ position
             (transform
                (graph (mousedown 0 now intersects' (mousemove intersects s))) v)
           = vec_set
               (Math_round (vx (candidateCenter ToolBuild (brushSize s) (point hit) normal)))
               (Math_round (vy (candidateCenter ToolBuild (brushSize s) (point hit) normal)))
               (Math_round (vz (candidateCenter ToolBuild (brushSize s) (point hit) normal)))
        /\ is_integer
             (vx (position
                    (transform
                       (graph (mousedown 0 now intersects' (mousemove intersects s))) v)))
        /\ is_integer
             (vy (position
                    (transform
                       (graph (mousedown 0 now intersects' (mousemove intersects s))) v)))
        /\ is_integer
             (vz (position
                    (transform
                       (graph (mousedown 0 now intersects' (mousemove intersects s))) v))))
  /\ (vx (candidateCenter ToolBuild 3 (point scenarioHit) (mkVector3 0 1 0))
        == 21 # 10)%Q
  /\ (vy (candidateCenter ToolBuild 3 (point scenarioHit) (mkVector3 0 1 0))
        == 19 # 10)%Q
  /\ (vz (candidateCenter ToolBuild 3 (point scenarioHit) (mkVector3 0 1 0))
        == 29 # 10)%Q
  /\ snap (candidateCenter ToolBuild 3 (point scenarioHit) (mkVector3 0 1 0))
     = (2, 2, 3)%Z
  /\ history scenarioBuild = [AddVoxelCommand 9 8]
  /\ position (transform (graph scenarioBuild) 8) = mkVector3 2 2 3.
Proof.
  split.
  - intros s intersects intersects' now hit normal Ht _ Hf Hn.
    rewrite (mousemove_build_hover s intersects hit normal Ht Hf Hn).
    unfold mousedown. cbn [Nat.eqb negb].
    cbn [activeTool hoveredVoxel set_lastPipetteClick set_hoveredVoxel
         set_ghostVisible set_graph].
    rewrite Ht.
    match goal with
    | |- context [build_click ?hv ?st] =>
        destruct (build_click_creates hv st) as (l & P & Hh & Hp)
    end.
    exists l, P, (next (graph s)).
    cbn [graph set_lastPipetteClick set_hoveredVoxel set_ghostVisible
         set_graph hx hy hz] in Hh, Hp.
    rewrite set_material_color_next in Hh, Hp.
    cbn [next set_position set_object_transform set_transform] in Hh, Hp.
    split; [exact Hh|]. split; [exact Hp|].
    rewrite Hp. unfold vec_set, is_integer, ofZ. cbn [vx vy vz].
    repeat split; eexists; reflexivity.
  - repeat split; vm_compute; reflexivity.
Qed.

Lemma build_center_on_grid_witness :
  exists l P v,
    history scenarioBuild = l ++ [AddVoxelCommand P v]
    /\ position (transform (graph scenarioBuild) v) = vec_set 2 2 3.
Proof.
  destruct (proj1 build_center_on_grid
              (keydown KeyB false false false
                 (sizeSlider_oninput 3 (initialEditor sampleScene None)))
              [scenarioHit] [scenarioHit] 1000%Z scenarioHit (mkVector3 0 1 0))
    as (l & P & v & Hh & Hp & _).
  - reflexivity.
  - vm_compute. split; discriminate.
  - reflexivity.
  - reflexivity.
  - exists l, P, v. split; [exact Hh|exact Hp].
Defined.

(** ** Pipette *)

Lemma mousedown_pipette s hv now intersects :
  activeTool s = ToolPipette ->
  hoveredVoxel s = Some hv ->
  mousedown 0 now intersects s
  = pipette_click (now - lastPipetteClick s <? 300)%Z hv
      (set_lastPipetteClick now s).
Proof.
  intros Ht Hh. unfold mousedown.
  cbn [Nat.eqb negb activeTool hoveredVoxel set_lastPipetteClick].
  rewrite Ht, Hh. reflexivity.
Qed.

(** The brush size after a Pipette activation less than 300 ms after the
    time held in [lastPipetteClick]. *)
Lemma pipette_size_rule s hv now intersects :
  activeTool s = ToolPipette ->
  hoveredVoxel s = Some hv ->
  (now - lastPipetteClick s < 300)%Z ->
  brushSize (mousedown 0 now intersects s)
  = match kind (props (graph s) (hitObj hv)) with
    | Mesh (BoxGeometry _ _ _) _ =>
        if (1 <=? Math_round (cubeSide (graph s) (hitObj hv)))%Z
           && (Math_round (cubeSide (graph s) (hitObj hv)) <=? 5)%Z
        then Math_round (cubeSide (graph s) (hitObj hv))
        else brushSize s
    | _ => brushSize s
    end.
Proof.
  intros Ht Hh Hd.
  rewrite (mousedown_pipette s hv now intersects Ht Hh).
  apply Z.ltb_lt in Hd. rewrite Hd.
  unfold pipette_click, cubeSide. cbn [graph set_lastPipetteClick].
  destruct (kind (props (graph s) (hitObj hv))) as [g c| |ic| | |];
    try reflexivity.
  - destruct g as [w hh d|]; destruct c as [c|]; cbn [brushSize set_brushColor];
      try reflexivity;
      match goal with
      | |- context [if ?b then _ else _] => destruct b; reflexivity
      end.
  - destruct ic; reflexivity.
Qed.

(** A leaf cube of side 4 sets the brush size to 4. *)
Lemma pipette_side_four s hv now intersects :
  activeTool s = ToolPipette ->
  hoveredVoxel s = Some hv ->
  (now - lastPipetteClick s < 300)%Z ->
  (exists w h d c, kind (props (graph s) (hitObj hv)) = Mesh (BoxGeometry w h d) c) ->
  (cubeSide (graph s) (hitObj hv) == 4)%Q ->
  brushSize (mousedown 0 now intersects s) = 4%Z.
Proof.
  intros Ht Hh Hd (w & h & d & c & Hk) Hs.
  rewrite (pipette_size_rule s hv now intersects Ht Hh Hd), Hk.
  assert (Hr : Math_round (cubeSide (graph s) (hitObj hv)) = 4%Z).
  { unfold Math_round. rewrite Hs. reflexivity. }
  rewrite Hr. reflexivity.
Qed.

(** C3 as stated fails: after two Pipette activations 100 ms apart on the
    leaf cube of side 8, the brush size is still 1, not the clamped value 5. *)
Lemma pipette_size_not_clamped :
  ~ (forall (s : Editor) (hv : HoveredVoxel) (now : Z)
            (intersects : list Intersection),
        activeTool s = ToolPipette ->
        hoveredVoxel s = Some hv ->
        (now - lastPipetteClick s < 300)%Z ->
        (exists w h d c,
            kind (props (graph s) (hitObj hv)) = Mesh (BoxGeometry w h d) c) ->
        brushSize (mousedown 0 now intersects s)
        = spec_clamped_size (cubeSide (graph s) (hitObj hv))).
Proof.
  intros H.
  specialize (H (mousedown 0 1000 []
                   (mousemove [mkIntersection 6 (mkVector3 0 4 0)
                                 (Some (mkVector3 0 1 0)) None]
                      (keydown KeyI false false false (initialEditor sampleScene None))))
                (mkHoveredVoxel 0 4 0 6 None) 1100%Z []).
  assert (Hc : (1 = 5)%Z); [|discriminate Hc].
  apply H.
  - reflexivity.
  - reflexivity.
  - vm_compute. reflexivity.
  - exists 8%Q, 8%Q, 8%Q, (Some 16711680%Z). reflexivity.
Qed.

(** ** Break on a batched instance store *)

Lemma setMatrixAt_nth_error m : forall (l : list Matrix4) (id j : nat),
  nth_error (setMatrixAt id m l) j
  = if Nat.eqb j id && Nat.ltb j (List.length l) then Some m else nth_error l j.
Proof.
  induction l as [|x l IH]; intros id j.
  - destruct id, j; simpl; rewrite ?andb_false_r; reflexivity.
  - destruct id as [|id], j as [|j]; simpl; try reflexivity.
    rewrite IH. reflexivity.
Qed.

Lemma mousedown_break s hv now intersects :
  activeTool s = ToolBreak ->
  hoveredVoxel s = Some hv ->
  mousedown 0 now intersects s = break_click hv (set_lastPipetteClick now s).
Proof.
  intros Ht Hh. unfold mousedown.
  cbn [Nat.eqb negb activeTool hoveredVoxel set_lastPipetteClick].
  rewrite Ht, Hh. reflexivity.
Qed.

(** Whatever the lock flag and the instance index, a Break pointer-down on a
    batched store leaves the log and the cursor alone. *)
Lemma break_instanced_history s hv now intersects :
  activeTool s = ToolBreak ->
  hoveredVoxel s = Some hv ->
  isInstancedMesh (graph s) (hitObj hv) = true ->
  history (mousedown 0 now intersects s) = history s
  /\ index (mousedown 0 now intersects s) = index s.
Proof.
  intros Ht Hh Hi. rewrite (mousedown_break s hv now intersects Ht Hh).
  unfold break_click. cbn [graph set_lastPipetteClick].
  destruct (locked (graph s) (hitObj hv)); [split; reflexivity|].
  rewrite Hi. cbn [negb]. destruct (hitId hv); split; reflexivity.
Qed.

(** C6. A Break pointer-down whose hover target is an unlocked batched
    instance store overwrites the matrix of exactly the hit instance with the
    zero scale, and changes nothing else: the log and the cursor are the same,
    and so are the hierarchy, the transforms, the lock flags and the matrices
    of every other instance and store. *)
Theorem break_instance_bypasses_history :
  forall (s : Editor) (hv : HoveredVoxel) (id : nat) (now : Z)
         (intersects : list Intersection),
    activeTool s = ToolBreak ->
    hoveredVoxel s = Some hv ->
    isInstancedMesh (graph s) (hitObj hv) = true ->
    locked (graph s) (hitObj hv) = false ->
    hitId hv = Some id ->
    history (mousedown 0 now intersects s) = history s
    /\ index (mousedown 0 now intersects s) = index s
    /\ (forall j,
          nth_error
            (instanceMatrix (graph (mousedown 0 now intersects s)) (hitObj hv)) j
          = if Nat.eqb j id
               && Nat.ltb j (List.length (instanceMatrix (graph s) (hitObj hv)))
            then Some (makeScale 0 0 0)
            else nth_error (instanceMatrix (graph s) (hitObj hv)) j)
    /\ (forall o, o <> hitObj hv ->
          instanceMatrix (graph (mousedown 0 now intersects s)) o
          = instanceMatrix (graph s) o)
    /\ parent (graph (mousedown 0 now intersects s)) = parent (graph s)
    /\ children (graph (mousedown 0 now intersects s)) = children (graph s)
    /\ transform (graph (mousedown 0 now intersects s)) = transform (graph s)
    /\ locked (graph (mousedown 0 now intersects s)) = locked (graph s).
Proof.
  intros s hv id now intersects Ht Hh Hi Hl Hid.
  rewrite (mousedown_break s hv now intersects Ht Hh).
  unfold break_click. cbn [graph set_lastPipetteClick].
  rewrite Hl, Hi, Hid. cbn [negb]. cbn.
  repeat split.
  - intros j. rewrite upd_same. apply setMatrixAt_nth_error.
  - intros o Ho. apply upd_other. exact Ho.
Qed.

Lemma break_instance_bypasses_history_witness :
  let s := mousemove
             [mkIntersection 7 (mkVector3 0 1 0) (Some (mkVector3 0 1 0)) (Some 1)]
             (keydown KeyX false false false (initialEditor sampleScene None)) in
  history (mousedown 0 1000 [] s) = []
  /\ instanceMatrix (graph (mousedown 0 1000 [] s)) 7
     = [identityMatrix; makeScale 0 0 0].
Proof.
  intros s.
  destruct (break_instance_bypasses_history s
              (mkHoveredVoxel 0 1 0 7 (Some 1)) 1 1000%Z [])
    as (Hh & _); try reflexivity.
  split; [exact Hh | reflexivity].
Defined.

(** ** Ray filters *)

Lemma locked_in_chain_spec h : forall o l fuel,
  chain_to_root h o l ->
  List.length l < fuel ->
  locked_in_chain fuel h (Some o) = Some (existsb (locked h) l).
Proof.
  intros o l fuel Hc. revert fuel.
  induction Hc as [|o Ho Hp|o p l Ho Hp Hc IH]; intros fuel Hf.
  - destruct fuel; [inversion Hf|]. reflexivity.
  - destruct fuel as [|[|fuel]]; simpl in Hf; try lia.
    apply Nat.eqb_neq in Ho. simpl. rewrite Ho, Hp.
    destruct (locked h o); reflexivity.
  - destruct fuel as [|fuel]; simpl in Hf; try lia.
    apply Nat.eqb_neq in Ho. simpl. rewrite Ho, Hp.
    destruct (locked h o); [reflexivity|].
    apply IH. lia.
Qed.

(** Select: with the ancestor chain [l] of [o] (itself included, the scene
    excluded), the filter keeps [o] exactly when [o] is not the manipulator,
    the highlight box or a manipulator plane and no object of [l] is
    locked. *)
Lemma select_filter_spec h o l fuel :
  chain_to_root h o l ->
  List.length l < fuel ->
  select_filter fuel h o
  = Some (negb (Nat.eqb o controlGizmo || Nat.eqb o selectionBox
                || isTransformControlsPlane (props h o))
          && negb (existsb (locked h) l)).
Proof.
  intros Hc Hf. unfold select_filter.
  destruct (Nat.eqb o controlGizmo || Nat.eqb o selectionBox
            || isTransformControlsPlane (props h o)); [reflexivity|].
  rewrite (locked_in_chain_spec h o l fuel Hc Hf). reflexivity.
Qed.

(** Hover: the filter keeps a hit exactly when its object is no widget and
    its own lock flag is clear. *)
Lemma hover_filter_spec h i :
  hover_filter h i = negb (is_widget h (iobject i)) && negb (locked h (iobject i)).
Proof.
  unfold hover_filter, is_widget. rewrite !negb_orb. reflexivity.
Qed.

Lemma chain_to_root_head h o l :
  chain_to_root h o l -> o <> scene -> In o l.
Proof.
  intros Hc Ho. inversion Hc; subst; [contradiction| |]; left; reflexivity.
Qed.

(** An unlocked child of a locked group is kept by Hover and dropped by
    Select. *)
Lemma child_of_locked_group h i G fuel l :
  is_widget h (iobject i) = false ->
  locked h (iobject i) = false ->
  iobject i <> scene ->
  parent h (iobject i) = Some G ->
  G <> scene ->
  locked h G = true ->
  chain_to_root h (iobject i) l ->
  List.length l < fuel ->
  hover_filter h i = true /\ select_filter fuel h (iobject i) = Some false.
Proof.
  intros Hw Hl Hs Hp HG HlG Hc Hf. split.
  - rewrite hover_filter_spec, Hw, Hl. reflexivity.
  - rewrite (select_filter_spec h _ l fuel Hc Hf).
    assert (Hex : existsb (locked h) l = true).
    { apply existsb_exists. exists G. split; [|exact HlG].
      inversion Hc as [E|o Ho Hpo E|o p l' Ho Hpo Hc' E]; subst.
      - congruence.
      - congruence.
      - right. rewrite Hp in Hpo. inversion Hpo; subst p.
        apply (chain_to_root_head h G l' Hc' HG). }
    rewrite Hex, andb_false_r. reflexivity.
Qed.

(** The ghost cursor, an unlocked child of the scene, passes the Select
    filter. *)
Lemma select_filter_ghost h fuel :
  parent h ghostCursor = Some scene ->
  locked h ghostCursor = false ->
  isTransformControlsPlane (props h ghostCursor) = false ->
  select_filter (S (S fuel)) h ghostCursor = Some true.
Proof.
  intros Hp Hl Ht. unfold select_filter. rewrite Ht. simpl.
  rewrite Hl, Hp. reflexivity.
Qed.

(** C4 (where the code departs from it). The Select filter does not exclude
    the ghost cursor, which the Hover filter does: with the hidden ghost
    cursor as the nearest hit, a Select pointer-down makes the ghost cursor
    the selection. *)
Theorem select_filter_accepts_ghost_cursor :
  select_filter (S (next sampleScene)) sampleScene ghostCursor = Some true
  /\ hover_filter sampleScene
       (mkIntersection ghostCursor (mkVector3 0 0 0) (Some (mkVector3 0 1 0)) None)
     = false
  /\ is_widget sampleScene ghostCursor = true
  /\ selectedObject ghostSelectTrace = Some ghostCursor.
Proof. repeat split; reflexivity. Qed.

(** ** Locked nodes and the Delete and Clone actions *)

(** Delete or Backspace with a locked selection changes nothing. *)
Lemma delete_key_on_locked s o ctrl shift :
  selectedObject s = Some o ->
  locked (graph s) o = true ->
  keydown KeyDelete ctrl shift false s = s
  /\ keydown KeyBackspace ctrl shift false s = s.
Proof.
  intros Hs Hl. unfold keydown. cbn. rewrite !andb_false_r, Hs, Hl. split; reflexivity.
Qed.

(** In a menu opened on a locked node, the Delete and Clone entries run no
    command: the log, the cursor and the graph stay as they were. *)
Lemma ctx_menu_opened_on_locked s obj i :
  locked (graph s) obj = true ->
  i < 2 ->
  history (ctx_item_click i (showCtxMenu obj s)) = history s
  /\ index (ctx_item_click i (showCtxMenu obj s)) = index s
  /\ graph (ctx_item_click i (showCtxMenu obj s)) = graph s.
Proof.
  intros Hl Hi. unfold showCtxMenu, ctx_item_click, selectObject.
  cbn [graph set_selectedObject set_selectionBoxVisible].
  rewrite Hl. cbn [graph set_gizmoObject set_selectedObject
                   set_selectionBoxVisible ctxMenu set_ctxMenu].
  rewrite Hl.
  destruct i as [|[|i]]; [| |lia]; repeat split; reflexivity.
Qed.

(** C8 (where the code departs from it). The entries of the context menu are
    enabled from the lock flag read when the menu is opened, and the lock
    button does not close the menu: after the node is locked, the Delete entry
    of the menu still displayed executes [RemoveVoxelCommand] on the locked
    node. *)
Theorem stale_menu_deletes_locked_node :
  locked (graph staleMenuBeforeDelete) 6 = true
  /\ history staleMenuBeforeDelete = []
  /\ children (graph staleMenuBeforeDelete) scene = [1; 2; 3; 4; 6; 7]
  /\ history staleMenuTrace = [RemoveVoxelCommand scene 6]
  /\ index staleMenuTrace = 0%Z
  /\ children (graph staleMenuTrace) scene = [1; 2; 3; 4; 7]
  /\ parent (graph staleMenuTrace) 6 = None.
Proof. repeat split; reflexivity. Qed.

(** ** Selection after a removal *)

(** Executing [RemoveVoxelCommand] on the selected node clears the selection,
    hides the highlight box and detaches the manipulator. *)
Lemma remove_selected_clears_selection s P v :
  selectedObject s = Some v ->
  selectedObject (execute (RemoveVoxelCommand P v) s) = None
  /\ selectionBoxVisible (execute (RemoveVoxelCommand P v) s) = false
  /\ gizmoObject (execute (RemoveVoxelCommand P v) s) = None.
Proof.
  intros Hs. unfold execute.
  assert (Hc : cmd_execute (RemoveVoxelCommand P v) s
               = selectObject None (set_graph (obj_remove P v (graph s)) s)).
  { unfold cmd_execute. cbn [selectedObject set_graph]. rewrite Hs.
    unfold oid_opt_eqb. rewrite Nat.eqb_refl. reflexivity. }
  rewrite Hc.
  match goal with |- context [if ?b then _ else _] => destruct b end;
    repeat split; reflexivity.
Qed.

(** Undoing an [AddVoxelCommand] takes the node out of the graph and leaves
    the selection as it is. *)
Lemma undo_add_keeps_selection s P v :
  selectedObject (cmd_undo (AddVoxelCommand P v) s) = selectedObject s
  /\ selectionBoxVisible (cmd_undo (AddVoxelCommand P v) s) = selectionBoxVisible s.
Proof. split; reflexivity. Qed.

(** C9 (where the code departs from it). Undoing the Build of a voxel that
    is selected removes the voxel from the graph and keeps it as the
    selection, with the highlight box still shown: the selection then
    references a node that is not in the graph. *)
Theorem undo_of_build_leaves_dangling_selection :
  selectedObject danglingSelectionBeforeUndo = Some 8
  /\ reaches_scene 10 (graph danglingSelectionBeforeUndo) 8 = true
  /\ selectedObject danglingSelectionTrace = Some 8
  /\ selectionBoxVisible danglingSelectionTrace = true
  /\ parent (graph danglingSelectionTrace) 8 = None
  /\ reaches_scene 10 (graph danglingSelectionTrace) 8 = false.
Proof. repeat split; reflexivity. Qed.

(** ** Lists of children *)

Lemma inb_In v l : inb v l = true <-> In v l.
Proof.
  unfold inb. rewrite existsb_exists. split.
  - intros (x & Hx & He). apply Nat.eqb_eq in He. subst. exact Hx.
  - intros H. exists v. split; [exact H|apply Nat.eqb_refl].
Qed.

Lemma without_In u v l : In u (without v l) <-> In u l /\ u <> v.
Proof.
  unfold without. rewrite filter_In, negb_true_iff, Nat.eqb_neq. tauto.
Qed.

Lemma without_notin v l : ~ In v l -> without v l = l.
Proof.
  induction l as [|x l IH]; intros H; [reflexivity|]. simpl.
  destruct (Nat.eqb x v) eqn:E.
  - apply Nat.eqb_eq in E. subst. exfalso. apply H. left. reflexivity.
  - simpl. rewrite IH; [reflexivity|]. intros Hin. apply H. right. exact Hin.
Qed.

Lemma splice_first_nodup v l : NoDup l -> splice_first v l = without v l.
Proof.
  induction l as [|x l IH]; intros Hn; [reflexivity|].
  inversion Hn as [|? ? Hx Hl]; subst. simpl.
  destruct (Nat.eqb x v) eqn:E; simpl.
  - apply Nat.eqb_eq in E. subst. symmetry. apply without_notin. exact Hx.
  - rewrite IH by exact Hl. reflexivity.
Qed.

Lemma without_splice v l : without v (splice_first v l) = without v l.
Proof.
  induction l as [|x l IH]; [reflexivity|]. simpl.
  destruct (Nat.eqb x v) eqn:E; simpl; rewrite ?E; simpl; [reflexivity|].
  rewrite IH. reflexivity.
Qed.

Lemma filter_and {A} (p q : A -> bool) l :
  filter p (filter q l) = filter (fun x => p x && q x) l.
Proof.
  induction l as [|x l IH]; [reflexivity|]. simpl.
  destruct (q x); simpl; [destruct (p x); simpl; rewrite IH; reflexivity|].
  rewrite andb_false_r. exact IH.
Qed.

Lemma without_nodup v l : NoDup l -> NoDup (without v l).
Proof. intros H. unfold without. apply NoDup_filter. exact H. Qed.

(** ** Normal forms of [add] and [remove] on a consistent graph *)

Lemma moved_to_wf v X h h' :
  graph_wf h -> moved_to v X h h' -> graph_wf h'.
Proof.
  intros [He Hn] [Hp Hc]. split.
  - intros u Q. rewrite Hp, Hc, in_app_iff, without_In.
    destruct (Nat.eqb u v) eqn:E.
    + apply Nat.eqb_eq in E. subst u. unfold tail_for.
      destruct X as [P|].
      * destruct (Nat.eqb Q P) eqn:EQ.
        -- apply Nat.eqb_eq in EQ. subst. simpl. intuition.
        -- apply Nat.eqb_neq in EQ. simpl. split.
           ++ intros H. inversion H. subst. contradiction EQ. reflexivity.
           ++ intros [[_ H]|[]]. contradiction H. reflexivity.
      * simpl. split; [discriminate|]. intros [[_ H]|[]].
        contradiction H. reflexivity.
    + apply Nat.eqb_neq in E. rewrite He. split.
      * intros H. left. split; assumption.
      * intros [[H _]|H]; [exact H|].
        unfold tail_for in H. destruct X as [P|]; [|destruct H].
        destruct (Nat.eqb Q P); [|destruct H].
        destruct H as [H|[]]. subst. contradiction E. reflexivity.
  - intros Q. rewrite Hc. unfold tail_for.
    destruct X as [P|]; [destruct (Nat.eqb Q P)|];
      rewrite ?app_nil_r; try (apply without_nodup, Hn).
    apply NoDup_app.
    + apply without_nodup, Hn.
    + repeat constructor. intros [].
    + intros x Hx [Hv|[]]. subst. apply without_In in Hx.
      destruct Hx as [_ Hx]. contradiction Hx. reflexivity.
Qed.

Lemma option_eq_dec_oid (a b : option oid) : {a = b} + {a <> b}.
Proof. repeat decide equality. Qed.

Lemma obj_remove_absent h P v :
  graph_wf h -> parent h v <> Some P -> obj_remove P v h = h.
Proof.
  intros [He _] Hp. unfold obj_remove.
  destruct (inb v (children h P)) eqn:E; [|reflexivity].
  apply inb_In, He in E. contradiction.
Qed.

Lemma obj_remove_norm h P v :
  graph_wf h ->
  parent h v = Some P \/ parent h v = None ->
  moved_to v None h (obj_remove P v h).
Proof.
  intros Hwf Hp. pose proof Hwf as [He Hn].
  assert (Hother : forall Q, parent h v <> Some Q ->
                             without v (children h Q) = children h Q).
  { intros Q HQ. apply without_notin. intros Hin. apply He in Hin.
    contradiction. }
  destruct Hp as [Hp|Hp].
  - unfold obj_remove.
    assert (E : inb v (children h P) = true) by (apply inb_In, He, Hp).
    rewrite E. split; cbn [parent children set_children set_parent].
    + intros u. unfold upd. destruct (Nat.eqb u v); reflexivity.
    + intros Q. cbn [tail_for]. rewrite app_nil_r. unfold upd.
      destruct (Nat.eqb Q P) eqn:EQ.
      * apply Nat.eqb_eq in EQ. subst Q. apply splice_first_nodup, Hn.
      * symmetry. apply Hother. rewrite Hp. intros H. inversion H. subst.
        rewrite Nat.eqb_refl in EQ. discriminate.
  - rewrite obj_remove_absent by (assumption || congruence). split.
    + intros u. destruct (Nat.eqb u v) eqn:E; [|reflexivity].
      apply Nat.eqb_eq in E. subst. exact Hp.
    + intros Q. cbn [tail_for]. rewrite app_nil_r. symmetry.
      apply Hother. congruence.
Qed.

Lemma obj_remove_wf h P v : graph_wf h -> graph_wf (obj_remove P v h).
Proof.
  intros Hwf.
  destruct (option_eq_dec_oid (parent h v) (Some P)) as [Hp|Hp].
  - apply (moved_to_wf v None h); [exact Hwf|].
    apply obj_remove_norm; [exact Hwf|left; exact Hp].
  - rewrite obj_remove_absent; assumption.
Qed.

Lemma removeFromParent_norm h v :
  graph_wf h -> moved_to v None h (removeFromParent v h).
Proof.
  intros Hwf. unfold removeFromParent.
  destruct (parent h v) as [Q|] eqn:Hp.
  - apply obj_remove_norm; [exact Hwf|left; exact Hp].
  - pose proof (obj_remove_norm h scene v Hwf (or_intror Hp)) as H.
    rewrite obj_remove_absent in H by (assumption || congruence). exact H.
Qed.

Lemma obj_add_norm h P v :
  graph_wf h -> v <> P -> moved_to v (Some P) h (obj_add P v h).
Proof.
  intros Hwf Hv. unfold obj_add.
  apply Nat.eqb_neq in Hv. rewrite Hv.
  destruct (removeFromParent_norm h v Hwf) as [Hp Hc].
  split; cbn [parent children set_children set_parent].
  - intros u. unfold upd. destruct (Nat.eqb u v) eqn:E; [reflexivity|].
    rewrite Hp, E. reflexivity.
  - intros Q. unfold upd, tail_for. destruct (Nat.eqb Q P) eqn:EQ.
    + apply Nat.eqb_eq in EQ. subst Q. rewrite Hc. cbn [tail_for].
      rewrite app_nil_r. reflexivity.
    + rewrite Hc. reflexivity.
Qed.

Lemma obj_add_wf h P v : graph_wf h -> graph_wf (obj_add P v h).
Proof.
  intros Hwf. destruct (Nat.eq_dec v P) as [E|E].
  - unfold obj_add. apply Nat.eqb_eq in E. rewrite E. exact Hwf.
  - apply (moved_to_wf v (Some P) h); [exact Hwf|].
    apply obj_add_norm; assumption.
Qed.

Lemma set_object_transform_wf h o t :
  graph_wf h -> graph_wf (set_object_transform o t h).
Proof. intros H. exact H. Qed.

Lemma apply_heap_wf c h : graph_wf h -> graph_wf (apply_heap c h).
Proof.
  destruct c; simpl; auto using obj_add_wf, obj_remove_wf, set_object_transform_wf.
Qed.

Lemma revert_heap_wf gs c h : graph_wf h -> graph_wf (revert_heap gs c h).
Proof.
  destruct c; simpl; auto using obj_add_wf, obj_remove_wf, set_object_transform_wf.
Qed.

Lemma run_heap_wf cs : forall h, graph_wf h -> graph_wf (run_heap cs h).
Proof.
  induction cs as [|c cs IH]; intros h H; simpl; [exact H|].
  apply IH, apply_heap_wf, H.
Qed.

Lemma unrun_heap_wf gs cs h : graph_wf h -> graph_wf (unrun_heap gs cs h).
Proof.
  intros H. induction cs as [|c cs IH]; simpl; [exact H|].
  apply revert_heap_wf, IH.
Qed.

(** ** Agreement outside a set of nodes *)

(** [add] and [remove] of [v] change the hierarchy only at [v], whatever the
    graph. *)
Lemma obj_remove_only_at h P v :
  agree_outside (fun u => Nat.eqb u v) (obj_remove P v h) h.
Proof.
  unfold obj_remove. destruct (inb v (children h P)).
  - split; cbn [parent children set_children set_parent].
    + intros u Hu. unfold upd. rewrite Hu. reflexivity.
    + intros Q. unfold upd. destruct (Nat.eqb Q P) eqn:E; [|reflexivity].
      apply Nat.eqb_eq in E. subst Q. apply without_splice.
  - split; reflexivity.
Qed.

Lemma agree_outside_trans D a b c :
  agree_outside D a b -> agree_outside D b c -> agree_outside D a c.
Proof.
  intros [Hp1 Hc1] [Hp2 Hc2]. split.
  - intros u Hu. rewrite Hp1, Hp2 by exact Hu. reflexivity.
  - intros Q. rewrite Hc1, Hc2. reflexivity.
Qed.

Lemma agree_outside_mono (D D' : oid -> bool) a b :
  (forall u, D u = true -> D' u = true) ->
  agree_outside D a b -> agree_outside D' a b.
Proof.
  intros Hsub [Hp Hc]. split.
  - intros u Hu. apply Hp. destruct (D u) eqn:E; [|reflexivity].
    apply Hsub in E. congruence.
  - intros Q.
    assert (Hf : forall l,
               filter (fun x => negb (D' x)) l
               = filter (fun x => negb (D' x)) (filter (fun x => negb (D x)) l)).
    { intros l. rewrite filter_and. apply filter_ext. intros x.
      destruct (D x) eqn:E; simpl; [|rewrite andb_true_r; reflexivity].
      apply Hsub in E. rewrite E. reflexivity. }
    rewrite (Hf (children a Q)), (Hf (children b Q)), Hc. reflexivity.
Qed.

Lemma obj_add_only_at h P v :
  agree_outside (fun u => Nat.eqb u v) (obj_add P v h) h.
Proof.
  unfold obj_add. destruct (Nat.eqb v P) eqn:EvP; [split; reflexivity|].
  assert (H1 : agree_outside (fun u => Nat.eqb u v) (removeFromParent v h) h).
  { unfold removeFromParent. destruct (parent h v).
    - apply obj_remove_only_at.
    - split; reflexivity. }
  refine (agree_outside_trans _ _ _ _ _ H1).
  split; cbn [parent children set_children set_parent].
  - intros u Hu. unfold upd. rewrite Hu. reflexivity.
  - intros Q. unfold upd. destruct (Nat.eqb Q P) eqn:EQ; [|reflexivity].
    apply Nat.eqb_eq in EQ. subst Q.
    rewrite filter_app. simpl. rewrite Nat.eqb_refl. simpl.
    apply app_nil_r.
Qed.

Lemma agree_outside_flip v a b :
  agree_outside (fun u => Nat.eqb u v) a b ->
  agree_outside (fun u => Nat.eqb v u) a b.
Proof.
  apply agree_outside_mono. intros u Hu. rewrite Nat.eqb_sym. exact Hu.
Qed.

Lemma apply_heap_only_at c h :
  agree_outside (fun u => oid_opt_eqb (moved c) u) (apply_heap c h) h.
Proof.
  destruct c as [P v|P v|o ns]; simpl.
  - apply agree_outside_flip, obj_add_only_at.
  - apply agree_outside_flip, obj_remove_only_at.
  - split; reflexivity.
Qed.

Lemma revert_heap_only_at gs c h :
  agree_outside (fun u => oid_opt_eqb (moved c) u) (revert_heap gs c h) h.
Proof.
  destruct c as [P v|P v|o ns]; simpl.
  - apply agree_outside_flip, obj_remove_only_at.
  - apply agree_outside_flip, obj_add_only_at.
  - split; reflexivity.
Qed.

Lemma obj_add_parent_self h P v :
  v <> P -> parent (obj_add P v h) v = Some P.
Proof.
  intros Hv. unfold obj_add. apply Nat.eqb_neq in Hv. rewrite Hv.
  cbn [parent set_children set_parent]. apply upd_same.
Qed.

Lemma first_move_moved cs u c :
  first_move cs u = Some c -> moved c = Some u.
Proof.
  induction cs as [|c' cs IH]; simpl; [discriminate|].
  destruct (oid_opt_eqb (moved c') u) eqn:E; [|exact IH].
  intros H. inversion H. subst c'.
  unfold oid_opt_eqb in E. destruct (moved c) as [x|]; [|discriminate].
  apply Nat.eqb_eq in E. subst. reflexivity.
Qed.

Lemma touched_first_move cs u :
  touched cs u = true -> exists c, first_move cs u = Some c.
Proof.
  induction cs as [|c cs IH]; simpl; [discriminate|].
  destruct (oid_opt_eqb (moved c) u); simpl; [eexists; reflexivity|exact IH].
Qed.

(** ** The undo phase *)

(** After the commands have been executed and undone again, the hierarchy
    is the initial one except for the place of the moved nodes, and a node
    whose first move was a removal from [P] is back under [P]. *)
Lemma undo_phase gs : forall cs h0,
  issued_heap h0 cs = true ->
  agree_outside (touched cs) (unrun_heap gs cs (run_heap cs h0)) h0
  /\ (forall u P v,
        first_move cs u = Some (RemoveVoxelCommand P v) ->
        parent (unrun_heap gs cs (run_heap cs h0)) u = Some P).
Proof.
  induction cs as [|c cs IH]; intros h0 Hi.
  - split; [split; reflexivity|]. intros u P v H. discriminate H.
  - simpl in Hi. apply andb_true_iff in Hi. destruct Hi as [Hc Hi].
    destruct (IH (apply_heap c h0) Hi) as [Ha Hf].
    change (run_heap (c :: cs) h0) with (run_heap cs (apply_heap c h0)).
    change (unrun_heap gs (c :: cs) (run_heap cs (apply_heap c h0)))
      with (revert_heap gs c (unrun_heap gs cs (run_heap cs (apply_heap c h0)))).
    set (U1 := unrun_heap gs cs (run_heap cs (apply_heap c h0))) in *.
    split.
    + apply agree_outside_trans with (b := U1).
      * apply (agree_outside_mono (fun u => oid_opt_eqb (moved c) u));
          [|apply revert_heap_only_at].
        intros u Hu. unfold touched. simpl. rewrite Hu. reflexivity.
      * apply agree_outside_trans with (b := apply_heap c h0).
        -- apply (agree_outside_mono (touched cs)); [|exact Ha].
           intros u Hu. unfold touched in *. simpl. rewrite Hu.
           apply orb_true_r.
        -- apply (agree_outside_mono (fun u => oid_opt_eqb (moved c) u));
             [|apply apply_heap_only_at].
           intros u Hu. unfold touched. simpl. rewrite Hu. reflexivity.
    + intros u P v H. simpl in H.
      destruct (oid_opt_eqb (moved c) u) eqn:E.
      * inversion H. subst c. simpl in E. apply Nat.eqb_eq in E. subst v.
        simpl in Hc. apply andb_true_iff in Hc. destruct Hc as [Hc _].
        apply negb_true_iff, Nat.eqb_neq in Hc.
        simpl. apply obj_add_parent_self. exact Hc.
      * destruct (revert_heap_only_at gs c U1) as [Hp _].
        rewrite (Hp u E). apply (Hf u P v H).
Qed.

(** ** The redo phase *)

Lemma filter_all {A} (p : A -> bool) l :
  (forall x, p x = true) -> filter p l = l.
Proof.
  intros H. induction l as [|x l IH]; [reflexivity|].
  simpl. rewrite H, IH. reflexivity.
Qed.

(** Moving [v] to the same place in two graphs that agree outside [D] makes
    them agree outside [D] without [v]. *)
Lemma agree_outside_step D v X R S R' S' :
  agree_outside D R S ->
  moved_to v X R R' ->
  moved_to v X S S' ->
  agree_outside (fun u => D u && negb (Nat.eqb v u)) R' S'.
Proof.
  intros [Hp Hc] [HpR HcR] [HpS HcS]. split.
  - intros u Hu. rewrite HpR, HpS.
    destruct (Nat.eqb u v) eqn:E; [reflexivity|].
    apply Hp. rewrite Nat.eqb_sym, E in Hu. simpl in Hu.
    rewrite andb_true_r in Hu. exact Hu.
  - intros Q. rewrite HcR, HcS, !filter_app. f_equal.
    unfold without. rewrite !filter_and.
    assert (He : forall l,
               filter (fun x => negb (D x && negb (Nat.eqb v x))
                                && negb (Nat.eqb x v)) l
               = without v (filter (fun x => negb (D x)) l)).
    { intros l. unfold without. rewrite filter_and. apply filter_ext.
      intros x. rewrite (Nat.eqb_sym v x).
      destruct (Nat.eqb x v), (D x); reflexivity. }
    rewrite !He, Hc. reflexivity.
Qed.

Lemma issuable_remove_parent S P v :
  issuable S (RemoveVoxelCommand P v) = true ->
  parent S v = Some P \/ parent S v = None.
Proof.
  simpl. intros H. apply andb_true_iff in H. destruct H as [_ H].
  apply Nat.eqb_eq in H. unfold parent_or_scene in H.
  destruct (parent S v); [left; congruence|right; reflexivity].
Qed.

(** Re-executing the commands from a graph that agrees with the initial one
    outside the moved nodes ends in the hierarchy that the first execution
    produced. *)
Lemma redo_phase : forall cs R S D,
  graph_wf R -> graph_wf S ->
  agree_outside D R S ->
  (forall u, D u = true ->
     match first_move cs u with
     | Some (RemoveVoxelCommand P _) => parent R u = Some P
     | Some _ => True
     | None => False
     end) ->
  issued_heap S cs = true ->
  forall o,
    parent (run_heap cs R) o = parent (run_heap cs S) o
    /\ children (run_heap cs R) o = children (run_heap cs S) o.
Proof.
  induction cs as [|c cs IH]; intros R S D HR HS Ha Hd Hi o.
  - assert (HD : forall u, D u = false).
    { intros u. destruct (D u) eqn:E; [|reflexivity].
      destruct (Hd u E). }
    destruct Ha as [Hp Hc]. split; [apply Hp, HD|].
    specialize (Hc o).
    rewrite !filter_all in Hc by (intros x; rewrite HD; reflexivity).
    exact Hc.
  - simpl in Hi. apply andb_true_iff in Hi. destruct Hi as [Hc Hi].
    change (run_heap (c :: cs) R) with (run_heap cs (apply_heap c R)).
    change (run_heap (c :: cs) S) with (run_heap cs (apply_heap c S)).
    apply (IH (apply_heap c R) (apply_heap c S)
              (fun u => D u && negb (oid_opt_eqb (moved c) u)));
      try (apply apply_heap_wf; assumption); try exact Hi.
    + destruct c as [P v|P v|ob ns].
      * simpl in Hc. apply negb_true_iff, Nat.eqb_neq in Hc.
        apply (agree_outside_step D v (Some P) R S); [exact Ha| |];
          apply obj_add_norm; assumption.
      * pose proof (issuable_remove_parent S P v Hc) as HpS.
        assert (HpR : parent R v = Some P \/ parent R v = None).
        { destruct (D v) eqn:E.
          - specialize (Hd v E). simpl in Hd. rewrite Nat.eqb_refl in Hd.
            left. exact Hd.
          - destruct Ha as [Hp _]. rewrite (Hp v E). exact HpS. }
        apply (agree_outside_step D v None R S); [exact Ha| |];
          apply obj_remove_norm; assumption.
      * apply (agree_outside_mono D); [|exact Ha].
        intros u Hu. simpl. rewrite Hu. reflexivity.
    + intros u Hu. apply andb_true_iff in Hu. destruct Hu as [Hu Hm].
      apply negb_true_iff in Hm.
      specialize (Hd u Hu). simpl in Hd. rewrite Hm in Hd.
      destruct (first_move cs u) as [[P v|P v|ob ns]|]; try exact Hd.
      destruct (apply_heap_only_at c R) as [Hp _].
      rewrite (Hp u Hm). exact Hd.
Qed.

(** The hierarchy after execute, undo all, redo all. *)
Lemma round_trip_hierarchy gs cs h0 :
  graph_wf h0 ->
  issued_heap h0 cs = true ->
  forall o,
    parent (run_heap cs (unrun_heap gs cs (run_heap cs h0))) o
    = parent (run_heap cs h0) o
    /\ children (run_heap cs (unrun_heap gs cs (run_heap cs h0))) o
       = children (run_heap cs h0) o.
Proof.
  intros Hwf Hi.
  destruct (undo_phase gs cs h0 Hi) as [Ha Hf].
  apply (redo_phase cs _ h0 (touched cs)).
  - apply unrun_heap_wf, run_heap_wf, Hwf.
  - exact Hwf.
  - exact Ha.
  - intros u Hu. destruct (touched_first_move cs u Hu) as [c Hc].
    rewrite Hc. destruct c as [P v|P v|ob ns]; try exact I.
    apply (Hf u P v Hc).
  - exact Hi.
Qed.

(** ** Transforms and the untouched fields *)

Lemma apply_heap_frame c h :
  locked (apply_heap c h) = locked h
  /\ props (apply_heap c h) = props h
  /\ instanceMatrix (apply_heap c h) = instanceMatrix h
  /\ next (apply_heap c h) = next h.
Proof.
  destruct c as [P v|P v|ob ns]; simpl.
  - destruct (obj_add_frame P v h) as (_ & H). exact H.
  - destruct (obj_remove_frame P v h) as (_ & H). exact H.
  - repeat split; reflexivity.
Qed.

Lemma revert_heap_frame gs c h :
  locked (revert_heap gs c h) = locked h
  /\ props (revert_heap gs c h) = props h
  /\ instanceMatrix (revert_heap gs c h) = instanceMatrix h
  /\ next (revert_heap gs c h) = next h.
Proof.
  destruct c as [P v|P v|ob ns]; simpl.
  - destruct (obj_remove_frame P v h) as (_ & H). exact H.
  - destruct (obj_add_frame P v h) as (_ & H). exact H.
  - repeat split; reflexivity.
Qed.

Lemma run_heap_frame cs : forall h,
  locked (run_heap cs h) = locked h
  /\ props (run_heap cs h) = props h
  /\ instanceMatrix (run_heap cs h) = instanceMatrix h
  /\ next (run_heap cs h) = next h.
Proof.
  induction cs as [|c cs IH]; intros h; simpl; [repeat split; reflexivity|].
  destruct (IH (apply_heap c h)) as (H1 & H2 & H3 & H4).
  destruct (apply_heap_frame c h) as (G1 & G2 & G3 & G4).
  rewrite H1, H2, H3, H4. repeat split; assumption.
Qed.

Lemma unrun_heap_frame gs cs h :
  locked (unrun_heap gs cs h) = locked h
  /\ props (unrun_heap gs cs h) = props h
  /\ instanceMatrix (unrun_heap gs cs h) = instanceMatrix h
  /\ next (unrun_heap gs cs h) = next h.
Proof.
  induction cs as [|c cs IH]; simpl; [repeat split; reflexivity|].
  destruct IH as (H1 & H2 & H3 & H4).
  destruct (revert_heap_frame gs c (unrun_heap gs cs h)) as (G1 & G2 & G3 & G4).
  rewrite G1, G2, G3, G4. repeat split; assumption.
Qed.

Lemma apply_heap_transform c h o :
  transform (apply_heap c h) o
  = match c with
    | TransformCommand o' ns => if Nat.eqb o o' then ns else transform h o
    | _ => transform h o
    end.
Proof.
  destruct c as [P v|P v|ob ns]; simpl.
  - rewrite obj_add_transform. reflexivity.
  - rewrite obj_remove_transform. reflexivity.
  - reflexivity.
Qed.

Lemma run_heap_transform cs : forall h o,
  transform (run_heap cs h) o
  = match last_transform cs o with
    | Some ns => ns
    | None => transform h o
    end.
Proof.
  induction cs as [|c cs IH]; intros h o; simpl; [reflexivity|].
  rewrite IH. destruct (last_transform cs o); [reflexivity|].
  rewrite apply_heap_transform.
  destruct c as [P v|P v|ob ns]; try reflexivity.
  destruct (Nat.eqb o ob); reflexivity.
Qed.

Lemma unrun_heap_transform gs cs h o :
  last_transform cs o = None ->
  transform (unrun_heap gs cs h) o = transform h o.
Proof.
  induction cs as [|c cs IH]; simpl; [reflexivity|].
  destruct (last_transform cs o); [discriminate|].
  intros Hc. destruct c as [P v|P v|ob ns]; simpl.
  - rewrite obj_remove_transform. apply IH. reflexivity.
  - rewrite obj_add_transform. apply IH. reflexivity.
  - unfold upd. destruct (Nat.eqb o ob); [discriminate|]. apply IH. reflexivity.
Qed.

Lemma round_trip_transform gs cs h0 o :
  transform (run_heap cs (unrun_heap gs cs (run_heap cs h0))) o
  = transform (run_heap cs h0) o.
Proof.
  rewrite (run_heap_transform cs (unrun_heap _ _ _)).
  rewrite (run_heap_transform cs h0).
  destruct (last_transform cs o) eqn:E; [reflexivity|].
  rewrite unrun_heap_transform by exact E.
  rewrite run_heap_transform, E. reflexivity.
Qed.

(** The heap after execute, undo all, redo all. *)
Lemma round_trip_heap gs cs h0 :
  graph_wf h0 ->
  issued_heap h0 cs = true ->
  same_graph (run_heap cs (unrun_heap gs cs (run_heap cs h0))) (run_heap cs h0).
Proof.
  intros Hwf Hi.
  destruct (run_heap_frame cs (unrun_heap gs cs (run_heap cs h0)))
    as (H1 & H2 & H3 & H4).
  destruct (unrun_heap_frame gs cs (run_heap cs h0)) as (G1 & G2 & G3 & G4).
  split.
  - intros o.
    destruct (round_trip_hierarchy gs cs h0 Hwf Hi o) as [Hp Hc].
    repeat split; try assumption.
    + apply round_trip_transform.
    + rewrite H1, G1. reflexivity.
    + rewrite H2, G2. reflexivity.
    + rewrite H3, G3. reflexivity.
  - rewrite H4, G4. reflexivity.
Qed.

(** ** From the heap to the command manager *)

Lemma graph_cmd_execute c s : graph (cmd_execute c s) = apply_heap c (graph s).
Proof.
  destruct c as [P v|P v|ob ns]; simpl; try reflexivity.
  destruct (oid_opt_eqb (selectedObject s) v); reflexivity.
Qed.

Lemma graph_cmd_undo c s :
  graph (cmd_undo c s) = revert_heap (gizmoStart s) c (graph s).
Proof. destruct c; reflexivity. Qed.

Lemma js_nth_middle {A} (pre : list A) c post :
  js_nth (pre ++ c :: post) (zlength pre) = Some c.
Proof.
  unfold js_nth, zlength.
  destruct (Z.of_nat (List.length pre) <? 0)%Z eqn:E;
    [apply Z.ltb_lt in E; lia|].
  rewrite Nat2Z.id, nth_error_app2 by lia.
  rewrite Nat.sub_diag. reflexivity.
Qed.

Lemma execute_gizmoStart c s : gizmoStart (execute c s) = gizmoStart s.
Proof.
  unfold execute.
  destruct (index (cmd_execute c s) <? zlength (history (cmd_execute c s)) - 1)%Z;
    cbn [gizmoStart set_index set_history]; apply cmd_execute_gizmoStart.
Qed.

Lemma execute_all_graph : forall cs s,
  graph (execute_all cs s) = run_heap cs (graph s)
  /\ gizmoStart (execute_all cs s) = gizmoStart s
  /\ issued s cs = issued_heap (graph s) cs.
Proof.
  induction cs as [|c cs IH]; intros s; [repeat split; reflexivity|].
  change (execute_all (c :: cs) s) with (execute_all cs (execute c s)).
  destruct (IH (execute c s)) as (Hg & Hs & Hq).
  repeat split.
  - rewrite Hg, execute_graph, graph_cmd_execute. reflexivity.
  - rewrite Hs. apply execute_gizmoStart.
  - simpl. rewrite Hq, execute_graph, graph_cmd_execute. reflexivity.
Qed.

Lemma execute_all_at_end : forall cs s,
  index s = (zlength (history s) - 1)%Z ->
  history (execute_all cs s) = history s ++ cs
  /\ index (execute_all cs s) = (index s + zlength cs)%Z.
Proof.
  induction cs as [|c cs IH]; intros s He.
  - simpl. rewrite app_nil_r. unfold zlength. simpl. split; [reflexivity|lia].
  - change (execute_all (c :: cs) s) with (execute_all cs (execute c s)).
    assert (Hb : cursor_in_bounds s).
    { unfold cursor_in_bounds. pose proof (zlength_nonneg (history s)). lia. }
    pose proof (execute_history c s Hb) as Eh.
    pose proof (execute_index c s Hb) as Ei.
    rewrite firstn_all2 in Eh by (unfold zlength in He; lia).
    destruct (IH (execute c s) (execute_cursor_at_end c s Hb)) as [Hh Hi].
    split.
    + rewrite Hh, Eh, <- app_assoc. reflexivity.
    + rewrite Hi, Ei. unfold zlength. simpl List.length. lia.
Qed.

Lemma undo_step s pre c post :
  history s = pre ++ c :: post ->
  index s = zlength pre ->
  undo s = set_index (zlength pre - 1) (cmd_undo c s).
Proof.
  intros Hh Hi. unfold undo. rewrite Hi, Hh, js_nth_middle.
  pose proof (zlength_nonneg pre) as Hp.
  destruct (zlength pre >=? 0)%Z eqn:E;
    [|rewrite Z.geb_leb in E; apply Z.leb_gt in E; lia].
  rewrite cmd_undo_index, Hi. reflexivity.
Qed.

Lemma redo_step s pre c post :
  history s = pre ++ c :: post ->
  index s = (zlength pre - 1)%Z ->
  redo s = cmd_execute c (set_index (zlength pre) s).
Proof.
  intros Hh Hi. unfold redo. rewrite Hi, Hh.
  assert (Hl : (zlength pre - 1 <? zlength (pre ++ c :: post) - 1)%Z = true).
  { apply Z.ltb_lt. rewrite zlength_app. unfold zlength at 3.
    simpl List.length. lia. }
  rewrite Hl. cbn [index history set_index].
  replace (zlength pre - 1 + 1)%Z with (zlength pre) by lia.
  rewrite Hh, js_nth_middle. reflexivity.
Qed.

Lemma iter_undo_facts : forall cs s pre post,
  history s = pre ++ cs ++ post ->
  index s = (zlength pre + zlength cs - 1)%Z ->
  history (Nat.iter (List.length cs) undo s) = history s
  /\ index (Nat.iter (List.length cs) undo s) = (zlength pre - 1)%Z
  /\ graph (Nat.iter (List.length cs) undo s)
     = unrun_heap (gizmoStart s) cs (graph s)
  /\ gizmoStart (Nat.iter (List.length cs) undo s) = gizmoStart s.
Proof.
  induction cs as [|c cs IH] using rev_ind; intros s pre post Hh Hi.
  - simpl. unfold zlength in Hi. simpl in Hi.
    repeat split; try reflexivity. unfold zlength. lia.
  - rewrite length_app, Nat.add_comm. simpl List.length.
    rewrite Nat.iter_succ_r.
    rewrite <- app_assoc in Hh. simpl in Hh.
    rewrite zlength_app in Hi. unfold zlength at 3 in Hi. simpl in Hi.
    assert (Hu : undo s = set_index (zlength (pre ++ cs) - 1) (cmd_undo c s)).
    { apply (undo_step s (pre ++ cs) c post).
      - rewrite <- app_assoc. exact Hh.
      - rewrite zlength_app. lia. }
    rewrite Hu.
    destruct (IH (set_index (zlength (pre ++ cs) - 1) (cmd_undo c s)) pre
                 (c :: post)) as (H1 & H2 & H3 & H4).
    + cbn [history set_index]. rewrite cmd_undo_history. exact Hh.
    + cbn [index set_index]. rewrite zlength_app. lia.
    + cbn [history set_index graph gizmoStart] in *.
      rewrite cmd_undo_history in H1. rewrite cmd_undo_gizmoStart in H3, H4.
      rewrite graph_cmd_undo in H3.
      repeat split; try assumption.
      rewrite H3. unfold unrun_heap. rewrite fold_right_app. reflexivity.
Qed.

Lemma iter_redo_facts : forall cs s pre post,
  history s = pre ++ cs ++ post ->
  index s = (zlength pre - 1)%Z ->
  history (Nat.iter (List.length cs) redo s) = history s
  /\ index (Nat.iter (List.length cs) redo s)
     = (zlength pre + zlength cs - 1)%Z
  /\ graph (Nat.iter (List.length cs) redo s) = run_heap cs (graph s).
Proof.
  induction cs as [|c cs IH]; intros s pre post Hh Hi.
  - simpl. rewrite zlength_nil.
    repeat split; try reflexivity. lia.
  - simpl List.length. rewrite Nat.iter_succ_r.
    rewrite (redo_step s pre c (cs ++ post) Hh Hi).
    destruct (IH (cmd_execute c (set_index (zlength pre) s)) (pre ++ [c]) post)
      as (H1 & H2 & H3).
    + rewrite cmd_execute_history. cbn [history set_index].
      rewrite Hh, <- app_assoc. reflexivity.
    + rewrite cmd_execute_index. cbn [index set_index].
      rewrite zlength_app, zlength_cons, zlength_nil. lia.
    + rewrite cmd_execute_history in H1. cbn [history set_index] in H1.
      rewrite graph_cmd_execute in H3. cbn [graph set_index] in H3.
      repeat split; try assumption.
      rewrite H2, zlength_app, !zlength_cons, zlength_nil. lia.
Qed.

Lemma same_graph_refl h : same_graph h h.
Proof. split; [intros o; repeat split|]; reflexivity. Qed.

Lemma emptyHeap_wf : graph_wf emptyHeap.
Proof.
  split.
  - intros v P. simpl. split; [discriminate|intros []].
  - intros P. constructor.
Qed.

Lemma sampleScene_wf : graph_wf sampleScene.
Proof. unfold sampleScene. repeat apply obj_add_wf. apply emptyHeap_wf. Qed.

(** ** The round-trip law *)

(** C1. For every sequence of N commands executed through the command
    manager, each one as the editor constructs it, from a state with a
    consistent scene graph and the cursor within bounds: N calls of [undo]
    followed by N calls of [redo] restore exactly the heap that held after the
    N-th [execute] (for every object the parent, the ordered list of
    children, position, quaternion and scale, the lock flag and the remaining
    fields), together with the log and the cursor. *)
Theorem undo_redo_round_trip : forall (cs : list Command) (s : Editor),
  graph_wf (graph s) ->
  cursor_in_bounds s ->
  issued s cs = true ->
  same_graph
    (graph (Nat.iter (List.length cs) redo
              (Nat.iter (List.length cs) undo (execute_all cs s))))
    (graph (execute_all cs s))
  /\ history (Nat.iter (List.length cs) redo
                (Nat.iter (List.length cs) undo (execute_all cs s)))
     = history (execute_all cs s)
  /\ index (Nat.iter (List.length cs) redo
              (Nat.iter (List.length cs) undo (execute_all cs s)))
     = index (execute_all cs s).
Proof.
  intros cs s Hwf Hb Hq.
  destruct cs as [|c cs'].
  - simpl. split; [apply same_graph_refl|split; reflexivity].
  - destruct (execute_all_graph (c :: cs') s) as (Hg & Hs & Hi).
    rewrite Hi in Hq.
    set (pre := firstn (Z.to_nat (index s + 1)) (history s)).
    assert (Hh1 : history (execute c s) = pre ++ [c])
      by (apply execute_history; exact Hb).
    assert (He1 : index (execute c s) = (zlength (history (execute c s)) - 1)%Z)
      by (apply execute_cursor_at_end; exact Hb).
    destruct (execute_all_at_end cs' (execute c s) He1) as [HhN HiN].
    change (execute_all cs' (execute c s)) with (execute_all (c :: cs') s) in *.
    set (sN := execute_all (c :: cs') s) in *.
    assert (HhN' : history sN = pre ++ (c :: cs') ++ []).
    { rewrite HhN, Hh1, app_nil_r, <- app_assoc. reflexivity. }
    assert (HiN' : index sN = (zlength pre + zlength (c :: cs') - 1)%Z).
    { rewrite HiN, He1, Hh1, zlength_app, !zlength_cons, zlength_nil. lia. }
    destruct (iter_undo_facts (c :: cs') sN pre [] HhN' HiN')
      as (U1 & U2 & U3 & U4).
    set (sU := Nat.iter (List.length (c :: cs')) undo sN) in *.
    assert (HhU : history sU = pre ++ (c :: cs') ++ [])
      by (rewrite U1; exact HhN').
    destruct (iter_redo_facts (c :: cs') sU pre [] HhU U2) as (R1 & R2 & R3).
    split; [|split].
    + rewrite R3, U3, Hg. apply round_trip_heap; assumption.
    + rewrite R1, U1. reflexivity.
    + rewrite R2, HiN'. reflexivity.
Qed.

Lemma undo_redo_round_trip_witness :
  let cs := [RemoveVoxelCommand 4 5; TransformCommand 6 sampleTransform;
             RemoveVoxelCommand scene 6; AddVoxelCommand 4 8] in
  let s := initialEditor sampleScene None in
  same_graph
    (graph (Nat.iter 4 redo (Nat.iter 4 undo (execute_all cs s))))
    (graph (execute_all cs s)).
Proof.
  intros cs s.
  refine (proj1 (undo_redo_round_trip cs s _ _ _)).
  - exact sampleScene_wf.
  - unfold cursor_in_bounds. vm_compute. split; discriminate.
  - reflexivity.
Defined.

(** ** The two removal paths that skip a check, in general *)

Lemma selectObject_frame o s :
  graph (selectObject o s) = graph s
  /\ history (selectObject o s) = history s
  /\ index (selectObject o s) = index s
  /\ ctxMenu (selectObject o s) = ctxMenu s.
Proof.
  unfold selectObject. destruct o as [x|]; cbn [graph set_selectedObject
    set_selectionBoxVisible];
    [destruct (locked (graph s) x);
     [|cbn [activeTool set_selectionBoxVisible set_selectedObject];
       destruct (is_transform_tool (activeTool s))]|];
    repeat split; reflexivity.
Qed.

Lemma lockBtn_onclick_frame obj s :
  ctxMenu (lockBtn_onclick obj s) = ctxMenu s
  /\ history (lockBtn_onclick obj s) = history s
  /\ parent (graph (lockBtn_onclick obj s)) = parent (graph s)
  /\ locked (graph (lockBtn_onclick obj s)) obj = negb (locked (graph s) obj).
Proof.
  unfold lockBtn_onclick.
  match goal with
  | |- context [if ?b then _ else _] => destruct b
  end; cbn [ctxMenu history graph set_gizmoObject set_graph set_locked
            locked parent]; rewrite upd_same; repeat split; reflexivity.
Qed.

(** A menu opened on an unlocked node survives the click on the lock button,
    and its Delete entry then executes [RemoveVoxelCommand] on the node, now
    locked. *)
Lemma stale_menu_executes_delete s obj :
  locked (graph s) obj = false ->
  locked (graph (lockBtn_onclick obj (row_onmousedown 0 obj (showCtxMenu obj s))))
    obj = true
  /\ exists l,
       history (ctx_item_click 0
                  (lockBtn_onclick obj
                     (row_onmousedown 0 obj (showCtxMenu obj s))))
       = l ++ [RemoveVoxelCommand (parent_or_scene (graph s) obj) obj].
Proof.
  intros Hl.
  assert (Hg1 : graph (showCtxMenu obj s) = graph s).
  { unfold showCtxMenu. cbn [graph set_ctxMenu]. apply selectObject_frame. }
  assert (Hm1 : ctxMenu (showCtxMenu obj s)
                = Some [mkCtxItem CtxDelete obj true; mkCtxItem CtxClone obj true;
                        mkCtxItem CtxFocus obj true]).
  { unfold showCtxMenu. cbn [ctxMenu set_ctxMenu].
    destruct (selectObject_frame (Some obj) s) as (Hg & _). rewrite Hg, Hl.
    reflexivity. }
  generalize dependent (showCtxMenu obj s). intros s1 Hg1 Hm1.
  change (row_onmousedown 0 obj s1) with (selectObject (Some obj) s1).
  destruct (selectObject_frame (Some obj) s1) as (Hg2 & _ & _ & Hm2).
  rewrite Hg1 in Hg2. rewrite Hm1 in Hm2.
  generalize dependent (selectObject (Some obj) s1). intros s2 Hg2 Hm2.
  destruct (lockBtn_onclick_frame obj s2) as (Hm3 & _ & Hp3 & Hl3).
  rewrite Hg2 in Hp3, Hl3. rewrite Hm2 in Hm3. rewrite Hl in Hl3.
  generalize dependent (lockBtn_onclick obj s2). intros s3 Hm3 Hp3 Hl3.
  split; [exact Hl3|].
  unfold ctx_item_click. rewrite Hm3.
  cbn [nth_error ctxEnabled ctxAction ctxTarget ctx_action window_click
       history set_ctxMenu].
  unfold parent_or_scene. rewrite Hp3. apply execute_history_app.
Qed.

(** Undoing the [AddVoxelCommand] that put the selected node in the graph
    detaches the node and keeps it selected. *)
Lemma undo_add_dangling s pre post P v :
  graph_wf (graph s) ->
  history s = pre ++ AddVoxelCommand P v :: post ->
  index s = zlength pre ->
  selectedObject s = Some v ->
  parent (graph s) v = Some P ->
  selectedObject (undo s) = Some v
  /\ parent (graph (undo s)) v = None
  /\ (forall Q, ~ In v (children (graph (undo s)) Q)).
Proof.
  intros Hwf Hh Hi Hs Hp.
  rewrite (undo_step s pre (AddVoxelCommand P v) post Hh Hi).
  cbn [selectedObject graph set_index cmd_undo set_graph].
  destruct (obj_remove_norm (graph s) P v Hwf (or_introl Hp)) as [Hpar Hch].
  split; [exact Hs|]. split.
  - rewrite Hpar, Nat.eqb_refl. reflexivity.
  - intros Q Hin. rewrite Hch in Hin. cbn [tail_for] in Hin.
    rewrite app_nil_r in Hin. apply without_In in Hin.
    destruct Hin as [_ Hne]. apply Hne. reflexivity.
Qed.

(* ================================================================== *)
(** * Further properties of the editor script *)

(** ** Invariants of the event machine *)

Ltac fields :=
  cbn [graph history index activeTool selectedObject hoveredVoxel brushColor
       brushSize lastPipetteClick gizmoObject gizmoStart selectionBoxVisible
       ghostVisible ctxMenu controlsTarget
       set_graph set_history set_index set_activeTool set_selectedObject
       set_hoveredVoxel set_brushColor set_brushSize set_lastPipetteClick
       set_gizmoObject set_gizmoStart set_selectionBoxVisible set_ghostVisible
       set_ctxMenu set_controlsTarget
       parent children transform locked props instanceMatrix next
       set_parent set_children set_transform set_locked set_props
       set_instanceMatrix set_next set_object_transform] in *.

Lemma bounds_of_eq s s' :
  history s' = history s -> index s' = index s ->
  cursor_in_bounds s -> cursor_in_bounds s'.
Proof. unfold cursor_in_bounds. intros -> ->. trivial. Qed.

Lemma box_of_eq s s' :
  selectedObject s' = selectedObject s ->
  selectionBoxVisible s' = selectionBoxVisible s ->
  box_matches_selection s -> box_matches_selection s'.
Proof. unfold box_matches_selection. intros -> ->. trivial. Qed.

Lemma box_selectObject o s : box_matches_selection (selectObject o s).
Proof.
  unfold box_matches_selection, selectObject.
  destruct o as [x|]; fields;
    [destruct (locked (graph s) x);
     [|destruct (is_transform_tool (activeTool s))]|];
    reflexivity.
Qed.

Lemma box_cmd_execute c s :
  box_matches_selection s -> box_matches_selection (cmd_execute c s).
Proof.
  intros H. destruct c as [P v|P v|ob ns]; unfold cmd_execute; cbv zeta;
    try exact H.
  match goal with
  | |- context [if ?b then _ else _] => destruct b
  end; [apply box_selectObject|exact H].
Qed.

Lemma box_execute c s :
  box_matches_selection s -> box_matches_selection (execute c s).
Proof.
  intros H. unfold execute.
  pose proof (box_cmd_execute c s H) as H1.
  destruct (index (cmd_execute c s) <? zlength (history (cmd_execute c s)) - 1)%Z;
    exact H1.
Qed.

Lemma box_undo s : box_matches_selection s -> box_matches_selection (undo s).
Proof.
  intros H. unfold undo.
  destruct (index s >=? 0)%Z; [|exact H].
  destruct (js_nth (history s) (index s)) as [c|]; [|exact H].
  destruct c; exact H.
Qed.

Lemma box_redo s : box_matches_selection s -> box_matches_selection (redo s).
Proof.
  intros H. unfold redo.
  destruct (index s <? zlength (history s) - 1)%Z; [|exact H].
  fields.
  destruct (js_nth (history s) (index s + 1)) as [c|]; [|exact H].
  apply box_cmd_execute. exact H.
Qed.

Lemma selectObject_bounds o s :
  cursor_in_bounds s -> cursor_in_bounds (selectObject o s).
Proof.
  apply bounds_of_eq; apply selectObject_frame.
Qed.

Lemma setTool_fields t s :
  history (setTool t s) = history s
  /\ index (setTool t s) = index s
  /\ selectedObject (setTool t s) = selectedObject s
  /\ selectionBoxVisible (setTool t s) = selectionBoxVisible s
  /\ graph (setTool t s) = graph s
  /\ brushSize (setTool t s) = brushSize s.
Proof.
  unfold setTool. cbv zeta. fields.
  destruct (is_transform_tool t); [destruct (selectedObject s) as [o|] eqn:Es;
    [destruct (locked (graph s) o)|]|]; fields; rewrite ?Es;
    repeat split; reflexivity.
Qed.

Lemma build_click_is_execute hv s :
  exists c h, build_click hv s = execute c (set_graph h s).
Proof.
  unfold build_click.
  destruct (alloc _ _ _ _ (graph s)) as [voxel h1].
  destruct (ensureUserLayer h1) as [u h2].
  eexists _, _. reflexivity.
Qed.

Lemma set_graph_bounds h s :
  cursor_in_bounds s -> cursor_in_bounds (set_graph h s).
Proof. intros H. exact H. Qed.

Lemma set_graph_box h s :
  box_matches_selection s -> box_matches_selection (set_graph h s).
Proof. intros H. exact H. Qed.

(** The log invariant and the highlight invariant, through every listener. *)
Lemma handle_bounds_box e s :
  cursor_in_bounds s /\ box_matches_selection s ->
  cursor_in_bounds (handle e s) /\ box_matches_selection (handle e s).
Proof.
  intros [Hb Hx].
  assert (Hdel : forall s1 o,
             cursor_in_bounds s1 -> box_matches_selection s1 ->
             cursor_in_bounds
               (execute (RemoveVoxelCommand (parent_or_scene (graph s1) o) o) s1)
             /\ box_matches_selection
                  (execute (RemoveVoxelCommand (parent_or_scene (graph s1) o) o) s1))
    by (intros; split; [apply execute_in_bounds|apply box_execute]; assumption).
  destruct e as [k c sh r|hits|b now hits|b obj|obj|i| |t| | |v|c|v|t];
    cbn [handle].
  - (* keydown *)
    unfold keydown. destruct r; [split; assumption|].
    destruct (c && match k with KeyZ => true | _ => false end).
    { destruct sh; split;
        auto using redo_in_bounds, undo_in_bounds, box_redo, box_undo. }
    assert (H1 : cursor_in_bounds
                   (match tool_of_key k with Some t => setTool t s | None => s end)
                 /\ box_matches_selection
                      (match tool_of_key k with Some t => setTool t s | None => s end)).
    { destruct (tool_of_key k) as [t|]; [|split; assumption].
      destruct (setTool_fields t s) as (H1 & H2 & H3 & H4 & _).
      split; [apply (bounds_of_eq s)|apply (box_of_eq s)]; assumption. }
    destruct H1 as [Hb1 Hx1].
    set (s1 := match tool_of_key k with Some t => setTool t s | None => s end) in *.
    destruct k; try (split; assumption);
      (destruct (selectedObject s1) as [o|] eqn:Es; [|split; assumption];
       destruct (locked (graph s1) o); [split; assumption|];
       apply Hdel; assumption).
  - (* mousemove *)
    unfold mousemove.
    destruct (activeTool s); try (split; assumption);
      (destruct (find (hover_filter (graph s)) hits) as [hit|];
       [destruct (face hit); [|split; assumption];
        destruct (snap _) as [[sx sy] sz]; split; assumption
       |split; assumption]).
  - (* mousedown *)
    unfold mousedown. destruct (negb (Nat.eqb b 0)); [split; assumption|].
    set (s0 := set_lastPipetteClick now s).
    assert (Hb0 : cursor_in_bounds s0) by exact Hb.
    assert (Hx0 : box_matches_selection s0) by exact Hx.
    destruct (activeTool s0) eqn:Et.
    + destruct (find_opt _ hits) as [[hit|]|];
        [split; [apply selectObject_bounds; exact Hb0|apply box_selectObject]
        |split; [apply selectObject_bounds; exact Hb0|apply box_selectObject]
        |split; assumption].
    + destruct (hoveredVoxel s0); split; assumption.
    + destruct (hoveredVoxel s0); split; assumption.
    + destruct (hoveredVoxel s0); split; assumption.
    + destruct (hoveredVoxel s0) as [hv|]; [|split; assumption].
      destruct (build_click_is_execute hv s0) as (c & h & ->).
      split; [apply execute_in_bounds|apply box_execute]; assumption.
    + destruct (hoveredVoxel s0) as [hv|]; [|split; assumption].
      unfold break_click.
      destruct (locked (graph s0) (hitObj hv)); [split; assumption|].
      destruct (negb (isInstancedMesh (graph s0) (hitObj hv)));
        [apply Hdel; assumption|].
      destruct (hitId hv); split; assumption.
    + destruct (hoveredVoxel s0) as [hv|]; [|split; assumption].
      unfold pipette_click.
      destruct (kind (props (graph s0) (hitObj hv))) as [g col| |ic| | |];
        try (split; assumption).
      * destruct g as [w hh d|]; destruct col as [col|];
          try (split; assumption);
          (destruct (now - lastPipetteClick s <? 300)%Z; [|split; assumption];
           match goal with
           | |- context [if ?b then _ else _] => destruct b
           end; split; assumption).
      * destruct ic; split; assumption.
  - (* tree row *)
    unfold row_onmousedown.
    assert (H1 : cursor_in_bounds
                   (if Nat.eqb b 0 then selectObject (Some obj) s else s)
                 /\ box_matches_selection
                      (if Nat.eqb b 0 then selectObject (Some obj) s else s)).
    { destruct (Nat.eqb b 0); [|split; assumption].
      split; [apply selectObject_bounds; exact Hb|apply box_selectObject]. }
    destruct H1 as [Hb1 Hx1].
    destruct (Nat.eqb b 2); [|split; assumption].
    unfold showCtxMenu. split.
    + apply (selectObject_bounds (Some obj)) in Hb1. exact Hb1.
    + exact (box_selectObject (Some obj) _).
  - (* lock button *)
    unfold lockBtn_onclick.
    match goal with
    | |- context [if ?b then _ else _] => destruct b
    end; split; assumption.
  - (* context menu entry *)
    unfold ctx_item_click.
    destruct (ctxMenu s) as [items|]; [|split; assumption].
    destruct (nth_error items i) as [it|]; [|split; assumption].
    destruct (ctxEnabled it); [|split; assumption].
    destruct (ctxAction it); cbn [ctx_action].
    + destruct (Hdel s (ctxTarget it) Hb Hx). split; assumption.
    + destruct (clone_obj _ _ _) as [cl h1].
      split; [apply (execute_in_bounds _ (set_graph _ s))
             |apply (box_execute _ (set_graph _ s))]; assumption.
    + destruct (controlsTarget s); split; assumption.
  - split; assumption.
  - destruct (setTool_fields t s) as (H1 & H2 & H3 & H4 & _).
    split; [apply (bounds_of_eq s)|apply (box_of_eq s)]; assumption.
  - split; [apply undo_in_bounds|apply box_undo]; assumption.
  - split; [apply redo_in_bounds|apply box_redo]; assumption.
  - split; assumption.
  - split; assumption.
  - unfold dragging_changed. destruct (gizmoObject s) as [o|]; [|split; assumption].
    destruct v; [split; assumption|].
    split; [apply execute_in_bounds|apply box_execute]; assumption.
  - unfold gizmo_drag. destruct (gizmoObject s); split; assumption.
Qed.

(** X1. Whatever the user does, the cursor of the log stays within
    [-1, length - 1]. *)
Theorem events_keep_cursor_in_bounds :
  forall (g : Heap) (controls : option Vector3) (es : list Event),
    (-1 <= index (run_events es (initialEditor g controls))
        <= zlength (history (run_events es (initialEditor g controls))) - 1)%Z.
Proof.
  intros g controls es.
  assert (H : forall l s,
             cursor_in_bounds s /\ box_matches_selection s ->
             cursor_in_bounds (run_events l s)).
  { induction l as [|e l IH]; intros s Hs; [apply Hs|].
    apply IH, handle_bounds_box, Hs. }
  apply (H es). split.
  - unfold cursor_in_bounds, initialEditor, zlength. simpl. lia.
  - reflexivity.
Qed.

(** X2. Whatever the user does, the highlight box is visible exactly when a
    node is selected. *)
Theorem events_keep_box_with_selection :
  forall (g : Heap) (controls : option Vector3) (es : list Event),
    selectionBoxVisible (run_events es (initialEditor g controls))
    = match selectedObject (run_events es (initialEditor g controls)) with
      | Some _ => true
      | None => false
      end.
Proof.
  intros g controls es.
  assert (H : forall l s,
             cursor_in_bounds s /\ box_matches_selection s ->
             box_matches_selection (run_events l s)).
  { induction l as [|e l IH]; intros s Hs; [apply Hs|].
    apply IH, handle_bounds_box, Hs. }
  apply (H es). split.
  - unfold cursor_in_bounds, initialEditor, zlength. simpl. lia.
  - reflexivity.
Qed.

(** ** Heaps that only grow *)

Lemma heap_extends_refl h : heap_extends h h.
Proof. split; [lia|reflexivity]. Qed.

Lemma heap_extends_trans a b c :
  heap_extends a b -> heap_extends b c -> heap_extends a c.
Proof.
  intros [Hn1 Hl1] [Hn2 Hl2]. split; [lia|].
  intros o Ho. rewrite Hl2 by lia. apply Hl1, Ho.
Qed.

Lemma heap_extends_same h h' :
  next h' = next h -> locked h' = locked h -> heap_extends h h'.
Proof. intros Hn Hl. split; [lia|]. intros o _. rewrite Hl. reflexivity. Qed.

Lemma obj_add_extends P v h : heap_extends h (obj_add P v h).
Proof.
  destruct (obj_add_frame P v h) as (_ & Hl & _ & _ & Hn).
  apply heap_extends_same; assumption.
Qed.

Lemma obj_remove_extends P v h : heap_extends h (obj_remove P v h).
Proof.
  destruct (obj_remove_frame P v h) as (_ & Hl & _ & _ & Hn).
  apply heap_extends_same; assumption.
Qed.

Lemma alloc_extends p t lk im h : heap_extends h (snd (alloc p t lk im h)).
Proof.
  unfold alloc, heap_extends. cbv zeta. cbn [snd next locked].
  split; [lia|].
  intros o Ho. apply upd_other. lia.
Qed.

Lemma ensureUserLayer_extends h : heap_extends h (snd (ensureUserLayer h)).
Proof.
  unfold ensureUserLayer.
  destruct (getObjectByName (next h) h scene "UserLayer");
    [apply heap_extends_refl|].
  pose proof (alloc_extends (mkObjProps Group "UserLayer" false)
                defaultTransform false [] h) as Ha.
  destruct (alloc _ _ _ _ h) as [u h'] eqn:E. cbn [snd] in *.
  apply (heap_extends_trans _ h'); [exact Ha|apply obj_add_extends].
Qed.

Lemma fold_extends {A} (f : Heap -> A -> Heap) :
  (forall h a, heap_extends h (f h a)) ->
  forall l h, heap_extends h (fold_left f l h).
Proof.
  intros Hf. induction l as [|a l IH]; intros h; [apply heap_extends_refl|].
  simpl. apply (heap_extends_trans _ (f h a)); [apply Hf|apply IH].
Qed.

Lemma clone_obj_extends : forall fuel o h,
  heap_extends h (snd (clone_obj fuel o h)).
Proof.
  induction fuel as [|f IH]; intros o h.
  - simpl. apply (alloc_extends (props h o) (transform h o) (locked h o)
                    (instanceMatrix h o) h).
  - simpl. cbn [snd].
    apply (heap_extends_trans _ (snd (alloc (props h o) (transform h o)
                                        (locked h o) (instanceMatrix h o) h)));
      [apply alloc_extends|].
    apply fold_extends. intros h0 child.
    specialize (IH child h0).
    destruct (clone_obj f child h0) as [cc h']. cbn [snd] in IH.
    apply (heap_extends_trans _ h'); [exact IH|apply obj_add_extends].
Qed.

Lemma set_material_color_extends o c h :
  heap_extends h (set_material_color o c h).
Proof.
  apply heap_extends_same; unfold set_material_color;
    destruct (kind (props h o)); reflexivity.
Qed.

Lemma apply_heap_extends c h : heap_extends h (apply_heap c h).
Proof.
  destruct (apply_heap_frame c h) as (Hl & _ & _ & Hn).
  apply heap_extends_same; assumption.
Qed.

Lemma revert_heap_extends gs c h : heap_extends h (revert_heap gs c h).
Proof.
  destruct (revert_heap_frame gs c h) as (Hl & _ & _ & Hn).
  apply heap_extends_same; assumption.
Qed.

(** ** The manipulator invariant *)

Lemma gizmo_transfer s s' :
  gizmoObject s' = gizmoObject s ->
  selectedObject s' = selectedObject s ->
  activeTool s' = activeTool s ->
  heap_extends (graph s) (graph s') ->
  gizmo_ok s /\ selection_allocated s ->
  gizmo_ok s' /\ selection_allocated s'.
Proof.
  unfold gizmo_ok, selection_allocated.
  intros Hg Hs Ht [Hn Hl] [G A]. rewrite Hg, Hs, Ht.
  destruct (selectedObject s) as [x|].
  - split; [|lia].
    destruct (gizmoObject s) as [o|]; [|exact I].
    destruct G as (E & T & L). inversion E; subst x.
    repeat split; try assumption. rewrite Hl by exact A. exact L.
  - split; [|exact I].
    destruct (gizmoObject s) as [o|]; [|exact I].
    destruct G as (E & _). discriminate E.
Qed.

Lemma gizmo_set_graph h s :
  heap_extends (graph s) h ->
  gizmo_ok s /\ selection_allocated s ->
  gizmo_ok (set_graph h s) /\ selection_allocated (set_graph h s).
Proof. intros He. apply gizmo_transfer; try reflexivity. exact He. Qed.

Lemma gizmo_selectObject_none s :
  gizmo_ok (selectObject None s) /\ selection_allocated (selectObject None s).
Proof. split; exact I. Qed.

Lemma gizmo_selectObject_some o s :
  o < next (graph s) ->
  gizmo_ok s /\ selection_allocated s ->
  gizmo_ok (selectObject (Some o) s)
  /\ selection_allocated (selectObject (Some o) s).
Proof.
  intros Ho [G A]. unfold selectObject. fields.
  destruct (locked (graph s) o) eqn:L.
  - split; [exact I|exact Ho].
  - destruct (is_transform_tool (activeTool s)) eqn:T.
    + split; [|exact Ho]. unfold gizmo_ok. fields. repeat split; assumption.
    + split; [|exact Ho]. unfold gizmo_ok in *. fields.
      destruct (gizmoObject s) as [p|]; [|exact I].
      destruct G as (_ & T' & _). congruence.
Qed.

Lemma gizmo_setTool t s :
  gizmo_ok s /\ selection_allocated s ->
  gizmo_ok (setTool t s) /\ selection_allocated (setTool t s).
Proof.
  intros [G A]. unfold setTool. cbv zeta. fields.
  destruct (is_transform_tool t) eqn:T.
  - destruct (selectedObject s) as [o|] eqn:Es.
    + assert (A' := A). unfold selection_allocated in A'. rewrite Es in A'.
      destruct (locked (graph s) o) eqn:L; unfold gizmo_ok, selection_allocated;
        fields; rewrite ?Es; (split; [|exact A']); [exact I|].
      repeat split; assumption.
    + unfold gizmo_ok, selection_allocated in *. fields. rewrite Es in *.
      split; [|exact I].
      destruct (gizmoObject s) as [p|]; [|exact I].
      destruct G as (E & _). discriminate E.
  - unfold gizmo_ok, selection_allocated. fields. split; [exact I|exact A].
Qed.

Lemma gizmo_lockBtn obj s :
  gizmo_ok s /\ selection_allocated s ->
  gizmo_ok (lockBtn_onclick obj s) /\ selection_allocated (lockBtn_onclick obj s).
Proof.
  intros [G A]. unfold lockBtn_onclick. cbv zeta. fields.
  destruct (oid_opt_eqb (selectedObject s) obj
            && upd (locked (graph s)) obj (negb (locked (graph s) obj)) obj) eqn:B.
  - unfold gizmo_ok, selection_allocated. fields. split; [exact I|exact A].
  - unfold gizmo_ok, selection_allocated in *. fields. split; [|exact A].
    destruct (gizmoObject s) as [p|]; [|exact I].
    destruct G as (E & T & L). repeat split; try assumption.
    rewrite E in B. cbn [oid_opt_eqb] in B.
    destruct (Nat.eqb p obj) eqn:Ep.
    + apply Nat.eqb_eq in Ep. subst p. cbn [andb] in B. exact B.
    + rewrite upd_other by (apply Nat.eqb_neq; exact Ep). exact L.
Qed.

Lemma gizmo_cmd_execute c s :
  gizmo_ok s /\ selection_allocated s ->
  gizmo_ok (cmd_execute c s) /\ selection_allocated (cmd_execute c s).
Proof.
  intros H. destruct c as [P v|P v|ob ns]; unfold cmd_execute; cbv zeta.
  - apply gizmo_set_graph; [apply obj_add_extends|exact H].
  - pose proof (gizmo_set_graph (obj_remove P v (graph s)) s
                  (obj_remove_extends P v (graph s)) H) as H1.
    match goal with
    | |- context [if ?b then _ else _] => destruct b
    end; [apply gizmo_selectObject_none|exact H1].
  - apply gizmo_set_graph; [|exact H].
    apply heap_extends_same; reflexivity.
Qed.

Lemma gizmo_cmd_undo c s :
  gizmo_ok s /\ selection_allocated s ->
  gizmo_ok (cmd_undo c s) /\ selection_allocated (cmd_undo c s).
Proof.
  intros H. destruct c as [P v|P v|ob ns]; unfold cmd_undo;
    apply gizmo_set_graph; try exact H.
  - apply obj_remove_extends.
  - apply obj_add_extends.
  - apply heap_extends_same; reflexivity.
Qed.

Lemma gizmo_execute c s :
  gizmo_ok s /\ selection_allocated s ->
  gizmo_ok (execute c s) /\ selection_allocated (execute c s).
Proof.
  intros H. apply gizmo_cmd_execute with (c := c) in H. unfold execute.
  destruct (index (cmd_execute c s) <? zlength (history (cmd_execute c s)) - 1)%Z;
    exact H.
Qed.

Lemma gizmo_undo s :
  gizmo_ok s /\ selection_allocated s ->
  gizmo_ok (undo s) /\ selection_allocated (undo s).
Proof.
  intros H. unfold undo.
  destruct (index s >=? 0)%Z; [|exact H].
  destruct (js_nth (history s) (index s)) as [c|]; [|exact H].
  exact (gizmo_cmd_undo c s H).
Qed.

Lemma gizmo_redo s :
  gizmo_ok s /\ selection_allocated s ->
  gizmo_ok (redo s) /\ selection_allocated (redo s).
Proof.
  intros H. unfold redo.
  destruct (index s <? zlength (history s) - 1)%Z; [|exact H].
  fields.
  destruct (js_nth (history s) (index s + 1)) as [c|]; [|exact H].
  exact (gizmo_cmd_execute c (set_index (index s + 1) s) H).
Qed.

Lemma build_click_extends hv s :
  exists c h, build_click hv s = execute c (set_graph h s)
              /\ heap_extends (graph s) h.
Proof.
  unfold build_click.
  match goal with
  | |- context [alloc ?p ?t ?lk ?im (graph s)] =>
      pose proof (alloc_extends p t lk im (graph s)) as Ha;
      destruct (alloc p t lk im (graph s)) as [voxel h1]
  end.
  pose proof (ensureUserLayer_extends h1) as Hu.
  destruct (ensureUserLayer h1) as [u h2]. cbn [snd] in *.
  eexists _, h2. split; [reflexivity|].
  apply (heap_extends_trans _ h1); assumption.
Qed.

Lemma find_opt_In {A} (p : A -> option bool) : forall l x,
  find_opt p l = Some (Some x) -> In x l /\ p x = Some true.
Proof.
  induction l as [|a l IH]; intros x H; simpl in H; [discriminate|].
  destruct (p a) as [[|]|] eqn:E; try discriminate.
  - inversion H; subst. split; [left; reflexivity|exact E].
  - destruct (IH x H) as [Hi Hp]. split; [right; exact Hi|exact Hp].
Qed.

Lemma gizmo_hover_graph s h :
  heap_extends (graph s) h ->
  forall hv vis,
    gizmo_ok s /\ selection_allocated s ->
    gizmo_ok (set_hoveredVoxel hv (set_ghostVisible vis (set_graph h s)))
    /\ selection_allocated
         (set_hoveredVoxel hv (set_ghostVisible vis (set_graph h s))).
Proof.
  intros He hv vis. apply gizmo_transfer; try reflexivity. exact He.
Qed.

(** The manipulator invariant through every listener. *)
Lemma handle_gizmo e s :
  event_ok s e = true ->
  gizmo_ok s /\ selection_allocated s ->
  gizmo_ok (handle e s) /\ selection_allocated (handle e s).
Proof.
  intros Hok H.
  assert (Hdel : forall s1 c,
             gizmo_ok s1 /\ selection_allocated s1 ->
             gizmo_ok (execute c s1) /\ selection_allocated (execute c s1))
    by (intros; apply gizmo_execute; assumption).
  destruct e as [k c sh r|hits|b now hits|b obj|obj|i| |t| | |v|c|v|t];
    cbn [handle].
  - unfold keydown. destruct r; [exact H|].
    destruct (c && match k with KeyZ => true | _ => false end).
    { destruct sh; auto using gizmo_redo, gizmo_undo. }
    assert (H1 : gizmo_ok
                   (match tool_of_key k with Some t => setTool t s | None => s end)
                 /\ selection_allocated
                      (match tool_of_key k with Some t => setTool t s | None => s end)).
    { destruct (tool_of_key k) as [t|]; [apply gizmo_setTool|]; exact H. }
    set (s1 := match tool_of_key k with Some t => setTool t s | None => s end) in *.
    destruct k; try exact H1;
      (destruct (selectedObject s1) as [o|] eqn:Es; [|exact H1];
       destruct (locked (graph s1) o); [exact H1|];
       apply Hdel; exact H1).
  - unfold mousemove.
    destruct (activeTool s); try exact H;
      (destruct (find (hover_filter (graph s)) hits) as [hit|];
       [destruct (face hit); [|exact H];
        destruct (snap _) as [[sx sy] sz];
        apply gizmo_hover_graph; [|exact H];
        apply (heap_extends_trans _ (set_position ghostCursor (vec_set sx sy sz)
                                       (graph s)));
        [apply heap_extends_same; reflexivity|apply set_material_color_extends]
       |revert H; apply gizmo_transfer; try reflexivity;
        apply heap_extends_refl]).
  - unfold mousedown. destruct (negb (Nat.eqb b 0)); [exact H|].
    set (s0 := set_lastPipetteClick now s).
    assert (H0 : gizmo_ok s0 /\ selection_allocated s0) by exact H.
    cbn [event_ok] in Hok.
    destruct (activeTool s0) eqn:Et.
    + destruct (find_opt _ hits) as [[hit|]|] eqn:Ef;
        [|apply gizmo_selectObject_none|exact H0].
      apply find_opt_In in Ef. destruct Ef as [Hin _].
      apply gizmo_selectObject_some; [|exact H0].
      rewrite forallb_forall in Hok. apply Nat.ltb_lt. exact (Hok hit Hin).
    + destruct (hoveredVoxel s0); exact H0.
    + destruct (hoveredVoxel s0); exact H0.
    + destruct (hoveredVoxel s0); exact H0.
    + destruct (hoveredVoxel s0) as [hv|]; [|exact H0].
      destruct (build_click_extends hv s0) as (c & h & -> & He).
      apply Hdel. apply gizmo_set_graph; assumption.
    + destruct (hoveredVoxel s0) as [hv|]; [|exact H0].
      unfold break_click.
      destruct (locked (graph s0) (hitObj hv)); [exact H0|].
      destruct (negb (isInstancedMesh (graph s0) (hitObj hv)));
        [apply Hdel; exact H0|].
      destruct (hitId hv); [|exact H0].
      apply gizmo_set_graph; [|exact H0].
      apply heap_extends_same; reflexivity.
    + destruct (hoveredVoxel s0) as [hv|]; [|exact H0].
      unfold pipette_click.
      destruct (kind (props (graph s0) (hitObj hv))) as [g col| |ic| | |];
        try exact H0.
      * destruct g as [w hh d|]; destruct col as [col|]; try exact H0;
          (destruct (now - lastPipetteClick s <? 300)%Z; [|exact H0];
           match goal with
           | |- context [if ?b then _ else _] => destruct b
           end; [|exact H0];
           revert H0; apply gizmo_transfer; try reflexivity;
           apply heap_extends_same; reflexivity).
      * destruct ic; exact H0.
  - cbn [event_ok] in Hok. apply Nat.ltb_lt in Hok.
    unfold row_onmousedown.
    assert (H1 : gizmo_ok (if Nat.eqb b 0 then selectObject (Some obj) s else s)
                 /\ selection_allocated
                      (if Nat.eqb b 0 then selectObject (Some obj) s else s)).
    { destruct (Nat.eqb b 0); [|exact H].
      apply gizmo_selectObject_some; assumption. }
    assert (Hn : next (graph (if Nat.eqb b 0 then selectObject (Some obj) s else s))
                 = next (graph s)).
    { destruct (Nat.eqb b 0); [|reflexivity].
      destruct (selectObject_frame (Some obj) s) as (Hg & _). rewrite Hg.
      reflexivity. }
    set (s1 := if Nat.eqb b 0 then selectObject (Some obj) s else s) in *.
    destruct (Nat.eqb b 2); [|exact H1].
    unfold showCtxMenu.
    apply (gizmo_transfer (selectObject (Some obj) s1)); try reflexivity.
    + apply heap_extends_refl.
    + apply gizmo_selectObject_some; [rewrite Hn; exact Hok|exact H1].
  - apply gizmo_lockBtn. exact H.
  - unfold ctx_item_click.
    destruct (ctxMenu s) as [items|]; [|exact H].
    destruct (nth_error items i) as [it|]; [|exact H].
    destruct (ctxEnabled it); [|exact H].
    destruct (ctxAction it); cbn [ctx_action].
    + match goal with
      | |- context [execute ?c ?st] =>
          apply (gizmo_transfer (execute c st)); try reflexivity
      end; [apply heap_extends_refl|apply Hdel; exact H].
    + pose proof (clone_obj_extends (next (graph s)) (ctxTarget it) (graph s)) as Hc.
      destruct (clone_obj _ _ _) as [cl h1]. cbn [snd] in Hc.
      match goal with
      | |- context [execute ?c ?st] =>
          apply (gizmo_transfer (execute c st)); try reflexivity
      end; [apply heap_extends_refl|].
      apply Hdel. apply gizmo_set_graph; [|exact H].
      apply (heap_extends_trans _ h1); [exact Hc|].
      apply heap_extends_same; reflexivity.
    + destruct (controlsTarget s); exact H.
  - exact H.
  - apply gizmo_setTool. exact H.
  - apply gizmo_undo. exact H.
  - apply gizmo_redo. exact H.
  - revert H. apply gizmo_transfer; try reflexivity.
    apply heap_extends_same; reflexivity.
  - exact H.
  - unfold dragging_changed. destruct (gizmoObject s) as [o|]; [|exact H].
    destruct v; [exact H|]. apply Hdel. exact H.
  - unfold gizmo_drag. destruct (gizmoObject s) as [o|]; [|exact H].
    apply gizmo_set_graph; [|exact H]. apply heap_extends_same; reflexivity.
Qed.

Lemma run_events_gizmo : forall es s,
  events_ok s es = true ->
  gizmo_ok s /\ selection_allocated s ->
  gizmo_ok (run_events es s) /\ selection_allocated (run_events es s).
Proof.
  induction es as [|e es IH]; intros s Hok H; [exact H|].
  simpl in Hok. apply andb_true_iff in Hok. destruct Hok as [He Hes].
  apply (IH (handle e s) Hes). apply handle_gizmo; assumption.
Qed.

(** X3. Whatever the user does with existing objects, the manipulator is only
    ever attached to the selected node, only while Move, Rotate or Scale is
    the active tool, and never to a locked node. *)
Theorem events_keep_gizmo_off_locked :
  forall (g : Heap) (controls : option Vector3) (es : list Event),
    events_ok (initialEditor g controls) es = true ->
    match gizmoObject (run_events es (initialEditor g controls)) with
    | Some o =>
        selectedObject (run_events es (initialEditor g controls)) = Some o
        /\ is_transform_tool
             (activeTool (run_events es (initialEditor g controls))) = true
        /\ locked (graph (run_events es (initialEditor g controls))) o = false
    | None => True
    end.
Proof.
  intros g controls es Hok.
  apply (run_events_gizmo es (initialEditor g controls) Hok).
  split; exact I.
Qed.

Lemma events_keep_gizmo_off_locked_witness :
  let es := [EvRowMouseDown 0 6; EvKeyDown KeyG false false false;
             EvLockClick 6; EvToolButton ToolRotate; EvLockClick 6;
             EvKeyDown KeyS false false false] in
  gizmoObject (run_events es (initialEditor sampleScene None)) = Some 6
  /\ locked (graph (run_events es (initialEditor sampleScene None))) 6 = false.
Proof.
  intros es.
  pose proof (events_keep_gizmo_off_locked sampleScene None es eq_refl) as H.
  change (gizmoObject (run_events es (initialEditor sampleScene None)))
    with (Some 6) in H.
  split; [reflexivity|apply H].
Defined.

(** ** The brush size *)

Lemma brushSize_selectObject o s : brushSize (selectObject o s) = brushSize s.
Proof.
  unfold selectObject. destruct o as [x|]; fields;
    [destruct (locked (graph s) x);
     [|destruct (is_transform_tool (activeTool s))]|]; reflexivity.
Qed.

Lemma brushSize_cmd_execute c s : brushSize (cmd_execute c s) = brushSize s.
Proof.
  destruct c as [P v|P v|ob ns]; unfold cmd_execute; cbv zeta; try reflexivity.
  match goal with
  | |- context [if ?b then _ else _] => destruct b
  end; [rewrite brushSize_selectObject|]; reflexivity.
Qed.

Lemma brushSize_execute c s : brushSize (execute c s) = brushSize s.
Proof.
  unfold execute.
  destruct (index (cmd_execute c s) <? zlength (history (cmd_execute c s)) - 1)%Z;
    fields; rewrite brushSize_cmd_execute; reflexivity.
Qed.

Lemma brushSize_undo s : brushSize (undo s) = brushSize s.
Proof.
  unfold undo. destruct (index s >=? 0)%Z; [|reflexivity].
  destruct (js_nth (history s) (index s)) as [c|]; [|reflexivity].
  destruct c; reflexivity.
Qed.

Lemma brushSize_redo s : brushSize (redo s) = brushSize s.
Proof.
  unfold redo. destruct (index s <? zlength (history s) - 1)%Z; [|reflexivity].
  fields. destruct (js_nth (history s) (index s + 1)) as [c|]; [|reflexivity].
  rewrite brushSize_cmd_execute. reflexivity.
Qed.

(** The brush size through every listener. *)
Lemma handle_brush e s :
  event_ok s e = true -> brush_in_range s -> brush_in_range (handle e s).
Proof.
  unfold brush_in_range. intros Hok H.
  destruct e as [k c sh r|hits|b now hits|b obj|obj|i| |t| | |v|c|v|t];
    cbn [handle].
  - unfold keydown. destruct r; [exact H|].
    destruct (c && match k with KeyZ => true | _ => false end).
    { destruct sh; rewrite ?brushSize_redo, ?brushSize_undo; exact H. }
    assert (H1 : brushSize
                   (match tool_of_key k with Some t => setTool t s | None => s end)
                 = brushSize s).
    { destruct (tool_of_key k) as [t|]; [apply setTool_fields|reflexivity]. }
    set (s1 := match tool_of_key k with Some t => setTool t s | None => s end) in *.
    destruct k; rewrite <- H1 in H; try exact H;
      (destruct (selectedObject s1) as [o|]; [|exact H];
       destruct (locked (graph s1) o); [exact H|];
       rewrite brushSize_execute; exact H).
  - unfold mousemove.
    destruct (activeTool s); try exact H;
      (destruct (find (hover_filter (graph s)) hits) as [hit|]; [|exact H];
       destruct (face hit); [|exact H];
       destruct (snap _) as [[sx sy] sz]; exact H).
  - unfold mousedown. destruct (negb (Nat.eqb b 0)); [exact H|].
    set (s0 := set_lastPipetteClick now s).
    assert (H0 : (1 <= brushSize s0 <= 5)%Z) by exact H.
    destruct (activeTool s0) eqn:Et.
    + destruct (find_opt _ hits) as [[hit|]|];
        rewrite ?brushSize_selectObject; exact H0.
    + destruct (hoveredVoxel s0); exact H0.
    + destruct (hoveredVoxel s0); exact H0.
    + destruct (hoveredVoxel s0); exact H0.
    + destruct (hoveredVoxel s0) as [hv|]; [|exact H0].
      destruct (build_click_is_execute hv s0) as (c & h & ->).
      rewrite brushSize_execute. exact H0.
    + destruct (hoveredVoxel s0) as [hv|]; [|exact H0].
      unfold break_click.
      destruct (locked (graph s0) (hitObj hv)); [exact H0|].
      destruct (negb (isInstancedMesh (graph s0) (hitObj hv)));
        [rewrite brushSize_execute; exact H0|].
      destruct (hitId hv); exact H0.
    + destruct (hoveredVoxel s0) as [hv|]; [|exact H0].
      unfold pipette_click.
      destruct (kind (props (graph s0) (hitObj hv))) as [g col| |ic| | |];
        try exact H0.
      * destruct g as [w hh d|]; destruct col as [col|]; try exact H0;
          (destruct (now - lastPipetteClick s <? 300)%Z; [|exact H0];
           match goal with
           | |- context [if ?b then _ else _] => destruct b eqn:Eb
           end; [|exact H0];
           apply andb_true_iff in Eb; destruct Eb as [E1 E2];
           apply Z.leb_le in E1; apply Z.leb_le in E2;
           unfold updateGhostGeometry; fields; split; assumption).
      * destruct ic; exact H0.
  - unfold row_onmousedown.
    assert (H1 : brushSize (if Nat.eqb b 0 then selectObject (Some obj) s else s)
                 = brushSize s).
    { destruct (Nat.eqb b 0); [apply brushSize_selectObject|reflexivity]. }
    set (s1 := if Nat.eqb b 0 then selectObject (Some obj) s else s) in *.
    destruct (Nat.eqb b 2); [|rewrite H1; exact H].
    unfold showCtxMenu. fields. rewrite brushSize_selectObject, H1. exact H.
  - unfold lockBtn_onclick.
    match goal with
    | |- context [if ?b then _ else _] => destruct b
    end; exact H.
  - unfold ctx_item_click.
    destruct (ctxMenu s) as [items|]; [|exact H].
    destruct (nth_error items i) as [it|]; [|exact H].
    destruct (ctxEnabled it); [|exact H].
    destruct (ctxAction it); cbn [ctx_action].
    + unfold window_click. fields. rewrite brushSize_execute. exact H.
    + destruct (clone_obj _ _ _) as [cl h1].
      unfold window_click. fields. rewrite brushSize_execute. exact H.
    + destruct (controlsTarget s); exact H.
  - exact H.
  - destruct (setTool_fields t s) as (_ & _ & _ & _ & _ & Hs).
    rewrite Hs. exact H.
  - rewrite brushSize_undo. exact H.
  - rewrite brushSize_redo. exact H.
  - cbn [event_ok] in Hok. apply andb_true_iff in Hok. destruct Hok as [E1 E2].
    apply Z.leb_le in E1. apply Z.leb_le in E2.
    unfold sizeSlider_oninput, updateGhostGeometry. fields. split; assumption.
  - exact H.
  - unfold dragging_changed. destruct (gizmoObject s) as [o|]; [|exact H].
    destruct v; [exact H|]. rewrite brushSize_execute. exact H.
  - unfold gizmo_drag. destruct (gizmoObject s); exact H.
Qed.

(** X4. With the size slider ranging over 1..5, the brush size is one of
    1..5 in every state the editor reaches. *)
Theorem events_keep_brush_in_range :
  forall (g : Heap) (controls : option Vector3) (es : list Event),
    events_ok (initialEditor g controls) es = true ->
    (1 <= brushSize (run_events es (initialEditor g controls)) <= 5)%Z.
Proof.
  intros g controls es.
  assert (H : forall l s,
             events_ok s l = true -> brush_in_range s ->
             brush_in_range (run_events l s)).
  { induction l as [|e l IH]; intros s Hok Hs; [exact Hs|].
    simpl in Hok. apply andb_true_iff in Hok. destruct Hok as [He Hes].
    apply (IH (handle e s) Hes). apply handle_brush; assumption. }
  intros Hok. apply (H es _ Hok).
  unfold brush_in_range, initialEditor. simpl. lia.
Qed.

Lemma events_keep_brush_in_range_witness :
  let es := [EvSizeSlider 5; EvKeyDown KeyI false false false;
             EvMouseMove [mkIntersection 5 (mkVector3 0 4 0)
                            (Some (mkVector3 0 1 0)) None];
             EvMouseDown 0 1000 []; EvMouseDown 0 1100 []] in
  (1 <= brushSize (run_events es (initialEditor sampleScene None)) <= 5)%Z.
Proof.
  intros es. apply events_keep_brush_in_range. reflexivity.
Defined.

(** ** Tool changes and the lock button *)

Lemma run_events_reach_gizmo g controls es :
  events_ok (initialEditor g controls) es = true ->
  gizmo_ok (run_events es (initialEditor g controls)).
Proof.
  intros Hok.
  apply (run_events_gizmo es (initialEditor g controls) Hok).
  split; exact I.
Qed.

(** X5. In every reachable state, choosing a tool leaves the manipulator
    attached exactly when the tool is Move, Rotate or Scale and there is a
    selected node that is not locked; it is then attached to that node. *)
Theorem setTool_attaches_iff_unlocked_selection :
  forall (g : Heap) (controls : option Vector3) (es : list Event) (t : Tool),
    events_ok (initialEditor g controls) es = true ->
    gizmoObject (setTool t (run_events es (initialEditor g controls)))
    = if is_transform_tool t then
        match selectedObject (run_events es (initialEditor g controls)) with
        | Some o =>
            if locked (graph (run_events es (initialEditor g controls))) o
            then None else Some o
        | None => None
        end
      else None.
Proof.
  intros g controls es t Hok.
  pose proof (run_events_reach_gizmo g controls es Hok) as G.
  set (s := run_events es (initialEditor g controls)) in *.
  unfold setTool. cbv zeta. fields.
  destruct (is_transform_tool t); [|reflexivity].
  destruct (selectedObject s) as [o|] eqn:Es.
  - destruct (locked (graph s) o); reflexivity.
  - fields. unfold gizmo_ok in G. rewrite Es in G.
    destruct (gizmoObject s) as [p|]; [|reflexivity].
    destruct G as (E & _). discriminate E.
Qed.

Lemma setTool_attaches_iff_unlocked_selection_witness :
  gizmoObject
    (setTool ToolMove
       (run_events [EvRowMouseDown 0 6] (initialEditor sampleScene None)))
  = Some 6.
Proof.
  rewrite (setTool_attaches_iff_unlocked_selection sampleScene None
             [EvRowMouseDown 0 6] ToolMove eq_refl).
  reflexivity.
Defined.

(** X6. Locking the selected node detaches the manipulator at once and keeps
    the selection and the highlight; choosing Move, Rotate or Scale afterwards
    leaves the manipulator detached. *)
Theorem lock_detaches_manipulator :
  forall (s : Editor) (obj : oid) (t : Tool),
    selectedObject s = Some obj ->
    locked (graph s) obj = false ->
    gizmoObject (lockBtn_onclick obj s) = None
    /\ selectedObject (lockBtn_onclick obj s) = Some obj
    /\ selectionBoxVisible (lockBtn_onclick obj s) = selectionBoxVisible s
    /\ locked (graph (lockBtn_onclick obj s)) obj = true
    /\ gizmoObject (setTool t (lockBtn_onclick obj s)) = None
    /\ selectedObject (setTool t (lockBtn_onclick obj s)) = Some obj.
Proof.
  intros s obj t Hs Hl.
  assert (E : lockBtn_onclick obj s
              = set_gizmoObject None
                  (set_graph
                     (set_locked (upd (locked (graph s)) obj true) (graph s)) s)).
  { unfold lockBtn_onclick. cbv zeta. fields. rewrite Hs, Hl.
    cbn [oid_opt_eqb negb]. rewrite Nat.eqb_refl, upd_same. reflexivity. }
  rewrite E. fields. rewrite upd_same.
  repeat split; try assumption.
  - unfold setTool. cbv zeta. fields. rewrite Hs.
    destruct (is_transform_tool t); [|reflexivity].
    fields. rewrite upd_same. reflexivity.
  - unfold setTool. cbv zeta. fields. rewrite Hs.
    destruct (is_transform_tool t); [|exact Hs].
    fields. rewrite upd_same. exact Hs.
Qed.

Lemma lock_detaches_manipulator_witness :
  let s := run_events [EvKeyDown KeyG false false false; EvRowMouseDown 0 6]
             (initialEditor sampleScene None) in
  gizmoObject s = Some 6
  /\ gizmoObject (lockBtn_onclick 6 s) = None
  /\ gizmoObject (setTool ToolRotate (lockBtn_onclick 6 s)) = None.
Proof.
  intros s.
  destruct (lock_detaches_manipulator s 6 ToolRotate eq_refl eq_refl)
    as (H1 & _ & _ & _ & H5 & _).
  split; [reflexivity|split; assumption].
Defined.

(** ** One command, executed and undone *)

Lemma undo_execute_graph c s :
  cursor_in_bounds s ->
  graph (undo (execute c s))
  = revert_heap (gizmoStart s) c (apply_heap c (graph s))
  /\ index (undo (execute c s)) = index s.
Proof.
  intros Hb.
  pose proof (execute_history c s Hb) as Hh.
  pose proof (execute_index c s Hb) as Hi.
  set (pre := firstn (Z.to_nat (index s + 1)) (history s)) in *.
  assert (Hp : zlength pre = (index s + 1)%Z).
  { unfold pre, zlength. rewrite length_firstn.
    unfold cursor_in_bounds, zlength in Hb. lia. }
  rewrite (undo_step (execute c s) pre c [] Hh) by lia.
  fields. rewrite graph_cmd_undo, execute_graph, graph_cmd_execute,
    execute_gizmoStart.
  split; [reflexivity|lia].
Qed.

(** X7. Executing an [AddVoxelCommand] for a detached node and undoing it
    gives back exactly the heap there was. *)
Theorem undo_of_add_is_exact :
  forall (s : Editor) (P v : oid),
    graph_wf (graph s) ->
    cursor_in_bounds s ->
    parent (graph s) v = None ->
    v <> P ->
    same_graph (graph (undo (execute (AddVoxelCommand P v) s))) (graph s)
    /\ index (undo (execute (AddVoxelCommand P v) s)) = index s.
Proof.
  intros s P v Hwf Hb Hp Hv.
  destruct (undo_execute_graph (AddVoxelCommand P v) s Hb) as [Hg Hi].
  split; [|exact Hi]. rewrite Hg. cbn [apply_heap revert_heap].
  pose proof (obj_add_norm (graph s) P v Hwf Hv) as [Hp1 Hc1].
  pose proof (obj_add_wf (graph s) P v Hwf) as Hwf1.
  assert (Hpv : parent (obj_add P v (graph s)) v = Some P)
    by (rewrite Hp1, Nat.eqb_refl; reflexivity).
  pose proof (obj_remove_norm (obj_add P v (graph s)) P v Hwf1 (or_introl Hpv))
    as [Hp2 Hc2].
  destruct (obj_remove_frame P v (obj_add P v (graph s))) as (F1 & F2 & F3 & F4 & F5).
  destruct (obj_add_frame P v (graph s)) as (G1 & G2 & G3 & G4 & G5).
  split; [|congruence].
  intros o. repeat split; try congruence.
  - rewrite Hp2, Hp1. destruct (Nat.eqb o v) eqn:E; [|reflexivity].
    apply Nat.eqb_eq in E. subst o. symmetry. exact Hp.
  - assert (Hl : without v (children (graph s) o) = children (graph s) o).
    { apply without_notin. intros Hin. apply Hwf in Hin. congruence. }
    assert (Ha : forall a b, without v (a ++ b) = without v a ++ without v b)
      by (intros; apply filter_app).
    rewrite Hc2, Hc1. cbn [tail_for]. rewrite app_nil_r, Hl, Ha, Hl.
    destruct (Nat.eqb o P); unfold without; simpl; rewrite ?Nat.eqb_refl; simpl;
      apply app_nil_r.
Qed.

Lemma undo_of_add_is_exact_witness :
  same_graph
    (graph (undo (execute (AddVoxelCommand 4 8) (initialEditor sampleScene None))))
    sampleScene.
Proof.
  refine (proj1 (undo_of_add_is_exact (initialEditor sampleScene None) 4 8 _ _ _ _)).
  - exact sampleScene_wf.
  - unfold cursor_in_bounds. vm_compute. split; discriminate.
  - reflexivity.
  - discriminate.
Defined.

(** X8. Executing a [RemoveVoxelCommand] on a child of [P] and undoing it
    puts the node back under [P] as the last child: the other children keep
    their order, every other list of children is as before, and the node only
    keeps its place when it was the last child already. *)
Theorem undo_of_remove_appends :
  forall (s : Editor) (P v : oid),
    graph_wf (graph s) ->
    cursor_in_bounds s ->
    parent (graph s) v = Some P ->
    v <> P ->
    parent (graph (undo (execute (RemoveVoxelCommand P v) s))) v = Some P
    /\ children (graph (undo (execute (RemoveVoxelCommand P v) s))) P
       = without v (children (graph s) P) ++ [v]
    /\ (forall Q, Q <> P ->
          children (graph (undo (execute (RemoveVoxelCommand P v) s))) Q
          = children (graph s) Q)
    /\ (forall u, u <> v ->
          parent (graph (undo (execute (RemoveVoxelCommand P v) s))) u
          = parent (graph s) u).
Proof.
  intros s P v Hwf Hb Hp Hv.
  destruct (undo_execute_graph (RemoveVoxelCommand P v) s Hb) as [Hg _].
  rewrite Hg. cbn [apply_heap revert_heap].
  pose proof (obj_remove_norm (graph s) P v Hwf (or_introl Hp)) as [Hp1 Hc1].
  pose proof (obj_remove_wf (graph s) P v Hwf) as Hwf1.
  pose proof (obj_add_norm (obj_remove P v (graph s)) P v Hwf1 Hv) as [Hp2 Hc2].
  assert (Hww : forall Q, without v (without v (children (graph s) Q))
                          = without v (children (graph s) Q)).
  { intros Q. apply without_notin. intros Hin. apply without_In in Hin.
    destruct Hin as [_ Hne]. apply Hne. reflexivity. }
  repeat split.
  - rewrite Hp2, Nat.eqb_refl. reflexivity.
  - rewrite Hc2, Hc1. cbn [tail_for]. rewrite app_nil_r, Hww, Nat.eqb_refl.
    reflexivity.
  - intros Q HQ. rewrite Hc2, Hc1. cbn [tail_for].
    apply Nat.eqb_neq in HQ. rewrite HQ, !app_nil_r, Hww.
    apply without_notin. intros Hin. apply Hwf in Hin.
    rewrite Hp in Hin. inversion Hin. subst. rewrite Nat.eqb_refl in HQ.
    discriminate.
  - intros u Hu. rewrite Hp2, Hp1. apply Nat.eqb_neq in Hu. rewrite Hu.
    reflexivity.
Qed.

Lemma undo_of_remove_appends_witness :
  children
    (graph (undo (execute (RemoveVoxelCommand scene 4)
                    (initialEditor sampleScene None)))) scene
  = [1; 2; 3; 6; 7; 4].
Proof.
  destruct (undo_of_remove_appends (initialEditor sampleScene None) scene 4)
    as (_ & H & _).
  - exact sampleScene_wf.
  - unfold cursor_in_bounds. vm_compute. split; discriminate.
  - reflexivity.
  - discriminate.
  - rewrite H. reflexivity.
Defined.

(** ** Walks through the log *)

Lemma run_heap_app a b h : run_heap (a ++ b) h = run_heap b (run_heap a h).
Proof. unfold run_heap. apply fold_left_app. Qed.

Lemma issued_heap_app : forall a b h,
  issued_heap h (a ++ b) = true ->
  issued_heap h a = true /\ issued_heap (run_heap a h) b = true.
Proof.
  induction a as [|c a IH]; intros b h H; [split; [reflexivity|exact H]|].
  simpl in H. apply andb_true_iff in H. destruct H as [Hc H].
  destruct (IH b (apply_heap c h) H) as [H1 H2].
  split; [simpl; rewrite Hc, H1; reflexivity|exact H2].
Qed.

Lemma first_move_issued : forall cs S u P v,
  issued_heap S cs = true ->
  first_move cs u = Some (RemoveVoxelCommand P v) ->
  P = parent_or_scene S u.
Proof.
  induction cs as [|c cs IH]; intros S u P v Hi Hf; [discriminate|].
  simpl in Hi, Hf. apply andb_true_iff in Hi. destruct Hi as [Hc Hi].
  destruct (oid_opt_eqb (moved c) u) eqn:E.
  - inversion Hf. subst c. simpl in E. apply Nat.eqb_eq in E. subst v.
    simpl in Hc. apply andb_true_iff in Hc. destruct Hc as [_ Hc].
    apply Nat.eqb_eq in Hc. exact Hc.
  - rewrite (IH (apply_heap c S) u P v Hi Hf).
    destruct (apply_heap_only_at c S) as [Hp _].
    unfold parent_or_scene. rewrite (Hp u E). reflexivity.
Qed.

Lemma touched_cons_minus c todo u :
  touched (c :: todo) u && negb (oid_opt_eqb (moved c) u) = true ->
  touched todo u = true.
Proof.
  unfold touched. simpl. destruct (oid_opt_eqb (moved c) u); simpl.
  - discriminate.
  - rewrite andb_true_r. trivial.
Qed.

Lemma last_transform_cons c todo o :
  last_transform (c :: todo) o = None ->
  last_transform todo o = None
  /\ transform_target c o = false.
Proof.
  simpl. destruct (last_transform todo o); [discriminate|].
  intros H. split; [reflexivity|].
  destruct c as [P v|P v|ob ns]; try reflexivity.
  simpl. destruct (Nat.eqb o ob); [discriminate|reflexivity].
Qed.

Lemma apply_heap_transform_other c h o :
  transform_target c o = false ->
  transform (apply_heap c h) o = transform h o.
Proof.
  intros H. rewrite apply_heap_transform.
  destruct c as [P v|P v|ob ns]; try reflexivity.
  simpl in H. rewrite H. reflexivity.
Qed.

Lemma revert_heap_transform_other gs c h o :
  transform_target c o = false ->
  transform (revert_heap gs c h) o = transform h o.
Proof.
  intros H. destruct c as [P v|P v|ob ns]; simpl.
  - rewrite obj_remove_transform. reflexivity.
  - rewrite obj_add_transform. reflexivity.
  - simpl in H. unfold upd. rewrite H. reflexivity.
Qed.

Lemma walk_start h0 cs :
  graph_wf h0 -> walk_inv h0 cs [] (run_heap cs h0).
Proof.
  intros Hwf. destruct (run_heap_frame cs h0) as (F1 & F2 & F3 & F4).
  unfold walk_inv.
  refine (conj _ (conj _ (conj _ (conj _ (conj F1 (conj F2 (conj F3 F4))))))).
  - apply run_heap_wf. apply Hwf.
  - split; reflexivity.
  - intros u P v H. discriminate H.
  - reflexivity.
Qed.

Lemma walk_end h0 cs W :
  walk_inv h0 cs [] W -> same_graph W (run_heap cs h0).
Proof.
  intros (_ & [Hp Hc] & _ & Ht & F1 & F2 & F3 & F4).
  destruct (run_heap_frame cs h0) as (G1 & G2 & G3 & G4).
  split; [|congruence].
  intros o. repeat split; try congruence.
  - apply Hp. reflexivity.
  - specialize (Hc o). rewrite !filter_all in Hc by reflexivity. exact Hc.
  - apply Ht. reflexivity.
Qed.

Lemma walk_redo h0 done c todo W :
  graph_wf h0 ->
  issued_heap h0 (done ++ c :: todo) = true ->
  walk_inv h0 done (c :: todo) W ->
  walk_inv h0 (done ++ [c]) todo (apply_heap c W).
Proof.
  intros Hwf0 Hi (Hwf & Ha & Hp & Ht & F1 & F2 & F3 & F4).
  destruct (issued_heap_app done (c :: todo) h0 Hi) as [_ Hi1].
  simpl in Hi1. apply andb_true_iff in Hi1. destruct Hi1 as [Hc Hi2].
  pose proof (run_heap_wf done h0 Hwf0) as HwfS.
  set (S := run_heap done h0) in *.
  assert (HS : run_heap (done ++ [c]) h0 = apply_heap c S)
    by (rewrite run_heap_app; reflexivity).
  destruct (apply_heap_frame c W) as (G1 & G2 & G3 & G4).
  unfold walk_inv. rewrite HS, G1, G2, G3, G4.
  refine (conj _ (conj _ (conj _ (conj _ (conj F1 (conj F2 (conj F3 F4))))))).
  - apply apply_heap_wf, Hwf.
  - (* parents and children outside the nodes still to be moved *)
    assert (Hstep : agree_outside
                      (fun u => touched (c :: todo) u
                                && negb (oid_opt_eqb (moved c) u))
                      (apply_heap c W) (apply_heap c S)).
    { destruct c as [P v|P v|ob ns].
      - simpl in Hc. apply negb_true_iff, Nat.eqb_neq in Hc.
        apply (agree_outside_step _ v (Some P) W S); [exact Ha| |];
          apply obj_add_norm; assumption.
      - apply (agree_outside_step _ v None W S); [exact Ha| |];
          apply obj_remove_norm; try assumption.
        + apply (Hp v P v). simpl. rewrite Nat.eqb_refl. reflexivity.
        + apply issuable_remove_parent. exact Hc.
      - apply (agree_outside_mono (touched (TransformCommand ob ns :: todo)));
          [|exact Ha].
        intros u Hu. simpl. rewrite andb_true_r. exact Hu. }
    exact (agree_outside_mono _ (touched todo) _ _
             (touched_cons_minus c todo) Hstep).
  - (* nodes whose next move is a removal *)
    intros u P v Hf.
    destruct (oid_opt_eqb (moved c) u) eqn:E.
    + destruct c as [P0 v0|P0 v0|ob ns]; simpl in E; try discriminate;
        apply Nat.eqb_eq in E; subst v0.
      * simpl in Hc. apply negb_true_iff, Nat.eqb_neq in Hc.
        left. simpl.
        rewrite (obj_add_parent_self W P0 u Hc).
        pose proof (first_move_issued todo (apply_heap (AddVoxelCommand P0 u) S)
                      u P v Hi2 Hf) as HP.
        simpl in HP. unfold parent_or_scene in HP.
        rewrite (obj_add_parent_self S P0 u Hc) in HP. congruence.
      * right. simpl.
        assert (HpW : parent W u = Some P0 \/ parent W u = None).
        { apply (Hp u P0 u). simpl. rewrite Nat.eqb_refl. reflexivity. }
        destruct (obj_remove_norm W P0 u Hwf HpW) as [Hn _].
        rewrite Hn, Nat.eqb_refl. reflexivity.
    + destruct (apply_heap_only_at c W) as [Ho _]. rewrite (Ho u E).
      apply (Hp u P v). simpl. rewrite E. exact Hf.
  - (* transforms *)
    intros o Hl. rewrite !apply_heap_transform.
    destruct c as [P v|P v|ob ns].
    + apply Ht. simpl. rewrite Hl. reflexivity.
    + apply Ht. simpl. rewrite Hl. reflexivity.
    + destruct (Nat.eqb o ob) eqn:E; [reflexivity|].
      apply Ht. simpl. rewrite Hl, E. reflexivity.
Qed.

Lemma walk_undo gs h0 done c todo W :
  graph_wf h0 ->
  issued_heap h0 (done ++ c :: todo) = true ->
  walk_inv h0 (done ++ [c]) todo W ->
  walk_inv h0 done (c :: todo) (revert_heap gs c W).
Proof.
  intros Hwf0 Hi (Hwf & Ha & Hp & Ht & F1 & F2 & F3 & F4).
  destruct (issued_heap_app done (c :: todo) h0 Hi) as [_ Hi1].
  simpl in Hi1. apply andb_true_iff in Hi1. destruct Hi1 as [Hc Hi2].
  assert (HS : run_heap (done ++ [c]) h0 = apply_heap c (run_heap done h0))
    by (rewrite run_heap_app; reflexivity).
  rewrite HS in Ha, Ht.
  set (S := run_heap done h0) in *.
  destruct (revert_heap_frame gs c W) as (G1 & G2 & G3 & G4).
  assert (Hagree : agree_outside (touched (c :: todo)) (revert_heap gs c W) S).
  { apply agree_outside_trans with (b := W).
    - apply (agree_outside_mono (fun u => oid_opt_eqb (moved c) u));
        [|apply revert_heap_only_at].
      intros u Hu. unfold touched. simpl. rewrite Hu. reflexivity.
    - apply agree_outside_trans with (b := apply_heap c S).
      + apply (agree_outside_mono (touched todo)); [|exact Ha].
        intros u Hu. unfold touched in *. simpl. rewrite Hu. apply orb_true_r.
      + apply (agree_outside_mono (fun u => oid_opt_eqb (moved c) u));
          [|apply apply_heap_only_at].
        intros u Hu. unfold touched. simpl. rewrite Hu. reflexivity. }
  unfold walk_inv. rewrite G1, G2, G3, G4.
  refine (conj _ (conj Hagree
            (conj _ (conj _ (conj F1 (conj F2 (conj F3 F4))))))).
  - apply revert_heap_wf, Hwf.
  - intros u P v Hf. simpl in Hf.
    destruct (oid_opt_eqb (moved c) u) eqn:E.
    + inversion Hf. subst c. simpl in E. apply Nat.eqb_eq in E. subst v.
      simpl in Hc. apply andb_true_iff in Hc. destruct Hc as [Hc _].
      apply negb_true_iff, Nat.eqb_neq in Hc.
      left. simpl. apply obj_add_parent_self. exact Hc.
    + destruct (revert_heap_only_at gs c W) as [Ho _]. rewrite (Ho u E).
      apply (Hp u P v Hf).
  - intros o Hl. destruct (last_transform_cons c todo o Hl) as [Hl' Hn].
    rewrite (revert_heap_transform_other gs c W o Hn).
    rewrite (Ht o Hl'). apply apply_heap_transform_other. exact Hn.
Qed.

Lemma list_last_case {A} (l : list A) : l = [] \/ exists d c, l = d ++ [c].
Proof.
  induction l as [|c d _] using rev_ind; [left; reflexivity|].
  right. exists d, c. reflexivity.
Qed.

Lemma nav_step_walk h0 cs n s :
  graph_wf h0 ->
  issued_heap h0 cs = true ->
  history s = cs ->
  (exists done todo,
      cs = done ++ todo
      /\ index s = (zlength done - 1)%Z
      /\ walk_inv h0 done todo (graph s)) ->
  history (nav_step n s) = cs
  /\ gizmoStart (nav_step n s) = gizmoStart s
  /\ exists done todo,
       cs = done ++ todo
       /\ index (nav_step n s) = (zlength done - 1)%Z
       /\ walk_inv h0 done todo (graph (nav_step n s)).
Proof.
  intros Hwf0 Hi Hh (done & todo & Hcs & Hidx & Hw).
  destruct n; cbn [nav_step].
  - (* undo *)
    destruct (list_last_case done) as [E|(d & c & E)]; subst done.
    + assert (Hu : undo s = s).
      { unfold undo. rewrite Hidx. reflexivity. }
      rewrite Hu. split; [exact Hh|]. split; [reflexivity|].
      exists [], todo. split; [exact Hcs|split; [exact Hidx|exact Hw]].
    + rewrite <- app_assoc in Hcs. simpl in Hcs.
      assert (Hstep : undo s = set_index (zlength d - 1) (cmd_undo c s)).
      { apply (undo_step s d c todo); [congruence|].
        rewrite Hidx, zlength_app, zlength_cons, zlength_nil. lia. }
      rewrite Hstep. fields.
      rewrite cmd_undo_history, cmd_undo_gizmoStart, graph_cmd_undo.
      split; [exact Hh|]. split; [reflexivity|].
      exists d, (c :: todo). split; [exact Hcs|]. split; [reflexivity|].
      apply walk_undo; try assumption. rewrite <- Hcs. exact Hi.
  - (* redo *)
    destruct todo as [|c todo].
    + assert (Hr : redo s = s).
      { apply redo_at_end. rewrite Hidx, Hh, Hcs, app_nil_r. reflexivity. }
      rewrite Hr. split; [exact Hh|]. split; [reflexivity|].
      exists done, []. split; [exact Hcs|split; [exact Hidx|exact Hw]].
    + assert (Hstep : redo s = cmd_execute c (set_index (zlength done) s)).
      { apply (redo_step s done c todo); [congruence|exact Hidx]. }
      rewrite Hstep.
      rewrite cmd_execute_history, cmd_execute_gizmoStart, cmd_execute_index,
        graph_cmd_execute.
      fields.
      split; [exact Hh|]. split; [reflexivity|].
      exists (done ++ [c]), todo. split; [|split].
      * rewrite <- app_assoc. exact Hcs.
      * rewrite zlength_app, zlength_cons, zlength_nil. lia.
      * apply walk_redo; try assumption. rewrite <- Hcs. exact Hi.
Qed.

Lemma navigate_walk h0 cs : forall navs s,
  graph_wf h0 ->
  issued_heap h0 cs = true ->
  history s = cs ->
  (exists done todo,
      cs = done ++ todo
      /\ index s = (zlength done - 1)%Z
      /\ walk_inv h0 done todo (graph s)) ->
  history (navigate navs s) = cs
  /\ exists done todo,
       cs = done ++ todo
       /\ index (navigate navs s) = (zlength done - 1)%Z
       /\ walk_inv h0 done todo (graph (navigate navs s)).
Proof.
  induction navs as [|n navs IH]; intros s Hwf0 Hi Hh Hex.
  - split; assumption.
  - destruct (nav_step_walk h0 cs n s Hwf0 Hi Hh Hex) as (H1 & _ & H3).
    apply (IH (nav_step n s) Hwf0 Hi H1 H3).
Qed.

(** X9. After a list of commands has been executed on a fresh log, any mix
    of [undo] and [redo] that brings the cursor back to the end of the log
    brings back exactly the heap that the executions produced. *)
Theorem undo_redo_walk_returns :
  forall (cs : list Command) (s : Editor) (navs : list Nav),
    graph_wf (graph s) ->
    history s = [] ->
    index s = (-1)%Z ->
    issued s cs = true ->
    index (navigate navs (execute_all cs s)) = index (execute_all cs s) ->
    same_graph (graph (navigate navs (execute_all cs s)))
      (graph (execute_all cs s))
    /\ history (navigate navs (execute_all cs s)) = history (execute_all cs s).
Proof.
  intros cs s navs Hwf Hh Hi Hq Hend.
  destruct (execute_all_graph cs s) as (Hg & _ & Hiss).
  rewrite Hiss in Hq.
  assert (He : index s = (zlength (history s) - 1)%Z)
    by (rewrite Hh, Hi; reflexivity).
  destruct (execute_all_at_end cs s He) as [HhN HiN].
  rewrite Hh in HhN. simpl in HhN.
  destruct (navigate_walk (graph s) cs navs (execute_all cs s) Hwf Hq HhN)
    as (H1 & done & todo & Hcs & Hidx & Hw).
  { exists cs, []. split; [|split].
    - rewrite app_nil_r. reflexivity.
    - rewrite HiN, Hi. lia.
    - rewrite Hg. apply walk_start. exact Hwf. }
  split; [|rewrite H1, HhN; reflexivity].
  assert (Hlen : zlength done = zlength cs)
    by (rewrite Hidx, HiN, Hi in Hend; lia).
  assert (Ht : todo = []).
  { rewrite Hcs, zlength_app in Hlen.
    destruct todo as [|c t]; [reflexivity|].
    rewrite zlength_cons in Hlen. pose proof (zlength_nonneg t). lia. }
  subst todo. rewrite app_nil_r in Hcs. subst done.
  rewrite Hg. apply walk_end. exact Hw.
Qed.

Lemma undo_redo_walk_returns_witness :
  let cs := [RemoveVoxelCommand 4 5; TransformCommand 6 sampleTransform;
             RemoveVoxelCommand scene 6; AddVoxelCommand 4 8] in
  let navs := [NavUndo; NavUndo; NavRedo; NavUndo; NavUndo; NavUndo;
               NavRedo; NavRedo; NavUndo; NavRedo; NavRedo; NavRedo] in
  same_graph
    (graph (navigate navs (execute_all cs (initialEditor sampleScene None))))
    (graph (execute_all cs (initialEditor sampleScene None))).
Proof.
  intros cs navs.
  refine (proj1 (undo_redo_walk_returns cs (initialEditor sampleScene None)
                   navs _ _ _ _ _)).
  - exact sampleScene_wf.
  - reflexivity.
  - reflexivity.
  - reflexivity.
  - reflexivity.
Defined.

(** ** Drags and their undo *)

Lemma firstn_cursor_length s :
  cursor_in_bounds s ->
  zlength (firstn (Z.to_nat (index s + 1)) (history s)) = (index s + 1)%Z.
Proof.
  intros Hb. unfold zlength. rewrite length_firstn.
  unfold cursor_in_bounds, zlength in Hb. lia.
Qed.

(** One drag of the attached object [o] to [t]: start, move, end. *)
Lemma drag_facts s o t :
  cursor_in_bounds s ->
  gizmoObject s = Some o ->
  let s' := dragging_changed false (gizmo_drag t (dragging_changed true s)) in
  history s' = firstn (Z.to_nat (index s + 1)) (history s)
               ++ [TransformCommand o t]
  /\ index s' = (index s + 1)%Z
  /\ gizmoStart s' = transform (graph s) o
  /\ (forall x, transform (graph s') x = upd (transform (graph s)) o t x)
  /\ locked (graph s') = locked (graph s)
  /\ activeTool s' = activeTool s.
Proof.
  intros Hb Hg s'. subst s'.
  assert (E1 : dragging_changed true s
               = set_gizmoStart (transform (graph s) o) s)
    by (unfold dragging_changed; rewrite Hg; reflexivity).
  rewrite E1.
  assert (E2 : gizmo_drag t (set_gizmoStart (transform (graph s) o) s)
               = set_graph (set_object_transform o t (graph s))
                   (set_gizmoStart (transform (graph s) o) s))
    by (unfold gizmo_drag; fields; rewrite Hg; reflexivity).
  rewrite E2.
  set (s2 := set_graph (set_object_transform o t (graph s))
               (set_gizmoStart (transform (graph s) o) s)).
  assert (Hb2 : cursor_in_bounds s2) by exact Hb.
  assert (E3 : dragging_changed false s2
               = execute (TransformCommand o (transform (graph s2) o)) s2)
    by (unfold dragging_changed; unfold s2 at 1; fields; rewrite Hg; reflexivity).
  rewrite E3.
  assert (Et : transform (graph s2) o = t) by (unfold s2; fields; apply upd_same).
  rewrite Et, (execute_unfold _ s2 Hb2). unfold s2. fields.
  repeat split; try reflexivity.
  intros x. cbn [cmd_execute]. fields. unfold upd.
  destruct (Nat.eqb x o); reflexivity.
Qed.

Lemma undo_transform_facts d pre o ns post :
  history d = pre ++ TransformCommand o ns :: post ->
  index d = zlength pre ->
  transform (graph (undo d)) o = gizmoStart d
  /\ gizmoStart (undo d) = gizmoStart d
  /\ history (undo d) = history d
  /\ index (undo d) = (zlength pre - 1)%Z.
Proof.
  intros Hh Hi. rewrite (undo_step d pre (TransformCommand o ns) post Hh Hi).
  cbn [cmd_undo]. fields. rewrite upd_same. repeat split; reflexivity.
Qed.

Lemma selectObject_attaches o s :
  locked (graph s) o = false ->
  is_transform_tool (activeTool s) = true ->
  gizmoObject (selectObject (Some o) s) = Some o
  /\ gizmoStart (selectObject (Some o) s) = gizmoStart s.
Proof.
  intros Hl Ht. unfold selectObject. fields. rewrite Hl, Ht.
  split; reflexivity.
Qed.

(** X10. Every [TransformCommand] shares the one [gizmoStart] snapshot:
    after a drag of [o1] and then a drag of another object [o2], undoing both
    commands gives [o1] the transform that [o2] had before its drag, not the
    transform [o1] had before its own. *)
Theorem transform_undo_restores_last_drag_start :
  forall (s : Editor) (o1 o2 : oid) (t1 t2 : TransformState),
    cursor_in_bounds s ->
    gizmoObject s = Some o1 ->
    is_transform_tool (activeTool s) = true ->
    locked (graph s) o2 = false ->
    o1 <> o2 ->
    transform
      (graph
         (undo (undo
            (dragging_changed false
               (gizmo_drag t2
                  (dragging_changed true
                     (selectObject (Some o2)
                        (dragging_changed false
                           (gizmo_drag t1 (dragging_changed true s)))))))))) o1
    = transform (graph s) o2.
Proof.
  intros s o1 o2 t1 t2 Hb Hg Ht Hl Hne.
  pose proof (drag_facts s o1 t1 Hb Hg) as HA. cbv zeta in HA.
  destruct HA as (Ah & Ai & Ag & At & Al & Aa).
  pose proof (firstn_cursor_length s Hb) as Hpre.
  pose proof Hb as Hb'. unfold cursor_in_bounds in Hb'.
  generalize dependent
    (dragging_changed false (gizmo_drag t1 (dragging_changed true s))).
  intros a Ah Ai Ag At Al Aa.
  generalize dependent (firstn (Z.to_nat (index s + 1)) (history s)).
  intros pre Hpre Ah.
  assert (Hba : cursor_in_bounds a).
  { unfold cursor_in_bounds. rewrite Ah, Ai, zlength_app, zlength_cons,
      zlength_nil. lia. }
  destruct (selectObject_frame (Some o2) a) as (Bg & Bh & Bi & _).
  destruct (selectObject_attaches o2 a) as (Bz & Bs);
    [rewrite Al; exact Hl|rewrite Aa; exact Ht|].
  generalize dependent (selectObject (Some o2) a).
  intros b Bg Bh Bi Bz Bs.
  assert (Hbb : cursor_in_bounds b).
  { unfold cursor_in_bounds. rewrite Bh, Bi. exact Hba. }
  pose proof (drag_facts b o2 t2 Hbb Bz) as HC. cbv zeta in HC.
  destruct HC as (Ch & Ci & Cg & _).
  rewrite Bh, Bi, Ah, Ai in Ch. rewrite Bi, Ai in Ci. rewrite Bg in Cg.
  generalize dependent
    (dragging_changed false (gizmo_drag t2 (dragging_changed true b))).
  intros c Ch Ci Cg.
  assert (Hfull : firstn (Z.to_nat (index s + 1 + 1))
                    (pre ++ [TransformCommand o1 t1])
                  = pre ++ [TransformCommand o1 t1]).
  { apply firstn_all2. rewrite length_app. simpl.
    unfold zlength in Hpre. lia. }
  rewrite Hfull in Ch.
  assert (Cg' : gizmoStart c = transform (graph s) o2).
  { rewrite Cg, At. apply upd_other. congruence. }
  destruct (undo_transform_facts c (pre ++ [TransformCommand o1 t1]) o2 t2 [] Ch)
    as (_ & Dg & Dh & Di).
  { rewrite Ci, zlength_app, zlength_cons, zlength_nil. lia. }
  rewrite Ch, <- app_assoc in Dh. simpl in Dh.
  rewrite zlength_app, zlength_cons, zlength_nil in Di.
  destruct (undo_transform_facts (undo c) pre o1 t1 [TransformCommand o2 t2] Dh)
    as (E & _).
  { rewrite Di. lia. }
  rewrite E, Dg. exact Cg'.
Qed.

Lemma transform_undo_restores_last_drag_start_witness :
  let s := run_events [EvKeyDown KeyG false false false; EvRowMouseDown 0 6]
             (initialEditor sampleScene None) in
  transform
    (graph
       (undo (undo
          (dragging_changed false
             (gizmo_drag defaultTransform
                (dragging_changed true
                   (selectObject (Some 7)
                      (dragging_changed false
                         (gizmo_drag sampleTransform
                            (dragging_changed true s)))))))))) 6
  = transform (graph s) 7.
Proof.
  intros s.
  apply (transform_undo_restores_last_drag_start s 6 7 sampleTransform
           defaultTransform).
  - unfold cursor_in_bounds. vm_compute. split; discriminate.
  - reflexivity.
  - reflexivity.
  - reflexivity.
  - discriminate.
Defined.

(** ** Instance matrices through the listeners *)

Lemma instances_kept_refl h : instances_kept h h.
Proof. split; [lia|reflexivity]. Qed.

Lemma instances_kept_trans a b c :
  instances_kept a b -> instances_kept b c -> instances_kept a c.
Proof.
  intros [Hn1 Hl1] [Hn2 Hl2]. split; [lia|].
  intros o Ho. rewrite Hl2 by lia. apply Hl1, Ho.
Qed.

Lemma instances_kept_same h h' :
  next h' = next h -> instanceMatrix h' = instanceMatrix h ->
  instances_kept h h'.
Proof. intros Hn Hl. split; [lia|]. intros o _. rewrite Hl. reflexivity. Qed.

Lemma obj_add_instances P v h : instances_kept h (obj_add P v h).
Proof.
  destruct (obj_add_frame P v h) as (_ & _ & _ & Hi & Hn).
  apply instances_kept_same; assumption.
Qed.

Lemma alloc_instances p t lk im h : instances_kept h (snd (alloc p t lk im h)).
Proof.
  unfold alloc, instances_kept. cbv zeta. cbn [snd next instanceMatrix].
  split; [lia|].
  intros o Ho. apply upd_other. lia.
Qed.

Lemma ensureUserLayer_instances h : instances_kept h (snd (ensureUserLayer h)).
Proof.
  unfold ensureUserLayer.
  destruct (getObjectByName (next h) h scene "UserLayer");
    [apply instances_kept_refl|].
  pose proof (alloc_instances (mkObjProps Group "UserLayer" false)
                defaultTransform false [] h) as Ha.
  destruct (alloc _ _ _ _ h) as [u h'] eqn:E. cbn [snd] in *.
  apply (instances_kept_trans _ h'); [exact Ha|apply obj_add_instances].
Qed.

Lemma fold_instances {A} (f : Heap -> A -> Heap) :
  (forall h a, instances_kept h (f h a)) ->
  forall l h, instances_kept h (fold_left f l h).
Proof.
  intros Hf. induction l as [|a l IH]; intros h; [apply instances_kept_refl|].
  simpl. apply (instances_kept_trans _ (f h a)); [apply Hf|apply IH].
Qed.

Lemma clone_obj_instances : forall fuel o h,
  instances_kept h (snd (clone_obj fuel o h)).
Proof.
  induction fuel as [|f IH]; intros o h.
  - simpl. apply (alloc_instances (props h o) (transform h o) (locked h o)
                    (instanceMatrix h o) h).
  - simpl. cbn [snd].
    apply (instances_kept_trans _ (snd (alloc (props h o) (transform h o)
                                        (locked h o) (instanceMatrix h o) h)));
      [apply alloc_instances|].
    apply fold_instances. intros h0 child.
    specialize (IH child h0).
    destruct (clone_obj f child h0) as [cc h']. cbn [snd] in IH.
    apply (instances_kept_trans _ h'); [exact IH|apply obj_add_instances].
Qed.

Lemma set_material_color_instances o c h :
  instances_kept h (set_material_color o c h).
Proof.
  apply instances_kept_same; unfold set_material_color;
    destruct (kind (props h o)); reflexivity.
Qed.

Lemma hidden_transfer h h' o id :
  instances_kept h h' -> instance_hidden h o id -> instance_hidden h' o id.
Proof.
  intros [Hn Hi] [Ho Hz]. split; [lia|]. rewrite Hi by exact Ho. exact Hz.
Qed.

Lemma execute_instances c s : instances_kept (graph s) (graph (execute c s)).
Proof.
  rewrite execute_graph, graph_cmd_execute.
  destruct (apply_heap_frame c (graph s)) as (_ & _ & Hi & Hn).
  apply instances_kept_same; assumption.
Qed.

Lemma undo_instances s : instances_kept (graph s) (graph (undo s)).
Proof.
  unfold undo. destruct (index s >=? 0)%Z; [|apply instances_kept_refl].
  destruct (js_nth (history s) (index s)) as [c|]; [|apply instances_kept_refl].
  fields. rewrite graph_cmd_undo.
  destruct (revert_heap_frame (gizmoStart s) c (graph s)) as (_ & _ & Hi & Hn).
  apply instances_kept_same; assumption.
Qed.

Lemma redo_instances s : instances_kept (graph s) (graph (redo s)).
Proof.
  unfold redo.
  destruct (index s <? zlength (history s) - 1)%Z; [|apply instances_kept_refl].
  cbv zeta.
  destruct (js_nth (history (set_index (index s + 1) s))
              (index (set_index (index s + 1) s))) as [c|];
    [|apply instances_kept_refl].
  rewrite graph_cmd_execute. fields.
  destruct (apply_heap_frame c (graph s)) as (_ & _ & Hi & Hn).
  apply instances_kept_same; assumption.
Qed.

Lemma setMatrixAt_keeps_hidden z : forall l id id',
  nth_error l id = Some z -> nth_error (setMatrixAt id' z l) id = Some z.
Proof.
  induction l as [|x l IH]; intros id id' H; [destruct id; discriminate|].
  destruct id' as [|k], id as [|j]; simpl in *; auto.
Qed.

Lemma handle_hidden e s o id :
  instance_hidden (graph s) o id -> instance_hidden (graph (handle e s)) o id.
Proof.
  intros H.
  assert (Hex : forall s1 c, instance_hidden (graph s1) o id ->
                             instance_hidden (graph (execute c s1)) o id)
    by (intros s1 c; apply hidden_transfer, execute_instances).
  assert (Hun : forall s1, instance_hidden (graph s1) o id ->
                           instance_hidden (graph (undo s1)) o id)
    by (intros s1; apply hidden_transfer, undo_instances).
  assert (Hre : forall s1, instance_hidden (graph s1) o id ->
                           instance_hidden (graph (redo s1)) o id)
    by (intros s1; apply hidden_transfer, redo_instances).
  assert (Hsel : forall x s1, graph (selectObject x s1) = graph s1)
    by (intros x s1; apply selectObject_frame).
  assert (Htool : forall t s1, graph (setTool t s1) = graph s1)
    by (intros t s1; apply setTool_fields).
  destruct e as [k c sh r|hits|b now hits|b obj|obj|i| |t| | |v|c|v|t];
    cbn [handle].
  - unfold keydown. destruct r; [exact H|].
    destruct (c && match k with KeyZ => true | _ => false end).
    { destruct sh; auto. }
    assert (H1 : instance_hidden
                   (graph (match tool_of_key k with
                           | Some t => setTool t s | None => s end)) o id).
    { destruct (tool_of_key k) as [t|]; [rewrite Htool|]; exact H. }
    set (s1 := match tool_of_key k with Some t => setTool t s | None => s end) in *.
    destruct k; try exact H1;
      (destruct (selectedObject s1) as [x|]; [|exact H1];
       destruct (locked (graph s1) x); [exact H1|];
       apply Hex; exact H1).
  - unfold mousemove.
    destruct (activeTool s); try exact H;
      (destruct (find (hover_filter (graph s)) hits) as [hit|]; [|exact H];
       destruct (face hit); [|exact H];
       destruct (snap _) as [[sx sy] sz]; fields;
       revert H; apply hidden_transfer;
       apply (instances_kept_trans _ (set_position ghostCursor
                                        (vec_set sx sy sz) (graph s)));
       [apply instances_kept_same; reflexivity
       |apply set_material_color_instances]).
  - unfold mousedown. destruct (negb (Nat.eqb b 0)); [exact H|].
    set (s0 := set_lastPipetteClick now s).
    assert (H0 : instance_hidden (graph s0) o id) by exact H.
    destruct (activeTool s0) eqn:Et.
    + destruct (find_opt _ hits) as [[hit|]|]; rewrite ?Hsel; exact H0.
    + destruct (hoveredVoxel s0); exact H0.
    + destruct (hoveredVoxel s0); exact H0.
    + destruct (hoveredVoxel s0); exact H0.
    + destruct (hoveredVoxel s0) as [hv|]; [|exact H0].
      unfold build_click.
      match goal with
      | |- context [alloc ?p ?t ?lk ?im (graph s0)] =>
          pose proof (alloc_instances p t lk im (graph s0)) as Ha;
          destruct (alloc p t lk im (graph s0)) as [voxel h1]
      end.
      pose proof (ensureUserLayer_instances h1) as Hu.
      destruct (ensureUserLayer h1) as [u h2]. cbn [snd] in *.
      apply Hex. fields.
      apply (hidden_transfer h1); [exact Hu|].
      apply (hidden_transfer (graph s0)); assumption.
    + destruct (hoveredVoxel s0) as [hv|]; [|exact H0].
      unfold break_click.
      destruct (locked (graph s0) (hitObj hv)); [exact H0|].
      destruct (negb (isInstancedMesh (graph s0) (hitObj hv)));
        [apply Hex; exact H0|].
      destruct (hitId hv) as [id'|]; [|exact H0].
      fields. destruct H0 as [Ho Hz]. split; [exact Ho|].
      fields. unfold upd.
      destruct (Nat.eqb o (hitObj hv)) eqn:E; [|exact Hz].
      apply Nat.eqb_eq in E. subst o.
      apply setMatrixAt_keeps_hidden. exact Hz.
    + destruct (hoveredVoxel s0) as [hv|]; [|exact H0].
      unfold pipette_click.
      destruct (kind (props (graph s0) (hitObj hv))) as [g col| |ic| | |];
        try exact H0.
      * destruct g as [w hh d|]; destruct col as [col|]; try exact H0;
          (destruct (now - lastPipetteClick s <? 300)%Z; [|exact H0];
           match goal with
           | |- context [if ?b then _ else _] => destruct b
           end; exact H0).
      * destruct ic; exact H0.
  - unfold row_onmousedown.
    assert (H1 : instance_hidden
                   (graph (if Nat.eqb b 0 then selectObject (Some obj) s else s))
                   o id).
    { destruct (Nat.eqb b 0); [rewrite Hsel|]; exact H. }
    set (s1 := if Nat.eqb b 0 then selectObject (Some obj) s else s) in *.
    destruct (Nat.eqb b 2); [|exact H1].
    unfold showCtxMenu. fields. rewrite Hsel. exact H1.
  - unfold lockBtn_onclick. cbv zeta.
    match goal with
    | |- context [if ?b then _ else _] => destruct b
    end; exact H.
  - unfold ctx_item_click.
    destruct (ctxMenu s) as [items|]; [|exact H].
    destruct (nth_error items i) as [it|]; [|exact H].
    unfold window_click. fields.
    destruct (ctxEnabled it); [|exact H]. fields.
    unfold ctx_action.
    destruct (ctxAction it).
    + apply Hex. exact H.
    + pose proof (clone_obj_instances (next (graph s)) (ctxTarget it) (graph s))
        as Hc.
      destruct (clone_obj (next (graph s)) (ctxTarget it) (graph s))
        as [cl h1]. cbn [snd] in Hc.
      apply Hex. fields. revert H. apply hidden_transfer.
      apply (instances_kept_trans _ h1); [exact Hc|].
      apply instances_kept_same; reflexivity.
    + destruct (controlsTarget s); exact H.
  - exact H.
  - rewrite Htool. exact H.
  - apply Hun, H.
  - apply Hre, H.
  - exact H.
  - exact H.
  - unfold dragging_changed. destruct (gizmoObject s) as [x|]; [|exact H].
    destruct v; [exact H|apply Hex, H].
  - unfold gizmo_drag. destruct (gizmoObject s) as [x|]; exact H.
Qed.

Lemma run_events_hidden o id : forall es s,
  instance_hidden (graph s) o id ->
  instance_hidden (graph (run_events es s)) o id.
Proof.
  unfold run_events. induction es as [|e es IH]; intros s H; [exact H|].
  simpl. apply IH, handle_hidden, H.
Qed.

(** X11. Break on one instance of an [InstancedMesh] is final: whatever
    listeners run afterwards (undo and redo included), the matrix of that
    instance stays the zero scale. *)
Theorem hidden_instance_never_returns :
  forall (es : list Event) (s : Editor) (hv : HoveredVoxel) (id : nat),
    hitObj hv < next (graph s) ->
    locked (graph s) (hitObj hv) = false ->
    isInstancedMesh (graph s) (hitObj hv) = true ->
    hitId hv = Some id ->
    id < List.length (instanceMatrix (graph s) (hitObj hv)) ->
    nth_error
      (instanceMatrix (graph (run_events es (break_click hv s))) (hitObj hv)) id
    = Some (makeScale 0 0 0).
Proof.
  intros es s hv id Ho Hl Hi Hid Hlen.
  apply (run_events_hidden (hitObj hv) id es). unfold break_click.
  rewrite Hl, Hi, Hid. cbn [negb]. split; fields; [exact Ho|].
  rewrite upd_same, setMatrixAt_nth_error, Nat.eqb_refl.
  apply Nat.ltb_lt in Hlen. rewrite Hlen. reflexivity.
Qed.

Lemma hidden_instance_never_returns_witness :
  let s := setTool ToolBreak (initialEditor sampleScene None) in
  let hv := mkHoveredVoxel 0 0 0 7 (Some 1) in
  let es := [EvKeyDown KeyZ true false false; EvKeyDown KeyZ true true false;
             EvToolButton ToolBuild; EvRedoButton; EvUndoButton] in
  nth_error (instanceMatrix (graph (run_events es (break_click hv s))) 7) 1
  = Some (makeScale 0 0 0).
Proof.
  intros s hv es.
  apply (hidden_instance_never_returns es s hv 1);
    [vm_compute; lia|reflexivity|reflexivity|reflexivity|vm_compute; lia].
Defined.

(** ** Lookup by name *)

Lemma getObjectByName_here nm h f o :
  name (props h o) = nm -> getObjectByName f h o nm = Some o.
Proof.
  intros H. destruct f; simpl; rewrite H, String.eqb_refl; reflexivity.
Qed.

Lemma getObjectByName_none nm h :
  no_object_named nm h -> forall f o, getObjectByName f h o nm = None.
Proof.
  intros Hn. induction f as [|f IH]; intros o; simpl;
    destruct (String.eqb_spec (name (props h o)) nm) as [E|E];
    try (exfalso; exact (Hn o E)); [reflexivity|].
  induction (children h o) as [|c l IHl]; [reflexivity|].
  rewrite IH. exact IHl.
Qed.

Lemma getObjectByName_sound nm h : forall f o r,
  getObjectByName f h o nm = Some r -> name (props h r) = nm.
Proof.
  induction f as [|f IH]; intros o r; simpl;
    destruct (String.eqb_spec (name (props h o)) nm) as [E|E];
    try (intros H; inversion H; subst r; exact E).
  induction (children h o) as [|c l IHl]; [discriminate|].
  destruct (getObjectByName f h c nm) as [r'|] eqn:Ec; [|exact IHl].
  intros H. inversion H; subst. exact (IH c r Ec).
Qed.

Lemma getObjectByName_child nm h f o u :
  In u (children h o) -> name (props h u) = nm ->
  exists r, getObjectByName (S f) h o nm = Some r.
Proof.
  intros Hin Hu. simpl.
  destruct (String.eqb (name (props h o)) nm); [eexists; reflexivity|].
  induction (children h o) as [|c l IHl]; [destruct Hin|].
  destruct (getObjectByName f h c nm) as [r'|] eqn:Ec; [eexists; reflexivity|].
  destruct Hin as [->|Hin]; [|exact (IHl Hin)].
  rewrite (getObjectByName_here nm h f u Hu) in Ec. discriminate.
Qed.

Lemma voxel_name_not_layer size : voxel_name size <> "UserLayer"%string.
Proof. unfold voxel_name. simpl. discriminate. Qed.

(** ** Build *)

Lemma ensureUserLayer_props h o :
  o < next h -> props (snd (ensureUserLayer h)) o = props h o.
Proof.
  intros Ho. unfold ensureUserLayer.
  destruct (getObjectByName (next h) h scene "UserLayer"); [reflexivity|].
  unfold alloc. cbv zeta. cbn [snd].
  destruct (obj_add_frame scene (next h)
              (mkHeap (upd (parent h) (next h) None)
                 (upd (children h) (next h) [])
                 (upd (transform h) (next h) defaultTransform)
                 (upd (locked h) (next h) false)
                 (upd (props h) (next h) (mkObjProps Group "UserLayer" false))
                 (upd (instanceMatrix h) (next h) []) (S (next h))))
    as (_ & _ & Hp & _).
  rewrite Hp. cbn [props]. apply upd_other. lia.
Qed.

Lemma ensureUserLayer_name h :
  name (props (snd (ensureUserLayer h)) (fst (ensureUserLayer h)))
  = "UserLayer"%string.
Proof.
  unfold ensureUserLayer.
  destruct (getObjectByName (next h) h scene "UserLayer") as [u|] eqn:E.
  - cbn [fst snd]. exact (getObjectByName_sound _ _ _ _ _ E).
  - unfold alloc. cbv zeta. cbn [fst snd].
    destruct (obj_add_frame scene (next h)
                (mkHeap (upd (parent h) (next h) None)
                   (upd (children h) (next h) [])
                   (upd (transform h) (next h) defaultTransform)
                   (upd (locked h) (next h) false)
                   (upd (props h) (next h) (mkObjProps Group "UserLayer" false))
                   (upd (instanceMatrix h) (next h) []) (S (next h))))
      as (_ & _ & Hp & _).
    rewrite Hp. cbn [props]. rewrite upd_same. reflexivity.
Qed.

Lemma ensureUserLayer_parent h o :
  o < next h -> parent (snd (ensureUserLayer h)) o = parent h o.
Proof.
  intros Ho. unfold ensureUserLayer.
  destruct (getObjectByName (next h) h scene "UserLayer"); [reflexivity|].
  unfold alloc. cbv zeta. cbn [snd].
  unfold obj_add.
  destruct (Nat.eqb (next h) scene) eqn:E0.
  - cbn [parent]. apply upd_other. lia.
  - unfold removeFromParent. cbn [parent]. rewrite upd_same.
    cbn [parent set_children set_parent]. rewrite !upd_other by lia.
    reflexivity.
Qed.

Lemma build_click_unfold hv s :
  build_click hv s
  = execute
      (AddVoxelCommand
         (fst (ensureUserLayer
                 (snd (alloc (voxelProps s) (voxelTransform hv) false []
                         (graph s)))))
         (next (graph s)))
      (set_graph
         (snd (ensureUserLayer
                 (snd (alloc (voxelProps s) (voxelTransform hv) false []
                         (graph s))))) s).
Proof.
  unfold build_click, voxelProps, voxelTransform, alloc. cbv zeta.
  cbn [snd].
  match goal with
  | |- context [ensureUserLayer ?h] => destruct (ensureUserLayer h)
  end.
  reflexivity.
Qed.

(** X12. Build creates a fresh, unlocked box mesh of the brush size and
    colour, named after the size and placed at the hovered cell; the mesh
    becomes the last child of an object named UserLayer, and the step is
    recorded as the newest command. *)
Theorem build_adds_voxel_to_user_layer :
  forall (hv : HoveredVoxel) (s : Editor),
    exists u : oid,
      parent (graph (build_click hv s)) (next (graph s)) = Some u
      /\ name (props (graph (build_click hv s)) u) = "UserLayer"%string
      /\ (exists l, children (graph (build_click hv s)) u
                    = l ++ [next (graph s)])
      /\ props (graph (build_click hv s)) (next (graph s)) = voxelProps s
      /\ transform (graph (build_click hv s)) (next (graph s))
         = voxelTransform hv
      /\ locked (graph (build_click hv s)) (next (graph s)) = false
      /\ (exists l, history (build_click hv s)
                    = l ++ [AddVoxelCommand u (next (graph s))]).
Proof.
  intros hv s. rewrite build_click_unfold.
  unfold alloc. cbv zeta. cbn [snd].
  set (v := next (graph s)).
  set (h1 := mkHeap _ _ _ _ _ _ _).
  assert (Hv : v < next h1) by (unfold h1; cbn [next]; lia).
  pose proof (ensureUserLayer_props h1 v Hv) as Hp.
  pose proof (ensureUserLayer_transform h1 v Hv) as Ht.
  pose proof (ensureUserLayer_parent h1 v Hv) as Hpa.
  pose proof (ensureUserLayer_name h1) as Hn.
  destruct (ensureUserLayer_extends h1) as [_ Hl]. specialize (Hl v Hv).
  destruct (ensureUserLayer h1) as [u h2]. cbn [fst snd] in *.
  assert (P1 : props h1 v = voxelProps s) by (unfold h1; cbn [props]; apply upd_same).
  assert (Hne : v <> u).
  { intros ->. rewrite Hp, P1 in Hn. exact (voxel_name_not_layer _ Hn). }
  exists u. rewrite execute_graph. cbn [cmd_execute]. fields.
  destruct (obj_add_frame u v h2) as (Ft & Fl & Fp & _).
  rewrite Ft, Fl, Fp, Hp, Ht, Hl.
  refine (conj _ (conj _ (conj _ (conj _ (conj _ (conj _ _)))))).
  - apply obj_add_parent_self. exact Hne.
  - exact Hn.
  - unfold obj_add. apply Nat.eqb_neq in Hne. rewrite Hne.
    cbn [children set_children]. rewrite upd_same. eexists. reflexivity.
  - exact P1.
  - unfold h1. cbn [transform]. apply upd_same.
  - unfold h1. cbn [locked]. apply upd_same.
  - apply execute_history_app.
Qed.

Lemma no_object_named_alloc nm p t lk im h :
  no_object_named nm h -> name p <> nm ->
  no_object_named nm (snd (alloc p t lk im h)).
Proof.
  intros Hn Hp o. unfold alloc. cbv zeta. cbn [snd props]. unfold upd.
  destruct (Nat.eqb o (next h)); [exact Hp|apply Hn].
Qed.

(** The first Build in a scene without a UserLayer: the heap it leaves. *)
Lemma first_build_graph hv s :
  no_object_named "UserLayer" (graph s) ->
  scene < next (graph s) ->
  let v := next (graph s) in
  let u := S (next (graph s)) in
  let g1 := graph (build_click hv s) in
  children g1 scene = children (graph s) scene ++ [u]
  /\ children g1 u = [v]
  /\ parent g1 v = Some u
  /\ parent g1 u = Some scene
  /\ props g1
     = upd (upd (props (graph s)) v (voxelProps s)) u
         (mkObjProps Group "UserLayer" false)
  /\ next g1 = S u
  /\ exists h2, build_click hv s
                = execute (AddVoxelCommand u v) (set_graph h2 s).
Proof.
  intros Hn Hs v u g1. subst g1. rewrite build_click_unfold.
  pose proof (no_object_named_alloc "UserLayer" (voxelProps s)
                (voxelTransform hv) false [] (graph s) Hn
                (voxel_name_not_layer _)) as Hn1.
  unfold ensureUserLayer.
  rewrite (getObjectByName_none _ _ Hn1).
  unfold alloc. cbv zeta. cbn [fst snd next].
  fold u. fold v.
  rewrite execute_graph. cbn [cmd_execute]. fields.
  assert (Evu : Nat.eqb v u = false) by (apply Nat.eqb_neq; unfold u; lia).
  assert (Euv : Nat.eqb u v = false) by (apply Nat.eqb_neq; unfold u; lia).
  assert (Esv : Nat.eqb scene v = false) by (apply Nat.eqb_neq; unfold v; lia).
  assert (Esu : Nat.eqb scene u = false) by (apply Nat.eqb_neq; unfold u; lia).
  assert (Eus : Nat.eqb u scene = false) by (apply Nat.eqb_neq; unfold u; lia).
  unfold obj_add, removeFromParent. rewrite Eus, Evu. fields.
  unfold upd. rewrite ?Nat.eqb_refl, ?Evu, ?Euv, ?Esv, ?Esu, ?Eus. fields.
  rewrite ?Nat.eqb_refl, ?Evu, ?Euv, ?Esv, ?Esu, ?Eus. fields.
  rewrite ?Nat.eqb_refl, ?Evu, ?Euv, ?Esv, ?Esu, ?Eus.
  refine (conj _ (conj _ (conj _ (conj _ (conj _ (conj _ _))))));
    try reflexivity.
  eexists. reflexivity.
Qed.

Lemma sampleScene_no_user_layer : no_object_named "UserLayer" sampleScene.
Proof.
  intros o. do 8 (destruct o as [|o]; [discriminate|]). discriminate.
Qed.

(** X13. The UserLayer group that the first Build creates is added to the
    scene outside the command history: undoing that Build detaches the voxel
    but leaves the empty group as the last child of the scene. *)
Theorem undo_of_first_build_keeps_user_layer :
  forall (hv : HoveredVoxel) (s : Editor),
    cursor_in_bounds s ->
    no_object_named "UserLayer" (graph s) ->
    scene < next (graph s) ->
    parent (graph (undo (build_click hv s))) (next (graph s)) = None
    /\ children (graph (undo (build_click hv s))) (S (next (graph s))) = []
    /\ children (graph (undo (build_click hv s))) scene
       = children (graph s) scene ++ [S (next (graph s))]
    /\ parent (graph (undo (build_click hv s))) (S (next (graph s)))
       = Some scene
    /\ props (graph (undo (build_click hv s))) (S (next (graph s)))
       = mkObjProps Group "UserLayer" false
    /\ index (undo (build_click hv s)) = index s.
Proof.
  intros hv s Hb Hn Hs.
  destruct (first_build_graph hv s Hn Hs)
    as (Cs & Cu & Pv & Pu & Pr & _ & h2 & E).
  cbv zeta in *.
  assert (G1 : graph (build_click hv s)
               = apply_heap (AddVoxelCommand (S (next (graph s))) (next (graph s)))
                   h2)
    by (rewrite E, execute_graph, graph_cmd_execute; reflexivity).
  destruct (undo_execute_graph
              (AddVoxelCommand (S (next (graph s))) (next (graph s)))
              (set_graph h2 s) Hb) as [Hg Hi].
  rewrite <- E in Hg, Hi. rewrite Hi.
  change (graph (set_graph h2 s)) with h2 in Hg.
  rewrite <- G1 in Hg. rewrite Hg. clear Hg Hi E G1.
  generalize dependent (graph (build_click hv s)). intros g1 Cs Cu Pv Pu Pr.
  cbn [revert_heap]. unfold obj_remove. rewrite Cu.
  cbn [inb existsb]. rewrite Nat.eqb_refl. cbn [orb].
  cbn [parent children props set_children set_parent splice_first].
  rewrite Nat.eqb_refl, Pr.
  assert (Esu : Nat.eqb scene (S (next (graph s))) = false)
    by (apply Nat.eqb_neq; unfold scene; lia).
  assert (Euv : Nat.eqb (S (next (graph s))) (next (graph s)) = false)
    by (apply Nat.eqb_neq; lia).
  unfold upd. rewrite ?Nat.eqb_refl, ?Esu, ?Euv.
  repeat split; try reflexivity; assumption.
Qed.

Lemma undo_of_first_build_keeps_user_layer_witness :
  let s := setTool ToolBuild (initialEditor sampleScene None) in
  let hv := mkHoveredVoxel 3 1 2 6 None in
  children (graph (undo (build_click hv s))) scene
  = children (graph s) scene ++ [S (next (graph s))]
  /\ children (graph (undo (build_click hv s))) (S (next (graph s))) = [].
Proof.
  intros s hv.
  destruct (undo_of_first_build_keeps_user_layer hv s) as (_ & Cu & Cs & _).
  - unfold cursor_in_bounds. vm_compute. split; discriminate.
  - exact sampleScene_no_user_layer.
  - vm_compute. lia.
  - split; assumption.
Defined.

(** X14. Build looks the UserLayer group up by name before creating one: two
    Builds in a scene that had no UserLayer give one group, added once to the
    scene, with the two voxels as its children in build order. *)
Theorem second_build_reuses_user_layer :
  forall (hv1 hv2 : HoveredVoxel) (s : Editor),
    no_object_named "UserLayer" (graph s) ->
    scene < next (graph s) ->
    children (graph (build_click hv2 (build_click hv1 s))) (S (next (graph s)))
    = [next (graph s); S (S (next (graph s)))]
    /\ children (graph (build_click hv2 (build_click hv1 s))) scene
       = children (graph s) scene ++ [S (next (graph s))]
    /\ next (graph (build_click hv2 (build_click hv1 s)))
       = S (S (S (next (graph s)))).
Proof.
  intros hv1 hv2 s Hn Hs.
  destruct (first_build_graph hv1 s Hn Hs)
    as (Cs & Cu & Pv & Pu & Pr & Nx & _).
  cbv zeta in *.
  rewrite (build_click_unfold hv2 (build_click hv1 s)).
  assert (Hvp : name (voxelProps (build_click hv1 s)) <> "UserLayer"%string)
    by apply voxel_name_not_layer.
  assert (Hv1 : name (voxelProps s) <> "UserLayer"%string)
    by apply voxel_name_not_layer.
  generalize dependent (voxelProps (build_click hv1 s)). intros vp Hvp.
  generalize (voxelTransform hv2). intros vt.
  generalize dependent (voxelProps s). intros vp1 Pr Hv1.
  rewrite execute_graph. cbn [cmd_execute]. fields.
  generalize dependent (graph (build_click hv1 s)). intros g1 Cs Cu Pv Pu Nx Pr.
  set (v := next (graph s)) in *.
  set (u := S v) in *.
  unfold alloc. cbv zeta. cbn [snd]. rewrite Nx.
  set (n1 := S u) in *.
  set (h1 := mkHeap _ _ _ _ _ _ _).
  assert (Enu : Nat.eqb n1 u = false) by (apply Nat.eqb_neq; unfold n1; lia).
  assert (Eun : Nat.eqb u n1 = false) by (apply Nat.eqb_neq; unfold n1; lia).
  assert (Esn : Nat.eqb scene n1 = false)
    by (apply Nat.eqb_neq; unfold n1, scene; lia).
  assert (Esu : Nat.eqb scene u = false)
    by (apply Nat.eqb_neq; unfold u, scene; lia).
  assert (Hfind : getObjectByName (next h1) h1 scene "UserLayer" = Some u).
  { unfold h1 at 1. cbn [next].
    destruct (getObjectByName_child "UserLayer" h1 n1 scene u) as [r Hr].
    - unfold h1. cbn [children]. unfold upd. rewrite Esn, Cs.
      apply in_or_app. right. left. reflexivity.
    - unfold h1. cbn [props]. unfold upd at 1. rewrite Eun, Pr, upd_same.
      reflexivity.
    - rewrite Hr. f_equal.
      pose proof (getObjectByName_sound _ _ _ _ _ Hr) as Hs'.
      unfold h1 in Hs'. cbn [props] in Hs'. rewrite Pr in Hs'.
      unfold upd in Hs'.
      destruct (Nat.eqb r n1); [contradiction|].
      destruct (Nat.eqb r u) eqn:Eru; [apply Nat.eqb_eq; exact Eru|].
      destruct (Nat.eqb r v); [contradiction|].
      exfalso. exact (Hn r Hs'). }
  unfold ensureUserLayer. rewrite Hfind. cbn [fst snd].
  unfold obj_add. rewrite Enu. unfold removeFromParent.
  assert (Pn : parent h1 n1 = None) by (unfold h1; cbn [parent]; apply upd_same).
  rewrite Pn. cbn [children next set_children set_parent].
  unfold upd at 1 2. rewrite Nat.eqb_refl, Esu.
  unfold h1. cbn [children next]. unfold upd. rewrite Eun, Esn, Cu, Cs.
  repeat split; reflexivity.
Qed.

Lemma second_build_reuses_user_layer_witness :
  let s := setTool ToolBuild (initialEditor sampleScene None) in
  let hv1 := mkHoveredVoxel 3 1 2 6 None in
  let hv2 := mkHoveredVoxel 4 1 2 6 None in
  children (graph (build_click hv2 (build_click hv1 s))) 9 = [8; 10].
Proof.
  intros s hv1 hv2.
  destruct (second_build_reuses_user_layer hv1 hv2 s) as (Cu & _).
  - exact sampleScene_no_user_layer.
  - vm_compute. lia.
  - exact Cu.
Defined.

(** ** Clone *)

Lemma objects_kept_refl h : objects_kept h h.
Proof. split; [lia|]. intros x _. repeat split; reflexivity. Qed.

Lemma objects_kept_trans a b c :
  objects_kept a b -> objects_kept b c -> objects_kept a c.
Proof.
  intros [Hn1 H1] [Hn2 H2]. split; [lia|].
  intros x Hx.
  destruct (H1 x Hx) as (A1 & A2 & A3 & A4 & A5).
  destruct (H2 x ltac:(lia)) as (B1 & B2 & B3 & B4 & B5).
  rewrite B1, B2, B3, B4, B5. repeat split; assumption.
Qed.

Lemma alloc_objects_kept p t lk im h :
  objects_kept h (snd (alloc p t lk im h)).
Proof.
  unfold alloc, objects_kept. cbv zeta.
  cbn [snd next parent children transform locked props].
  split; [lia|]. intros x Hx.
  rewrite !upd_other by lia. repeat split; reflexivity.
Qed.

(** Adding a detached object [v] under [P] changes [v.parent] and
    [P.children] only. *)
Lemma obj_add_detached P v h :
  parent h v = None -> v <> P ->
  parent (obj_add P v h) = upd (parent h) v (Some P)
  /\ children (obj_add P v h) = upd (children h) P (children h P ++ [v]).
Proof.
  intros Hp Hne. unfold obj_add, removeFromParent.
  apply Nat.eqb_neq in Hne. rewrite Hne, Hp. split; reflexivity.
Qed.

Lemma clone_obj_spec : forall fuel o h,
  fst (clone_obj fuel o h) = next h
  /\ objects_kept h (snd (clone_obj fuel o h))
  /\ copy_of h o (snd (clone_obj fuel o h)) (next h).
Proof.
  induction fuel as [|f IH]; intros o h.
  - simpl. split; [reflexivity|]. split.
    + apply (alloc_objects_kept (props h o) (transform h o) (locked h o)
               (instanceMatrix h o) h).
    + unfold copy_of. cbn [next parent transform locked props].
      rewrite !upd_same. repeat split; try reflexivity. lia.
  - simpl. cbn [fst snd]. split; [reflexivity|].
    set (h1 := mkHeap _ _ _ _ _ _ _).
    assert (K1 : objects_kept h h1)
      by apply (alloc_objects_kept (props h o) (transform h o) (locked h o)
                  (instanceMatrix h o) h).
    assert (C1 : copy_of h o h1 (next h)).
    { unfold copy_of, h1. cbn [next parent transform locked props].
      rewrite !upd_same. repeat split; try reflexivity. lia. }
    clearbody h1.
    generalize dependent h1.
    induction (children h o) as [|child l IHl]; intros h1 K1 C1;
      [split; assumption|].
    simpl. apply IHl.
    + destruct (IH child h1) as (Ef & Kc & Cc).
      destruct (clone_obj f child h1) as [cc h'].
      cbn [fst snd] in *. subst cc.
      pose proof (objects_kept_trans _ _ _ K1 Kc) as [Kn K].
      destruct Cc as (Hlt & Hp & _). destruct C1 as (Hc & _).
      destruct K1 as [Kn1 _].
      destruct (obj_add_detached (next h) (next h1) h' Hp ltac:(lia))
        as [Ep Ec].
      destruct (obj_add_frame (next h) (next h1) h') as (Ft & Fl & Fp & _ & Fn).
      split; [lia|]. intros x Hx.
      rewrite Ep, Ec, Ft, Fl, Fp.
      rewrite !upd_other by lia. apply K, Hx.
    + destruct (IH child h1) as (Ef & Kc & Cc).
      destruct (clone_obj f child h1) as [cc h'].
      cbn [fst snd] in *. subst cc.
      destruct Cc as (Hlt & Hp & _).
      destruct C1 as (Hc & Cp & Ct & Cl & Cpr).
      destruct Kc as [Kn Kc]. destruct (Kc (next h) Hc) as (A1 & _ & A3 & A4 & A5).
      destruct (obj_add_detached (next h) (next h1) h' Hp ltac:(lia))
        as [Ep Ec].
      destruct (obj_add_frame (next h) (next h1) h') as (Ft & Fl & Fp & _ & Fn).
      unfold copy_of. rewrite Ep, Ft, Fl, Fp, Fn, A3, A4, A5.
      rewrite upd_other by lia. rewrite A1.
      repeat split; try assumption. lia.
Qed.

(** X15. The Clone entry of the context menu makes a fresh copy of the
    object with the same mesh data, name and lock flag, moves the copy by 2
    along every axis, appends it to the children of the original's parent (the
    scene for a detached original) and records the step; the original keeps
    its place and transform. *)
Theorem clone_adds_shifted_copy :
  forall (obj : oid) (s : Editor),
    obj < next (graph s) ->
    parent_or_scene (graph s) obj < next (graph s) ->
    parent (graph (ctx_action CtxClone obj s)) (next (graph s))
    = Some (parent_or_scene (graph s) obj)
    /\ children (graph (ctx_action CtxClone obj s))
         (parent_or_scene (graph s) obj)
       = children (graph s) (parent_or_scene (graph s) obj) ++ [next (graph s)]
    /\ props (graph (ctx_action CtxClone obj s)) (next (graph s))
       = props (graph s) obj
    /\ locked (graph (ctx_action CtxClone obj s)) (next (graph s))
       = locked (graph s) obj
    /\ transform (graph (ctx_action CtxClone obj s)) (next (graph s))
       = mkTransformState
           (addScalar (position (transform (graph s) obj)) 2)
           (quaternion (transform (graph s) obj))
           (scale (transform (graph s) obj))
    /\ transform (graph (ctx_action CtxClone obj s)) obj
       = transform (graph s) obj
    /\ parent (graph (ctx_action CtxClone obj s)) obj = parent (graph s) obj
    /\ (exists l, history (ctx_action CtxClone obj s)
                  = l ++ [AddVoxelCommand (parent_or_scene (graph s) obj)
                            (next (graph s))]).
Proof.
  intros obj s Ho HP. unfold ctx_action.
  destruct (clone_obj_spec (next (graph s)) obj (graph s)) as (Ef & K & C).
  destruct (clone_obj (next (graph s)) obj (graph s)) as [c h1].
  cbn [fst snd] in *. subst c. cbv zeta.
  destruct K as [Kn K].
  destruct (K obj Ho) as (Op & _ & Ot & _ & _).
  destruct (K _ HP) as (_ & Pc & _ & _ & _).
  destruct C as (Hc & Cp & Ct & Cl & Cpr).
  assert (EP : parent_or_scene
                 (graph (set_graph
                    (set_object_transform (next (graph s))
                       (mkTransformState
                          (addScalar (position (transform h1 (next (graph s)))) 2)
                          (quaternion (transform h1 (next (graph s))))
                          (scale (transform h1 (next (graph s))))) h1) s)) obj
               = parent_or_scene (graph s) obj).
  { unfold parent_or_scene. fields. rewrite Op. reflexivity. }
  rewrite EP. clear EP.
  set (P := parent_or_scene (graph s) obj) in *.
  rewrite execute_graph. cbn [cmd_execute]. fields.
  match goal with
  | |- context [obj_add P (next (graph s)) ?h] => set (h2 := h)
  end.
  assert (Hp2 : parent h2 (next (graph s)) = None) by exact Cp.
  destruct (obj_add_detached P (next (graph s)) h2 Hp2 ltac:(lia)) as [Ep Ec].
  destruct (obj_add_frame P (next (graph s)) h2) as (Ft & Fl & Fp & _).
  rewrite Ep, Ec, Ft, Fl, Fp. unfold h2. fields.
  rewrite !upd_same, Ct, Cl, Cpr, Pc.
  rewrite !upd_other by lia. rewrite Ot, Op.
  refine (conj _ (conj _ (conj _ (conj _ (conj _ (conj _ (conj _ _)))))));
    try reflexivity.
  apply execute_history_app.
Qed.

Lemma clone_adds_shifted_copy_witness :
  let s := initialEditor sampleScene None in
  children (graph (ctx_action CtxClone 5 s)) 4 = [5; 8]
  /\ position (transform (graph (ctx_action CtxClone 5 s)) 8)
     = addScalar (position (transform sampleScene 5)) 2.
Proof.
  intros s.
  destruct (clone_adds_shifted_copy 5 s) as (_ & Hc & _ & _ & Ht & _).
  - vm_compute. lia.
  - vm_compute. lia.
  - split; [exact Hc|exact (f_equal position Ht)].
Defined.

(** ** Locked objects under direct edits *)

Lemma obj_remove_parent_other P v h o :
  v <> o -> parent (obj_remove P v h) o = parent h o.
Proof.
  intros Hne. unfold obj_remove. destruct (inb v (children h P)); [|reflexivity].
  cbn [parent set_children set_parent]. apply upd_other. congruence.
Qed.

Lemma obj_add_parent_other P v h o :
  v <> o -> parent (obj_add P v h) o = parent h o.
Proof.
  intros Hne. unfold obj_add. destruct (Nat.eqb v P); [reflexivity|].
  cbn [parent set_children set_parent]. rewrite upd_other by congruence.
  unfold removeFromParent. destruct (parent h v) as [Q|]; [|reflexivity].
  apply obj_remove_parent_other, Hne.
Qed.

Lemma remove_keeps_node P v s o :
  v <> o ->
  node_kept o (graph s) (graph (execute (RemoveVoxelCommand P v) s)).
Proof.
  intros Hne. rewrite execute_graph, graph_cmd_execute. cbn [apply_heap].
  split; [apply obj_remove_parent_other, Hne|].
  destruct (obj_remove_frame P v (graph s)) as (Ht & _). rewrite Ht. reflexivity.
Qed.

Lemma build_keeps_node hv s o :
  o < next (graph s) -> node_kept o (graph s) (graph (build_click hv s)).
Proof.
  intros Ho. rewrite build_click_unfold.
  rewrite execute_graph, graph_cmd_execute. cbn [apply_heap]. fields.
  set (h1 := snd (alloc (voxelProps s) (voxelTransform hv) false [] (graph s))).
  assert (H1 : o < next h1) by (unfold h1, alloc; cbn [snd next]; lia).
  split.
  - rewrite obj_add_parent_other by lia.
    rewrite (ensureUserLayer_parent h1 o H1).
    unfold h1, alloc. cbn [snd parent]. apply upd_other. lia.
  - rewrite obj_add_transform, (ensureUserLayer_transform h1 o H1).
    unfold h1, alloc. cbn [snd transform]. apply upd_other. lia.
Qed.

Lemma node_kept_refl o h : node_kept o h h.
Proof. split; reflexivity. Qed.

(** X16. What the lock flag protects: in a state where the manipulator is
    not on a locked object (which every run of the listeners keeps), no
    listener other than history navigation and the context-menu entries
    changes the parent or the transform of a locked object. *)
Theorem locked_object_protected :
  forall (e : Event) (s : Editor) (o : oid),
    direct_edit e = true ->
    gizmo_ok s ->
    o < next (graph s) ->
    o <> ghostCursor ->
    locked (graph s) o = true ->
    parent (graph (handle e s)) o = parent (graph s) o
    /\ transform (graph (handle e s)) o = transform (graph s) o.
Proof.
  intros e s o He Hg Ho Hgh Hl.
  change (node_kept o (graph s) (graph (handle e s))).
  assert (Hsel : forall x s1, graph (selectObject x s1) = graph s1)
    by (intros x s1; apply selectObject_frame).
  assert (Htool : forall t s1, graph (setTool t s1) = graph s1)
    by (intros t s1; apply setTool_fields).
  assert (Hrm : forall s1 x,
             graph s1 = graph s -> locked (graph s1) x = false ->
             node_kept o (graph s)
               (graph (execute
                         (RemoveVoxelCommand (parent_or_scene (graph s1) x) x)
                         s1))).
  { intros s1 x E Hx. rewrite <- E at 1. apply remove_keeps_node.
    intros ->. rewrite E, Hl in Hx. discriminate. }
  destruct e as [k c sh r|hits|b now hits|b obj|obj|i| |t| | |v|c|v|t];
    cbn [handle]; cbn [direct_edit] in He; try discriminate He.
  - unfold keydown. destruct r; [apply node_kept_refl|].
    apply negb_true_iff in He. rewrite He.
    assert (E1 : graph (match tool_of_key k with
                        | Some t => setTool t s | None => s end) = graph s).
    { destruct (tool_of_key k) as [t|]; [apply Htool|reflexivity]. }
    set (s1 := match tool_of_key k with Some t => setTool t s | None => s end)
      in *.
    assert (K1 : node_kept o (graph s) (graph s1))
      by (rewrite E1; apply node_kept_refl).
    destruct k; try exact K1;
      (destruct (selectedObject s1) as [x|]; [|exact K1];
       destruct (locked (graph s1) x) eqn:Lx; [exact K1|];
       apply Hrm; assumption).
  - unfold mousemove.
    destruct (activeTool s); try apply node_kept_refl;
      (destruct (find (hover_filter (graph s)) hits) as [hit|];
       [|apply node_kept_refl];
       destruct (face hit); [|apply node_kept_refl];
       destruct (snap _) as [[sx sy] sz]; fields;
       unfold node_kept, set_material_color, set_position;
       match goal with
       | |- context [match ?k with Mesh _ _ => _ | _ => _ end] => destruct k
       end; fields; rewrite upd_other by exact Hgh; split; reflexivity).
  - unfold mousedown. destruct (negb (Nat.eqb b 0)); [apply node_kept_refl|].
    set (s0 := set_lastPipetteClick now s).
    assert (E0 : graph s0 = graph s) by reflexivity.
    destruct (activeTool s0) eqn:Et.
    + destruct (find_opt _ hits) as [[hit|]|]; rewrite ?Hsel;
        apply node_kept_refl.
    + destruct (hoveredVoxel s0); apply node_kept_refl.
    + destruct (hoveredVoxel s0); apply node_kept_refl.
    + destruct (hoveredVoxel s0); apply node_kept_refl.
    + destruct (hoveredVoxel s0) as [hv|]; [|apply node_kept_refl].
      rewrite <- E0 at 1. apply build_keeps_node. exact Ho.
    + destruct (hoveredVoxel s0) as [hv|]; [|apply node_kept_refl].
      unfold break_click.
      destruct (locked (graph s0) (hitObj hv)) eqn:Lx; [apply node_kept_refl|].
      destruct (negb (isInstancedMesh (graph s0) (hitObj hv)));
        [apply Hrm; assumption|].
      destruct (hitId hv); [|apply node_kept_refl].
      split; reflexivity.
    + destruct (hoveredVoxel s0) as [hv|]; [|apply node_kept_refl].
      unfold pipette_click.
      destruct (kind (props (graph s0) (hitObj hv))) as [g col| |ic| | |];
        try apply node_kept_refl.
      * destruct g as [w hh d|]; destruct col as [col|];
          try apply node_kept_refl;
          (destruct (now - lastPipetteClick s <? 300)%Z;
           [|apply node_kept_refl];
           match goal with
           | |- context [if ?b then _ else _] => destruct b
           end; split; reflexivity).
      * destruct ic; apply node_kept_refl.
  - unfold row_onmousedown.
    assert (E1 : graph (if Nat.eqb b 0 then selectObject (Some obj) s else s)
                 = graph s).
    { destruct (Nat.eqb b 0); [apply Hsel|reflexivity]. }
    set (s1 := if Nat.eqb b 0 then selectObject (Some obj) s else s) in *.
    destruct (Nat.eqb b 2); [|rewrite E1; apply node_kept_refl].
    unfold showCtxMenu. fields. rewrite Hsel, E1. apply node_kept_refl.
  - unfold lockBtn_onclick. cbv zeta.
    match goal with
    | |- context [if ?b then _ else _] => destruct b
    end; split; reflexivity.
  - apply node_kept_refl.
  - rewrite Htool. apply node_kept_refl.
  - split; reflexivity.
  - apply node_kept_refl.
  - unfold dragging_changed. destruct (gizmoObject s) as [x|];
      [|apply node_kept_refl].
    destruct v; [apply node_kept_refl|].
    rewrite execute_graph, graph_cmd_execute. cbn [apply_heap].
    split; [reflexivity|]. unfold set_object_transform. fields. unfold upd.
    destruct (Nat.eqb o x) eqn:E; [|reflexivity].
    apply Nat.eqb_eq in E. subst x. reflexivity.
  - unfold gizmo_drag. unfold gizmo_ok in Hg.
    destruct (gizmoObject s) as [x|]; [|apply node_kept_refl].
    destruct Hg as (_ & _ & Lx).
    split; [reflexivity|]. unfold set_object_transform. fields.
    apply upd_other. intros ->. rewrite Hl in Lx. discriminate.
Qed.

Lemma locked_object_protected_witness :
  let s := lockBtn_onclick 6
             (setTool ToolBreak (initialEditor sampleScene None)) in
  let s1 := set_hoveredVoxel (Some (mkHoveredVoxel 0 0 0 6 None)) s in
  parent (graph (handle (EvMouseDown 0 1000%Z []) s1)) 6 = Some scene.
Proof.
  intros s s1.
  destruct (locked_object_protected (EvMouseDown 0 1000%Z []) s1 6) as [Hp _].
  - reflexivity.
  - exact I.
  - vm_compute. lia.
  - discriminate.
  - reflexivity.
  - rewrite Hp. reflexivity.
Defined.

(** ** What the history does not record *)

(** X17. Selection, locking, tool changes, brush colour and size, the
    pipette, pointer movement and the drag itself are not recorded: these
    listeners leave the history list and its cursor as they are, so undo never
    reverts them. *)
Theorem settings_and_selection_not_recorded :
  forall (e : Event) (s : Editor),
    unrecorded s e = true ->
    history (handle e s) = history s /\ index (handle e s) = index s.
Proof.
  intros e s He.
  assert (Hsel : forall x s1, history (selectObject x s1) = history s1
                              /\ index (selectObject x s1) = index s1).
  { intros x s1. destruct (selectObject_frame x s1) as (_ & H1 & H2 & _).
    split; assumption. }
  assert (Htool : forall t s1, history (setTool t s1) = history s1
                               /\ index (setTool t s1) = index s1).
  { intros t s1. destruct (setTool_fields t s1) as (H1 & H2 & _).
    split; assumption. }
  destruct e as [k c sh r|hits|b now hits|b obj|obj|i| |t| | |v|c|v|t];
    cbn [handle]; cbn [unrecorded] in He; try discriminate He.
  - unfold keydown. destruct r; [split; reflexivity|]. cbn [orb] in He.
    destruct k; cbn [tool_of_key]; try discriminate He;
      try (rewrite andb_false_r; apply Htool).
    + apply negb_true_iff in He. subst c. cbn [andb]. split; reflexivity.
    + rewrite andb_false_r. split; reflexivity.
  - unfold mousemove.
    destruct (activeTool s); try (split; reflexivity);
      (destruct (find (hover_filter (graph s)) hits) as [hit|];
       [|split; reflexivity];
       destruct (face hit); [|split; reflexivity];
       destruct (snap _) as [[sx sy] sz]; split; reflexivity).
  - unfold mousedown. destruct (negb (Nat.eqb b 0)); [split; reflexivity|].
    cbn [orb] in He.
    change (activeTool (set_lastPipetteClick now s)) with (activeTool s).
    set (s0 := set_lastPipetteClick now s).
    change (history s) with (history s0). change (index s) with (index s0).
    destruct (activeTool s) eqn:Et; try discriminate He.
    + destruct (find_opt _ hits) as [[hit|]|];
        [apply Hsel|apply Hsel|split; reflexivity].
    + destruct (hoveredVoxel s0); split; reflexivity.
    + destruct (hoveredVoxel s0); split; reflexivity.
    + destruct (hoveredVoxel s0); split; reflexivity.
    + destruct (hoveredVoxel s0) as [hv|]; [|split; reflexivity].
      unfold pipette_click.
      destruct (kind (props (graph s0) (hitObj hv))) as [g col| |ic| | |];
        try (split; reflexivity).
      * destruct g as [w hh d|]; destruct col as [col|];
          try (split; reflexivity);
          (destruct (now - lastPipetteClick s <? 300)%Z;
           [|split; reflexivity];
           match goal with
           | |- context [if ?b then _ else _] => destruct b
           end; split; reflexivity).
      * destruct ic; split; reflexivity.
  - unfold row_onmousedown.
    assert (H1 : history (if Nat.eqb b 0 then selectObject (Some obj) s else s)
                 = history s
                 /\ index (if Nat.eqb b 0 then selectObject (Some obj) s else s)
                    = index s).
    { destruct (Nat.eqb b 0); [apply Hsel|split; reflexivity]. }
    set (s1 := if Nat.eqb b 0 then selectObject (Some obj) s else s) in *.
    destruct (Nat.eqb b 2); [|exact H1].
    unfold showCtxMenu. fields.
    destruct (Hsel (Some obj) s1) as [A B]. destruct H1 as [C D].
    rewrite A, B, C, D. split; reflexivity.
  - unfold lockBtn_onclick. cbv zeta.
    match goal with
    | |- context [if ?b then _ else _] => destruct b
    end; split; reflexivity.
  - split; reflexivity.
  - apply Htool.
  - split; reflexivity.
  - split; reflexivity.
  - subst v. unfold dragging_changed.
    destruct (gizmoObject s); split; reflexivity.
  - unfold gizmo_drag. destruct (gizmoObject s); split; reflexivity.
Qed.

Lemma settings_and_selection_not_recorded_witness :
  let s := initialEditor sampleScene None in
  history (handle (EvLockClick 6) s) = history s
  /\ index (handle (EvLockClick 6) s) = index s.
Proof.
  intros s. apply (settings_and_selection_not_recorded (EvLockClick 6) s).
  reflexivity.
Defined.

(** ** The Select click *)

Lemma locked_in_chain_clear h : forall fuel o l,
  locked_in_chain fuel h (Some o) = Some false ->
  chain_to_root h o l ->
  forall a, In a l -> locked h a = false.
Proof.
  induction fuel as [|f IH]; intros o l Hl Hc a Ha; [discriminate Hl|].
  simpl in Hl.
  inversion Hc as [E|o' Hns Hp E1 E2|o' p l' Hns Hp Hc' E1 E2]; subst.
  - destruct Ha.
  - apply Nat.eqb_neq in Hns. rewrite Hns in Hl.
    destruct (locked h o) eqn:Lo; [discriminate Hl|].
    destruct Ha as [<-|[]]. exact Lo.
  - apply Nat.eqb_neq in Hns. rewrite Hns in Hl.
    destruct (locked h o) eqn:Lo; [discriminate Hl|].
    rewrite Hp in Hl.
    destruct Ha as [<-|Ha]; [exact Lo|].
    exact (IH p l' Hl Hc' a Ha).
Qed.

(** X18. A Select click that selects something selects an object under the
    pointer that is neither the manipulator, the highlight box nor a
    manipulator plane, and neither that object nor any of its ancestors below
    the scene is locked. *)
Theorem select_click_picks_unlocked :
  forall (now : Z) (hits : list Intersection) (s : Editor) (o : oid)
         (l : list oid),
    activeTool s = ToolSelect ->
    selectedObject s = None ->
    selectedObject (mousedown 0 now hits s) = Some o ->
    chain_to_root (graph s) o l ->
    In o (map iobject hits)
    /\ o <> controlGizmo
    /\ o <> selectionBox
    /\ isTransformControlsPlane (props (graph s) o) = false
    /\ (forall a, In a l -> locked (graph s) a = false).
Proof.
  intros now hits s o l Ht Hs Hsel Hc.
  unfold mousedown in Hsel. cbn [Nat.eqb negb] in Hsel.
  change (activeTool (set_lastPipetteClick now s)) with (activeTool s) in Hsel.
  rewrite Ht in Hsel.
  change (graph (set_lastPipetteClick now s)) with (graph s) in Hsel.
  destruct (find_opt _ hits) as [[hit|]|] eqn:Ef.
  - apply find_opt_In in Ef. destruct Ef as [Hin Hp].
    assert (E : iobject hit = o).
    { unfold selectObject in Hsel. fields.
      destruct (locked (graph s) (iobject hit));
        [|destruct (is_transform_tool (activeTool s))];
        fields; congruence. }
    subst o. split; [apply in_map; exact Hin|].
    unfold select_filter in Hp.
    destruct (Nat.eqb (iobject hit) controlGizmo) eqn:E1;
      [discriminate Hp|].
    destruct (Nat.eqb (iobject hit) selectionBox) eqn:E2;
      [discriminate Hp|].
    destruct (isTransformControlsPlane (props (graph s) (iobject hit))) eqn:E3;
      [discriminate Hp|].
    cbn [orb] in Hp.
    apply Nat.eqb_neq in E1. apply Nat.eqb_neq in E2.
    repeat split; try assumption.
    destruct (locked_in_chain (S (next (graph s))) (graph s)
                (Some (iobject hit))) as [[|]|] eqn:El;
      try discriminate Hp.
    exact (locked_in_chain_clear _ _ _ _ El Hc).
  - unfold selectObject in Hsel. fields. discriminate Hsel.
  - cbn in Hsel. congruence.
Qed.

Lemma select_click_picks_unlocked_witness :
  let s := initialEditor sampleScene None in
  let hits := [mkIntersection 6 (mkVector3 0 0 0) None None] in
  In 6 (map iobject hits) /\ locked (graph s) 6 = false.
Proof.
  intros s hits.
  destruct (select_click_picks_unlocked 0%Z hits s 6 [6])
    as (Hin & _ & _ & _ & Hl).
  - reflexivity.
  - reflexivity.
  - reflexivity.
  - apply (chain_step _ 6 scene []);
      [discriminate|reflexivity|apply chain_scene].
  - split; [exact Hin|]. apply Hl. left. reflexivity.
Defined.

(** ** A repeated Break click *)

(** X19. [hoveredVoxel] is refreshed by pointer movement only, so a second
    Break click without a move targets the mesh that the first click
    removed: it records a second [RemoveVoxelCommand], now with the scene as
    parent, and undoing that command attaches the mesh to the scene instead
    of its former parent. *)
Theorem repeated_break_click_reparents_on_undo :
  forall (hv : HoveredVoxel) (s : Editor) (P : oid),
    cursor_in_bounds s ->
    locked (graph s) (hitObj hv) = false ->
    isInstancedMesh (graph s) (hitObj hv) = false ->
    parent (graph s) (hitObj hv) = Some P ->
    In (hitObj hv) (children (graph s) P) ->
    hitObj hv <> scene ->
    history (break_click hv (break_click hv s))
    = firstn (Z.to_nat (index s + 1)) (history s)
      ++ [RemoveVoxelCommand P (hitObj hv);
          RemoveVoxelCommand scene (hitObj hv)]
    /\ parent (graph (undo (break_click hv (break_click hv s)))) (hitObj hv)
       = Some scene.
Proof.
  intros hv s P Hb Hl Hi Hp Hin Hns.
  set (t := hitObj hv) in *.
  assert (E1 : break_click hv s = execute (RemoveVoxelCommand P t) s).
  { unfold break_click. fold t. rewrite Hl, Hi. cbn [negb].
    unfold parent_or_scene. rewrite Hp. reflexivity. }
  pose proof (execute_in_bounds (RemoveVoxelCommand P t) s Hb) as Hb1.
  pose proof (execute_history (RemoveVoxelCommand P t) s Hb) as Hh1.
  pose proof (execute_index (RemoveVoxelCommand P t) s Hb) as Hi1.
  assert (G1 : graph (execute (RemoveVoxelCommand P t) s)
               = obj_remove P t (graph s))
    by (rewrite execute_graph, graph_cmd_execute; reflexivity).
  rewrite <- E1 in Hb1, Hh1, Hi1, G1.
  generalize dependent (break_click hv s). intros s1 _ Hb1 Hh1 Hi1 G1.
  assert (Hin' : inb t (children (graph s) P) = true)
    by (apply inb_In; exact Hin).
  assert (P1 : parent (graph s1) t = None).
  { rewrite G1. unfold obj_remove. rewrite Hin'.
    cbn [parent set_children set_parent]. apply upd_same. }
  destruct (obj_remove_frame P t (graph s)) as (_ & Fl & Fp & _).
  assert (E2 : break_click hv s1 = execute (RemoveVoxelCommand scene t) s1).
  { unfold break_click, isInstancedMesh. fold t. rewrite G1, Fl, Fp.
    unfold isInstancedMesh in Hi. rewrite Hl, Hi. cbn [negb].
    unfold parent_or_scene. rewrite <- G1, P1. reflexivity. }
  rewrite E2. split.
  - rewrite (execute_history _ _ Hb1), Hh1, Hi1.
    pose proof (firstn_cursor_length s Hb) as Hpre.
    unfold cursor_in_bounds in Hb.
    rewrite firstn_all2.
    + rewrite <- app_assoc. reflexivity.
    + rewrite length_app. simpl. unfold zlength in Hpre. lia.
  - destruct (undo_execute_graph (RemoveVoxelCommand scene t) s1 Hb1) as [Hg _].
    rewrite Hg. cbn [revert_heap]. apply obj_add_parent_self. exact Hns.
Qed.

Lemma repeated_break_click_reparents_on_undo_witness :
  let s := setTool ToolBreak (initialEditor sampleScene None) in
  let hv := mkHoveredVoxel 0 0 0 5 None in
  parent (graph s) 5 = Some 4
  /\ parent (graph (undo (break_click hv (break_click hv s)))) 5 = Some scene.
Proof.
  intros s hv. split; [reflexivity|].
  apply (repeated_break_click_reparents_on_undo hv s 4).
  - unfold cursor_in_bounds. vm_compute. split; discriminate.
  - reflexivity.
  - reflexivity.
  - reflexivity.
  - left. reflexivity.
  - discriminate.
Defined.

(** ** Consistency of the scene graph through the listeners *)

Lemma shape_same_inv h h' :
  parent h' = parent h -> children h' = children h -> next h' = next h ->
  graph_wf h /\ graph_closed h -> graph_wf h' /\ graph_closed h'.
Proof.
  unfold graph_wf, graph_closed. intros Hp Hc Hn. rewrite Hp, Hc, Hn.
  exact (fun H => H).
Qed.

Lemma alloc_inv p t lk im h :
  graph_wf h /\ graph_closed h ->
  graph_wf (snd (alloc p t lk im h)) /\ graph_closed (snd (alloc p t lk im h)).
Proof.
  intros [[He Hd] [Hs Hc]]. unfold alloc. cbv zeta. cbn [snd].
  assert (Hno : forall P, ~ In (next h) (children h P)).
  { intros P Hin. apply He in Hin. apply Hc in Hin. lia. }
  refine (conj (conj _ _) (conj _ _)); cbn [parent children next].
  - intros v P. unfold upd.
    destruct (Nat.eqb v (next h)) eqn:Ev.
    + apply Nat.eqb_eq in Ev. subst v. split; [discriminate|].
      destruct (Nat.eqb P (next h)); [intros []|].
      intros Hin. exfalso. exact (Hno P Hin).
    + destruct (Nat.eqb P (next h)) eqn:EP; [|apply He].
      apply Nat.eqb_eq in EP. subst P. split; [|intros []].
      intros Hp. apply Hc in Hp. lia.
  - intros P. unfold upd. destruct (Nat.eqb P (next h)); [constructor|apply Hd].
  - lia.
  - intros v P. unfold upd. destruct (Nat.eqb v (next h)); [discriminate|].
    intros Hp. apply Hc in Hp. lia.
Qed.

Lemma obj_remove_parent_cases P v h x Q :
  parent (obj_remove P v h) x = Some Q -> parent h x = Some Q.
Proof.
  unfold obj_remove. destruct (inb v (children h P)); [|exact (fun H => H)].
  cbn [parent set_children set_parent]. unfold upd.
  destruct (Nat.eqb x v); [discriminate|exact (fun H => H)].
Qed.

Lemma obj_remove_inv P v h :
  graph_wf h /\ graph_closed h ->
  graph_wf (obj_remove P v h) /\ graph_closed (obj_remove P v h).
Proof.
  intros [Hw [Hs Hc]]. split; [apply obj_remove_wf, Hw|].
  destruct (obj_remove_frame P v h) as (_ & _ & _ & _ & Hn).
  split; rewrite Hn; [exact Hs|].
  intros x Q Hp. apply obj_remove_parent_cases in Hp. exact (Hc x Q Hp).
Qed.

Lemma obj_add_parent_cases P v h x Q :
  parent (obj_add P v h) x = Some Q ->
  (x = v /\ Q = P) \/ parent h x = Some Q.
Proof.
  unfold obj_add. destruct (Nat.eqb v P); [right; assumption|].
  cbn [parent set_children set_parent]. unfold upd.
  destruct (Nat.eqb x v) eqn:E.
  - apply Nat.eqb_eq in E. intros H. inversion H. left. split; congruence.
  - unfold removeFromParent. destruct (parent h v) as [R|]; [|right; assumption].
    intros H. right. exact (obj_remove_parent_cases _ _ _ _ _ H).
Qed.

Lemma obj_add_inv P v h :
  P < next h -> v < next h ->
  graph_wf h /\ graph_closed h ->
  graph_wf (obj_add P v h) /\ graph_closed (obj_add P v h).
Proof.
  intros HP Hv [Hw [Hs Hc]]. split; [apply obj_add_wf, Hw|].
  destruct (obj_add_frame P v h) as (_ & _ & _ & _ & Hn).
  split; rewrite Hn; [exact Hs|].
  intros x Q Hp. apply obj_add_parent_cases in Hp.
  destruct Hp as [[-> ->]|Hp]; [split; assumption|exact (Hc x Q Hp)].
Qed.

Lemma apply_heap_inv c h :
  cmd_allocated h c ->
  graph_wf h /\ graph_closed h ->
  graph_wf (apply_heap c h) /\ graph_closed (apply_heap c h).
Proof.
  destruct c as [P v|P v|o ns]; cbn [cmd_allocated apply_heap].
  - intros [HP Hv]. apply obj_add_inv; assumption.
  - intros _. apply obj_remove_inv.
  - intros _. apply shape_same_inv; reflexivity.
Qed.

Lemma revert_heap_inv gs c h :
  cmd_allocated h c ->
  graph_wf h /\ graph_closed h ->
  graph_wf (revert_heap gs c h) /\ graph_closed (revert_heap gs c h).
Proof.
  destruct c as [P v|P v|o ns]; cbn [cmd_allocated revert_heap].
  - intros _. apply obj_remove_inv.
  - intros [HP Hv]. apply obj_add_inv; assumption.
  - intros _. apply shape_same_inv; reflexivity.
Qed.

Lemma getObjectByName_allocated nm h :
  graph_wf h -> graph_closed h ->
  forall f o r, o < next h -> getObjectByName f h o nm = Some r -> r < next h.
Proof.
  intros [He _] [_ Hc].
  induction f as [|f IH]; intros o r Ho; simpl;
    destruct (String.eqb (name (props h o)) nm);
    try (intros H; inversion H; subst r; exact Ho).
  assert (Hch : forall c, In c (children h o) -> c < next h).
  { intros c Hin. apply He in Hin. apply Hc in Hin. lia. }
  induction (children h o) as [|c l IHl]; [discriminate|].
  destruct (getObjectByName f h c nm) as [r'|] eqn:Ec.
  - intros H. inversion H; subst r'.
    apply (IH c r); [apply Hch; left; reflexivity|exact Ec].
  - apply IHl. intros c' Hin. apply Hch. right. exact Hin.
Qed.

Lemma ensureUserLayer_inv h :
  graph_wf h /\ graph_closed h ->
  (graph_wf (snd (ensureUserLayer h)) /\ graph_closed (snd (ensureUserLayer h)))
  /\ fst (ensureUserLayer h) < next (snd (ensureUserLayer h))
  /\ next h <= next (snd (ensureUserLayer h)).
Proof.
  intros H. unfold ensureUserLayer.
  destruct (getObjectByName (next h) h scene "UserLayer") as [u|] eqn:E.
  - cbn [fst snd]. split; [exact H|]. split; [|lia].
    destruct H as [Hw Hc].
    apply (getObjectByName_allocated "UserLayer" h Hw Hc (next h) scene u);
      [apply Hc|exact E].
  - pose proof (alloc_inv (mkObjProps Group "UserLayer" false)
                  defaultTransform false [] h H) as Ha.
    unfold alloc in *. cbv zeta in *. cbn [fst snd] in *.
    match type of Ha with
    | graph_wf ?hh /\ _ => set (h1 := hh) in *
    end.
    destruct (obj_add_frame scene (next h) h1) as (_ & _ & _ & _ & Hn).
    assert (N1 : next h1 = S (next h)) by reflexivity.
    destruct H as [_ [Hs _]].
    rewrite Hn, N1. split; [|lia].
    apply obj_add_inv; [lia|lia|exact Ha].
Qed.

Lemma fold_inv {A} (I : Heap -> Prop) (f : Heap -> A -> Heap) :
  (forall h a, I h -> I (f h a)) ->
  forall l h, I h -> I (fold_left f l h).
Proof.
  intros Hf. induction l as [|a l IH]; intros h Hh; [exact Hh|].
  simpl. apply IH, Hf, Hh.
Qed.

Lemma clone_obj_inv : forall fuel o h,
  graph_wf h /\ graph_closed h ->
  graph_wf (snd (clone_obj fuel o h)) /\ graph_closed (snd (clone_obj fuel o h)).
Proof.
  induction fuel as [|f IH]; intros o h H.
  - simpl. apply (alloc_inv (props h o) (transform h o) (locked h o)
                    (instanceMatrix h o) h H).
  - simpl. cbn [snd].
    pose proof (alloc_inv (props h o) (transform h o) (locked h o)
                  (instanceMatrix h o) h H) as Ha.
    unfold alloc in Ha. cbv zeta in Ha. cbn [snd] in Ha.
    match type of Ha with
    | graph_wf ?hh /\ _ => set (h1 := hh) in *
    end.
    assert (N1 : next h < next h1) by (unfold h1; cbn [next]; lia).
    apply (fold_inv (fun a => (graph_wf a /\ graph_closed a) /\ next h < next a)
             (fun acc child =>
                let '(cc, h') := clone_obj f child acc in
                obj_add (next h) cc h'));
      [|split; assumption].
    intros acc child [Hacc Hlt].
    specialize (IH child acc Hacc).
    destruct (clone_obj_spec f child acc) as (Ef & [Kn _] & (Hc & _)).
    destruct (clone_obj f child acc) as [cc h']. cbn [fst snd] in *. subst cc.
    destruct (obj_add_frame (next h) (next acc) h') as (_ & _ & _ & _ & Hn).
    rewrite Hn. split; [|lia].
    apply obj_add_inv; [lia|exact Hc|exact IH].
Qed.

Lemma Forall_firstn_keep {A} (P : A -> Prop) : forall n l,
  Forall P l -> Forall P (firstn n l).
Proof.
  induction n as [|n IH]; intros l H; [constructor|].
  destruct H as [|x l Hx Hl]; simpl; constructor; [exact Hx|apply IH, Hl].
Qed.

Lemma Forall_slice0 {A} (P : A -> Prop) l e :
  Forall P l -> Forall P (slice0 l e).
Proof.
  intros H. unfold slice0. destruct (e <? 0)%Z; apply Forall_firstn_keep, H.
Qed.

Lemma cmd_allocated_mono h h' c :
  next h <= next h' -> cmd_allocated h c -> cmd_allocated h' c.
Proof. destruct c; cbn [cmd_allocated]; lia. Qed.

Lemma inv_set_graph h s :
  graph_wf h /\ graph_closed h -> next (graph s) <= next h ->
  scene_inv s -> scene_inv (set_graph h s).
Proof.
  intros Hh Hn (_ & _ & Hhist & Hsel & Hhov & Hctx).
  destruct Hh as [Hw Hc].
  unfold scene_inv, refs_allocated. fields.
  refine (conj Hw (conj Hc (conj _ (conj _ (conj _ _))))).
  - revert Hhist. apply Forall_impl. intros c. apply cmd_allocated_mono, Hn.
  - destruct (selectedObject s); [lia|exact I].
  - destruct (hoveredVoxel s); [lia|exact I].
  - destruct (ctxMenu s) as [items|]; [|exact I].
    revert Hctx. apply Forall_impl. intros it. lia.
Qed.

Lemma inv_selectObject x s :
  match x with Some o => o < next (graph s) | None => True end ->
  scene_inv s -> scene_inv (selectObject x s).
Proof.
  intros Hx (Hw & Hc & Hhist & Hsel & Hhov & Hctx).
  unfold scene_inv, refs_allocated, selectObject.
  destruct x as [o|]; [destruct (locked (graph (set_selectionBoxVisible true
                                     (set_selectedObject (Some o) s))) o);
                       [|destruct (is_transform_tool _)]|];
    fields;
    refine (conj Hw (conj Hc (conj Hhist (conj _ (conj Hhov Hctx)))));
    assumption.
Qed.

Lemma inv_setTool t s : scene_inv s -> scene_inv (setTool t s).
Proof.
  intros H. unfold setTool. cbv zeta.
  destruct (is_transform_tool t);
    [destruct (selectedObject (set_activeTool t s)) as [o|];
     [destruct (locked (graph (set_activeTool t s)) o)|]|]; exact H.
Qed.

Lemma inv_cmd_execute c s :
  cmd_allocated (graph s) c -> scene_inv s -> scene_inv (cmd_execute c s).
Proof.
  intros Hc H.
  assert (Hg : graph_wf (apply_heap c (graph s))
               /\ graph_closed (apply_heap c (graph s))).
  { destruct H as (Hw & Hcl & _). apply apply_heap_inv; [exact Hc|].
    split; assumption. }
  assert (Hn : next (graph s) <= next (apply_heap c (graph s))).
  { destruct (apply_heap_frame c (graph s)) as (_ & _ & _ & Hn). lia. }
  pose proof (inv_set_graph _ s Hg Hn H) as H1.
  destruct c as [P v|P v|o ns]; cbn [cmd_execute]; try exact H1.
  cbv zeta. destruct (oid_opt_eqb _ v); [|exact H1].
  apply inv_selectObject; [exact I|exact H1].
Qed.

Lemma inv_cmd_undo c s :
  cmd_allocated (graph s) c -> scene_inv s -> scene_inv (cmd_undo c s).
Proof.
  intros Hc H.
  assert (Hg : graph_wf (revert_heap (gizmoStart s) c (graph s))
               /\ graph_closed (revert_heap (gizmoStart s) c (graph s))).
  { destruct H as (Hw & Hcl & _). apply revert_heap_inv; [exact Hc|].
    split; assumption. }
  assert (Hn : next (graph s)
               <= next (revert_heap (gizmoStart s) c (graph s))).
  { destruct (revert_heap_frame (gizmoStart s) c (graph s))
      as (_ & _ & _ & Hn). lia. }
  pose proof (inv_set_graph _ s Hg Hn H) as H1.
  destruct c as [P v|P v|o ns]; exact H1.
Qed.

Lemma inv_execute c s :
  cmd_allocated (graph s) c -> scene_inv s -> scene_inv (execute c s).
Proof.
  intros Hc H. pose proof (inv_cmd_execute c s Hc H) as H1.
  assert (Hc1 : cmd_allocated (graph (cmd_execute c s)) c).
  { revert Hc. apply cmd_allocated_mono.
    rewrite graph_cmd_execute.
    destruct (apply_heap_frame c (graph s)) as (_ & _ & _ & Hn). lia. }
  unfold execute. cbv zeta.
  generalize dependent (cmd_execute c s). intros s1 H1 Hc1.
  destruct H1 as (Hw & Hcl & Hhist & Hsel & Hhov & Hctx).
  unfold scene_inv, refs_allocated.
  destruct (index s1 <? zlength (history s1) - 1)%Z; fields;
    (refine (conj Hw (conj Hcl (conj _ (conj Hsel (conj Hhov Hctx)))));
     apply Forall_app; split; [|constructor; [exact Hc1|constructor]]).
  - apply Forall_slice0, Hhist.
  - exact Hhist.
Qed.

Lemma js_nth_In {A} (l : list A) i c : js_nth l i = Some c -> In c l.
Proof.
  unfold js_nth. destruct (i <? 0)%Z; [discriminate|]. apply nth_error_In.
Qed.

Lemma inv_undo s : scene_inv s -> scene_inv (undo s).
Proof.
  intros H. unfold undo. destruct (index s >=? 0)%Z; [|exact H].
  destruct (js_nth (history s) (index s)) as [c|] eqn:E; [|exact H].
  cbv zeta.
  assert (Hc : cmd_allocated (graph s) c).
  { destruct H as (_ & _ & Hhist & _). rewrite Forall_forall in Hhist.
    apply Hhist. exact (js_nth_In _ _ _ E). }
  exact (inv_cmd_undo c s Hc H).
Qed.

Lemma inv_redo s : scene_inv s -> scene_inv (redo s).
Proof.
  intros H. unfold redo.
  destruct (index s <? zlength (history s) - 1)%Z; [|exact H]. cbv zeta.
  destruct (js_nth (history (set_index (index s + 1) s))
              (index (set_index (index s + 1) s))) as [c|] eqn:E; [|exact H].
  assert (Hc : cmd_allocated (graph s) c).
  { destruct H as (_ & _ & Hhist & _). rewrite Forall_forall in Hhist.
    apply Hhist. exact (js_nth_In _ _ _ E). }
  exact (inv_cmd_execute c (set_index (index s + 1) s) Hc H).
Qed.

Lemma parent_or_scene_allocated h x :
  graph_closed h -> parent_or_scene h x < next h.
Proof.
  intros [Hs Hc]. unfold parent_or_scene.
  destruct (parent h x) as [P|] eqn:E; [apply (Hc x P E)|exact Hs].
Qed.

Lemma inv_shape h s :
  parent h = parent (graph s) -> children h = children (graph s) ->
  next h = next (graph s) ->
  scene_inv s -> scene_inv (set_graph h s).
Proof.
  intros Hp Hc Hn H. apply inv_set_graph; [|lia|exact H].
  destruct H as (Hw & Hcl & _).
  apply (shape_same_inv (graph s)); try assumption. split; assumption.
Qed.

Lemma inv_set_hovered hv s :
  match hv with Some v => hitObj v < next (graph s) | None => True end ->
  scene_inv s -> scene_inv (set_hoveredVoxel hv s).
Proof.
  intros Hv (Hw & Hc & Hhist & Hsel & _ & Hctx).
  exact (conj Hw (conj Hc (conj Hhist (conj Hsel (conj Hv Hctx))))).
Qed.

Lemma inv_set_ctxMenu m s :
  match m with
  | Some items => Forall (fun it => ctxTarget it < next (graph s)) items
  | None => True
  end ->
  scene_inv s -> scene_inv (set_ctxMenu m s).
Proof.
  intros Hm (Hw & Hc & Hhist & Hsel & Hhov & _).
  exact (conj Hw (conj Hc (conj Hhist (conj Hsel (conj Hhov Hm))))).
Qed.

Lemma inv_updateGhostGeometry s :
  scene_inv s -> scene_inv (updateGhostGeometry s).
Proof. intros H. unfold updateGhostGeometry. apply inv_shape; auto. Qed.

Lemma inv_remove s x :
  x < next (graph s) -> scene_inv s ->
  scene_inv (execute (RemoveVoxelCommand (parent_or_scene (graph s) x) x) s).
Proof.
  intros Hx H. apply inv_execute; [|exact H].
  split; [|exact Hx]. apply parent_or_scene_allocated. apply H.
Qed.

Lemma inv_build hv s : scene_inv s -> scene_inv (build_click hv s).
Proof.
  intros H. rewrite build_click_unfold.
  pose proof H as (Hw & Hc & _).
  pose proof (alloc_inv (voxelProps s) (voxelTransform hv) false [] (graph s)
                (conj Hw Hc)) as Ha.
  set (h1 := snd (alloc (voxelProps s) (voxelTransform hv) false [] (graph s)))
    in *.
  assert (N1 : next h1 = S (next (graph s))) by reflexivity.
  destruct (ensureUserLayer_inv h1 Ha) as (Hu & Hlt & Hn).
  apply inv_execute.
  - split; [exact Hlt|]. fields. lia.
  - apply inv_set_graph; [exact Hu|lia|exact H].
Qed.

Lemma inv_clone obj s : scene_inv s -> scene_inv (ctx_action CtxClone obj s).
Proof.
  intros H. unfold ctx_action.
  pose proof H as (Hw & Hc & _).
  pose proof (clone_obj_inv (next (graph s)) obj (graph s) (conj Hw Hc)) as Hi.
  destruct (clone_obj_spec (next (graph s)) obj (graph s))
    as (Ef & [Kn _] & (Hlt & _)).
  destruct (clone_obj (next (graph s)) obj (graph s)) as [cl h1].
  cbn [fst snd] in *. subst cl. cbv zeta.
  match goal with
  | |- scene_inv (execute _ (set_graph ?h s)) => set (h2 := h)
  end.
  assert (H2 : graph_wf h2 /\ graph_closed h2)
    by (apply (shape_same_inv h1); try reflexivity; exact Hi).
  apply inv_execute.
  - split; [|exact Hlt].
    apply (parent_or_scene_allocated h2). apply H2.
  - apply inv_set_graph; [exact H2|exact Kn|exact H].
Qed.

Lemma handle_scene_inv e s :
  event_allocated s e = true -> scene_inv s -> scene_inv (handle e s).
Proof.
  intros Hok H.
  destruct e as [k c sh r|hits|b now hits|b obj|obj|i| |t| | |v|c|v|t];
    cbn [handle]; cbn [event_allocated] in Hok.
  - unfold keydown. destruct r; [exact H|].
    destruct (c && match k with KeyZ => true | _ => false end).
    { destruct sh; [apply inv_redo|apply inv_undo]; exact H. }
    assert (H1 : scene_inv (match tool_of_key k with
                            | Some t => setTool t s | None => s end)).
    { destruct (tool_of_key k) as [t|]; [apply inv_setTool|]; exact H. }
    set (s1 := match tool_of_key k with Some t => setTool t s | None => s end)
      in *.
    destruct k; try exact H1;
      (destruct (selectedObject s1) as [x|] eqn:Es; [|exact H1];
       destruct (locked (graph s1) x); [exact H1|];
       apply inv_remove; [|exact H1];
       destruct H1 as (_ & _ & _ & Hsel & _); rewrite Es in Hsel; exact Hsel).
  - unfold mousemove.
    destruct (activeTool s); try exact H;
      (destruct (find (hover_filter (graph s)) hits) as [hit|] eqn:Ef;
       [|apply inv_set_hovered; [exact I|exact H]];
       destruct (face hit); [|exact H];
       destruct (snap _) as [[sx sy] sz];
       apply find_some in Ef; destruct Ef as [Hin _];
       rewrite forallb_forall in Hok; specialize (Hok hit Hin);
       apply Nat.ltb_lt in Hok;
       apply inv_set_hovered;
       [cbn [hitObj]; fields;
        unfold set_material_color;
        match goal with
        | |- context [match ?k with Mesh _ _ => _ | _ => _ end] => destruct k
        end; exact Hok
       |change (scene_inv (set_graph
                  (set_material_color ghostCursor
                     (if tool_eqb (activeTool s) ToolBreak
                      then 16711680%Z else 65280%Z)
                     (set_position ghostCursor (vec_set sx sy sz) (graph s)))
                  s)) || idtac;
        apply inv_shape; try exact H;
        unfold set_material_color;
        match goal with
        | |- context [match ?k with Mesh _ _ => _ | _ => _ end] => destruct k
        end; reflexivity]).
  - unfold mousedown. destruct (negb (Nat.eqb b 0)); [exact H|].
    set (s0 := set_lastPipetteClick now s).
    assert (H0 : scene_inv s0) by exact H.
    destruct (activeTool s0) eqn:Et.
    + destruct (find_opt _ hits) as [[hit|]|] eqn:Ef;
        [|apply inv_selectObject; [exact I|exact H0]|exact H0].
      apply find_opt_In in Ef. destruct Ef as [Hin _].
      apply inv_selectObject; [|exact H0].
      rewrite forallb_forall in Hok. apply Nat.ltb_lt. exact (Hok hit Hin).
    + destruct (hoveredVoxel s0); exact H0.
    + destruct (hoveredVoxel s0); exact H0.
    + destruct (hoveredVoxel s0); exact H0.
    + destruct (hoveredVoxel s0) as [hv|]; [|exact H0].
      apply inv_build, H0.
    + destruct (hoveredVoxel s0) as [hv|] eqn:Eh; [|exact H0].
      unfold break_click.
      destruct (locked (graph s0) (hitObj hv)); [exact H0|].
      destruct (negb (isInstancedMesh (graph s0) (hitObj hv))).
      * apply inv_remove; [|exact H0].
        destruct H0 as (_ & _ & _ & _ & Hhov & _). rewrite Eh in Hhov.
        exact Hhov.
      * destruct (hitId hv); [|exact H0].
        apply inv_shape; try reflexivity. exact H0.
    + destruct (hoveredVoxel s0) as [hv|]; [|exact H0].
      unfold pipette_click.
      destruct (kind (props (graph s0) (hitObj hv))) as [g col| |ic| | |];
        try exact H0.
      * destruct g as [w hh d|]; destruct col as [col|]; try exact H0;
          (destruct (now - lastPipetteClick s <? 300)%Z; [|exact H0];
           match goal with
           | |- context [if ?b then _ else _] => destruct b
           end; [|exact H0];
           apply inv_updateGhostGeometry; exact H0).
      * destruct ic; exact H0.
  - apply Nat.ltb_lt in Hok. unfold row_onmousedown.
    assert (H1 : scene_inv (if Nat.eqb b 0 then selectObject (Some obj) s
                            else s)).
    { destruct (Nat.eqb b 0); [apply inv_selectObject|]; assumption. }
    assert (N1 : next (graph (if Nat.eqb b 0 then selectObject (Some obj) s
                              else s)) = next (graph s)).
    { destruct (Nat.eqb b 0); [|reflexivity].
      destruct (selectObject_frame (Some obj) s) as (-> & _). reflexivity. }
    set (s1 := if Nat.eqb b 0 then selectObject (Some obj) s else s) in *.
    destruct (Nat.eqb b 2); [|exact H1].
    unfold showCtxMenu. cbv zeta.
    assert (N2 : next (graph (selectObject (Some obj) s1)) = next (graph s)).
    { destruct (selectObject_frame (Some obj) s1) as (-> & _). exact N1. }
    apply inv_set_ctxMenu.
    + rewrite N2. repeat constructor; exact Hok.
    + apply inv_selectObject; [rewrite N1; exact Hok|exact H1].
  - unfold lockBtn_onclick. cbv zeta.
    assert (H1 : scene_inv
                   (set_graph
                      (set_locked
                         (upd (locked (graph s)) obj
                            (negb (locked (graph s) obj))) (graph s)) s))
      by (apply inv_shape; try reflexivity; exact H).
    match goal with
    | |- context [if ?b then _ else _] => destruct b
    end; exact H1.
  - unfold ctx_item_click.
    destruct (ctxMenu s) as [items|] eqn:Em; [|exact H].
    destruct (nth_error items i) as [it|] eqn:En; [|exact H].
    unfold window_click. cbv zeta.
    apply inv_set_ctxMenu; [exact I|].
    destruct (ctxEnabled it); [|exact H].
    apply inv_set_ctxMenu; [exact I|].
    assert (Ht : ctxTarget it < next (graph s)).
    { destruct H as (_ & _ & _ & _ & _ & Hctx). rewrite Em in Hctx.
      rewrite Forall_forall in Hctx. apply Hctx.
      exact (nth_error_In _ _ En). }
    destruct (ctxAction it).
    + apply inv_remove; assumption.
    + apply inv_clone, H.
    + unfold ctx_action. destruct (controlsTarget s); exact H.
  - unfold window_click. apply inv_set_ctxMenu; [exact I|exact H].
  - apply inv_setTool, H.
  - apply inv_undo, H.
  - apply inv_redo, H.
  - apply inv_updateGhostGeometry. exact H.
  - exact H.
  - unfold dragging_changed. destruct (gizmoObject s) as [x|]; [|exact H].
    destruct v; [exact H|]. apply inv_execute; [exact I|exact H].
  - unfold gizmo_drag. destruct (gizmoObject s) as [x|]; [|exact H].
    apply inv_shape; try reflexivity. exact H.
Qed.

Lemma run_events_scene_inv : forall es s,
  scene_inv s -> events_allocated s es = true -> scene_inv (run_events es s).
Proof.
  unfold run_events. induction es as [|e es IH]; intros s H Hok; [exact H|].
  simpl in *. apply andb_true_iff in Hok. destruct Hok as [He Hes].
  apply IH; [apply handle_scene_inv; assumption|exact Hes].
Qed.

(** X20. Every listener keeps the scene graph consistent: from a consistent,
    closed scene, after any run of events that carry allocated objects, an
    object is among the children of [P] exactly when its parent is [P], no
    child is listed twice, and every parent link joins allocated objects. *)
Theorem events_keep_scene_graph_consistent :
  forall (g : Heap) (controls : option Vector3) (es : list Event),
    graph_wf g ->
    graph_closed g ->
    events_allocated (initialEditor g controls) es = true ->
    graph_wf (graph (run_events es (initialEditor g controls)))
    /\ graph_closed (graph (run_events es (initialEditor g controls))).
Proof.
  intros g controls es Hw Hc Hok.
  assert (H0 : scene_inv (initialEditor g controls)).
  { refine (conj Hw (conj Hc (conj _ (conj _ (conj _ _))))); cbn.
    - constructor.
    - exact I.
    - exact I.
    - exact I. }
  destruct (run_events_scene_inv es _ H0 Hok) as (Hw' & Hc' & _).
  split; assumption.
Qed.

Lemma sampleScene_closed : graph_closed sampleScene.
Proof.
  split; [vm_compute; lia|].
  intros v P.
  do 8 (destruct v as [|v]; [vm_compute; intros H; inversion H; lia|]).
  vm_compute. discriminate.
Qed.

Lemma events_keep_scene_graph_consistent_witness :
  let es := [EvToolButton ToolBuild;
             EvMouseMove [mkIntersection 6 (mkVector3 0 4 0)
                            (Some (mkVector3 0 1 0)) None];
             EvMouseDown 0 1000%Z [];
             EvRowMouseDown 2 5;
             EvCtxItemClick 1;
             EvUndoButton; EvUndoButton; EvRedoButton] in
  graph_wf (graph (run_events es (initialEditor sampleScene None))).
Proof.
  intros es.
  apply (events_keep_scene_graph_consistent sampleScene None es).
  - exact sampleScene_wf.
  - exact sampleScene_closed.
  - vm_compute. reflexivity.
Defined.

(** ** The ghost cursor and the brush *)

Lemma ghost_transfer s s' :
  brushSize s' = brushSize s ->
  next (graph s) <= next (graph s') ->
  props (graph s') ghostCursor = props (graph s) ghostCursor ->
  ghost_matches_brush s -> ghost_matches_brush s'.
Proof.
  unfold ghost_matches_brush, ghost_geometry. intros Hb Hn Hp [Hg Hk].
  rewrite Hb, Hp. split; [lia|exact Hk].
Qed.

Lemma ghost_updateGhostGeometry s :
  ghostCursor < next (graph s) -> ghost_matches_brush (updateGhostGeometry s).
Proof.
  intros Hg. unfold ghost_matches_brush, ghost_geometry, updateGhostGeometry.
  fields. rewrite upd_same. split; [exact Hg|reflexivity].
Qed.

Lemma ghost_execute c s :
  ghost_matches_brush s -> ghost_matches_brush (execute c s).
Proof.
  apply ghost_transfer.
  - apply brushSize_execute.
  - rewrite execute_graph, graph_cmd_execute.
    destruct (apply_heap_frame c (graph s)) as (_ & _ & _ & Hn). lia.
  - rewrite execute_graph, graph_cmd_execute.
    destruct (apply_heap_frame c (graph s)) as (_ & Hp & _). rewrite Hp.
    reflexivity.
Qed.

Lemma ghost_undo s : ghost_matches_brush s -> ghost_matches_brush (undo s).
Proof.
  intros H. unfold undo. destruct (index s >=? 0)%Z; [|exact H].
  destruct (js_nth (history s) (index s)) as [c|]; [|exact H].
  cbv zeta. revert H.
  destruct (revert_heap_frame (gizmoStart s) c (graph s)) as (_ & Hp & _ & Hn).
  apply ghost_transfer; fields; rewrite ?graph_cmd_undo, ?Hp, ?Hn;
    try reflexivity.
  destruct c; reflexivity.
Qed.

Lemma ghost_redo s : ghost_matches_brush s -> ghost_matches_brush (redo s).
Proof.
  intros H. unfold redo.
  destruct (index s <? zlength (history s) - 1)%Z; [|exact H]. cbv zeta.
  destruct (js_nth (history (set_index (index s + 1) s))
              (index (set_index (index s + 1) s))) as [c|]; [|exact H].
  revert H.
  destruct (apply_heap_frame c (graph s)) as (_ & Hp & _ & Hn).
  apply ghost_transfer; rewrite ?graph_cmd_execute; fields; rewrite ?Hp, ?Hn;
    try reflexivity.
  destruct c; cbn [cmd_execute]; cbv zeta; fields; try reflexivity.
  destruct (oid_opt_eqb (selectedObject s) voxel); fields;
    rewrite ?brushSize_selectObject; reflexivity.
Qed.

Lemma ghost_frame s s' :
  brushSize s' = brushSize s -> graph s' = graph s ->
  ghost_matches_brush s -> ghost_matches_brush s'.
Proof.
  intros Hb Hg. apply ghost_transfer; rewrite ?Hg; auto.
Qed.

Lemma ghost_build hv s :
  ghost_matches_brush s -> ghost_matches_brush (build_click hv s).
Proof.
  intros H. rewrite build_click_unfold. apply ghost_execute.
  pose proof H as [Hg _]. revert H.
  set (h1 := snd (alloc (voxelProps s) (voxelTransform hv) false [] (graph s))).
  assert (N1 : next h1 = S (next (graph s))) by reflexivity.
  destruct (ensureUserLayer_extends h1) as [Hn _].
  apply ghost_transfer; fields; [reflexivity|lia|].
  rewrite ensureUserLayer_props by lia.
  unfold h1, alloc. cbn [snd props]. apply upd_other. lia.
Qed.

Lemma ghost_clone obj s :
  ghost_matches_brush s -> ghost_matches_brush (ctx_action CtxClone obj s).
Proof.
  intros H. unfold ctx_action.
  destruct (clone_obj_spec (next (graph s)) obj (graph s))
    as (_ & [Kn K] & _).
  destruct (clone_obj (next (graph s)) obj (graph s)) as [cl h1].
  cbn [snd] in *. cbv zeta. apply ghost_execute.
  pose proof H as [Hg _]. revert H.
  apply ghost_transfer; fields; [reflexivity|exact Kn|].
  apply (K ghostCursor Hg).
Qed.

Lemma handle_ghost e s :
  ghost_matches_brush s -> ghost_matches_brush (handle e s).
Proof.
  intros H.
  assert (Hsel : forall x s1, ghost_matches_brush s1 ->
                              ghost_matches_brush (selectObject x s1)).
  { intros x s1. apply ghost_frame;
      [apply brushSize_selectObject|apply selectObject_frame]. }
  assert (Htool : forall t s1, ghost_matches_brush s1 ->
                               ghost_matches_brush (setTool t s1)).
  { intros t s1. apply ghost_frame; apply setTool_fields. }
  destruct e as [k c sh r|hits|b now hits|b obj|obj|i| |t| | |v|c|v|t];
    cbn [handle].
  - unfold keydown. destruct r; [exact H|].
    destruct (c && match k with KeyZ => true | _ => false end).
    { destruct sh; [apply ghost_redo|apply ghost_undo]; exact H. }
    assert (H1 : ghost_matches_brush
                   (match tool_of_key k with
                    | Some t => setTool t s | None => s end)).
    { destruct (tool_of_key k) as [t|]; [apply Htool|]; exact H. }
    set (s1 := match tool_of_key k with Some t => setTool t s | None => s end)
      in *.
    destruct k; try exact H1;
      (destruct (selectedObject s1) as [x|]; [|exact H1];
       destruct (locked (graph s1) x); [exact H1|];
       apply ghost_execute; exact H1).
  - unfold mousemove.
    destruct (activeTool s); try exact H;
      (destruct (find (hover_filter (graph s)) hits) as [hit|]; [|exact H];
       destruct (face hit); [|exact H];
       destruct (snap _) as [[sx sy] sz];
       destruct H as [Hg Hk];
       unfold ghost_matches_brush, ghost_geometry in *; fields;
       unfold set_material_color, set_position; fields;
       destruct (kind (props (graph s) ghostCursor)) eqn:Ek;
       try discriminate Hk; fields; rewrite upd_same;
       split; [exact Hg|exact Hk]).
  - unfold mousedown. destruct (negb (Nat.eqb b 0)); [exact H|].
    set (s0 := set_lastPipetteClick now s).
    assert (H0 : ghost_matches_brush s0) by exact H.
    destruct (activeTool s0) eqn:Et.
    + destruct (find_opt _ hits) as [[hit|]|]; [apply Hsel|apply Hsel|];
        exact H0.
    + destruct (hoveredVoxel s0); exact H0.
    + destruct (hoveredVoxel s0); exact H0.
    + destruct (hoveredVoxel s0); exact H0.
    + destruct (hoveredVoxel s0) as [hv|]; [|exact H0].
      apply ghost_build, H0.
    + destruct (hoveredVoxel s0) as [hv|]; [|exact H0].
      unfold break_click.
      destruct (locked (graph s0) (hitObj hv)); [exact H0|].
      destruct (negb (isInstancedMesh (graph s0) (hitObj hv)));
        [apply ghost_execute; exact H0|].
      destruct (hitId hv); exact H0.
    + destruct (hoveredVoxel s0) as [hv|]; [|exact H0].
      unfold pipette_click.
      destruct (kind (props (graph s0) (hitObj hv))) as [g col| |ic| | |];
        try exact H0.
      * destruct g as [w hh d|]; destruct col as [col|]; try exact H0;
          (destruct (now - lastPipetteClick s <? 300)%Z; [|exact H0];
           match goal with
           | |- context [if ?b then _ else _] => destruct b
           end; [|exact H0];
           apply ghost_updateGhostGeometry; apply H0).
      * destruct ic; exact H0.
  - unfold row_onmousedown.
    assert (H1 : ghost_matches_brush
                   (if Nat.eqb b 0 then selectObject (Some obj) s else s)).
    { destruct (Nat.eqb b 0); [apply Hsel|]; exact H. }
    set (s1 := if Nat.eqb b 0 then selectObject (Some obj) s else s) in *.
    destruct (Nat.eqb b 2); [|exact H1].
    unfold showCtxMenu. cbv zeta.
    exact (Hsel (Some obj) s1 H1).
  - unfold lockBtn_onclick. cbv zeta.
    match goal with
    | |- context [if ?b then _ else _] => destruct b
    end; exact H.
  - unfold ctx_item_click.
    destruct (ctxMenu s) as [items|]; [|exact H].
    destruct (nth_error items i) as [it|]; [|exact H].
    unfold window_click. cbv zeta.
    destruct (ctxEnabled it); [|exact H].
    change (ghost_matches_brush (ctx_action (ctxAction it) (ctxTarget it) s)).
    destruct (ctxAction it).
    + apply ghost_execute, H.
    + apply ghost_clone, H.
    + unfold ctx_action. destruct (controlsTarget s); exact H.
  - exact H.
  - apply Htool, H.
  - apply ghost_undo, H.
  - apply ghost_redo, H.
  - apply ghost_updateGhostGeometry. apply H.
  - exact H.
  - unfold dragging_changed. destruct (gizmoObject s) as [x|]; [|exact H].
    destruct v; [exact H|apply ghost_execute, H].
  - unfold gizmo_drag. destruct (gizmoObject s) as [x|]; exact H.
Qed.

Lemma run_events_ghost : forall es s,
  ghost_matches_brush s -> ghost_matches_brush (run_events es s).
Proof.
  unfold run_events. induction es as [|e es IH]; intros s H; [exact H|].
  simpl. apply IH, handle_ghost, H.
Qed.

(** X21. The preview cursor follows the brush: when the ghost cursor starts
    as the unit box, after any run of the listeners it is a box whose three
    sides are the current brush size. *)
Theorem events_keep_ghost_at_brush_size :
  forall (g : Heap) (controls : option Vector3) (es : list Event),
    ghostCursor < next g ->
    ghost_geometry g = Some (BoxGeometry 1 1 1) ->
    ghost_geometry (graph (run_events es (initialEditor g controls)))
    = Some (BoxGeometry
              (ofZ (brushSize (run_events es (initialEditor g controls))))
              (ofZ (brushSize (run_events es (initialEditor g controls))))
              (ofZ (brushSize (run_events es (initialEditor g controls))))).
Proof.
  intros g controls es Hg Hk.
  apply (run_events_ghost es (initialEditor g controls)).
  split; [exact Hg|exact Hk].
Qed.

Lemma events_keep_ghost_at_brush_size_witness :
  let es := [EvSizeSlider 3%Z; EvToolButton ToolPipette; EvUndoButton] in
  ghost_geometry (graph (run_events es (initialEditor sampleScene None)))
  = Some (BoxGeometry 3 3 3).
Proof.
  intros es.
  apply (events_keep_ghost_at_brush_size sampleScene None es).
  - vm_compute. lia.
  - reflexivity.
Defined.

(** ** The time of the last press *)

Lemma timer_selectObject o s :
  lastPipetteClick (selectObject o s) = lastPipetteClick s.
Proof.
  unfold selectObject. destruct o as [x|]; fields;
    [destruct (locked (graph s) x);
     [|destruct (is_transform_tool (activeTool s))]|]; reflexivity.
Qed.

Lemma timer_setTool t s : lastPipetteClick (setTool t s) = lastPipetteClick s.
Proof.
  unfold setTool. cbv zeta. fields.
  destruct (is_transform_tool t); [destruct (selectedObject s) as [o|];
    [destruct (locked (graph s) o)|]|]; reflexivity.
Qed.

Lemma timer_cmd_execute c s :
  lastPipetteClick (cmd_execute c s) = lastPipetteClick s.
Proof.
  destruct c as [P v|P v|ob ns]; unfold cmd_execute; cbv zeta; try reflexivity.
  match goal with
  | |- context [if ?b then _ else _] => destruct b
  end; [rewrite timer_selectObject|]; reflexivity.
Qed.

Lemma timer_execute c s : lastPipetteClick (execute c s) = lastPipetteClick s.
Proof.
  unfold execute.
  destruct (index (cmd_execute c s) <? zlength (history (cmd_execute c s)) - 1)%Z;
    fields; rewrite timer_cmd_execute; reflexivity.
Qed.

Lemma timer_undo s : lastPipetteClick (undo s) = lastPipetteClick s.
Proof.
  unfold undo. destruct (index s >=? 0)%Z; [|reflexivity].
  destruct (js_nth (history s) (index s)) as [c|]; [|reflexivity].
  destruct c; reflexivity.
Qed.

Lemma timer_redo s : lastPipetteClick (redo s) = lastPipetteClick s.
Proof.
  unfold redo. destruct (index s <? zlength (history s) - 1)%Z; [|reflexivity].
  fields. destruct (js_nth (history s) (index s + 1)) as [c|]; [|reflexivity].
  rewrite timer_cmd_execute. reflexivity.
Qed.

(** Only a left press on the render surface writes [lastPipetteClick]. *)
Lemma handle_timer e s :
  lastPipetteClick (handle e s)
  = match e with
    | EvMouseDown b t _ => if Nat.eqb b 0 then t else lastPipetteClick s
    | _ => lastPipetteClick s
    end.
Proof.
  destruct e as [k c sh r|hits|b now hits|b obj|obj|i| |t| | |v|c|v|t];
    cbn [handle].
  - unfold keydown. destruct r; [reflexivity|].
    destruct (c && match k with KeyZ => true | _ => false end).
    { destruct sh; [apply timer_redo|apply timer_undo]. }
    assert (H1 : lastPipetteClick
                   (match tool_of_key k with Some t => setTool t s | None => s end)
                 = lastPipetteClick s).
    { destruct (tool_of_key k) as [t|]; [apply timer_setTool|reflexivity]. }
    set (s1 := match tool_of_key k with Some t => setTool t s | None => s end) in *.
    destruct k; try exact H1;
      (destruct (selectedObject s1) as [o|]; [|exact H1];
       destruct (locked (graph s1) o); [exact H1|];
       rewrite timer_execute; exact H1).
  - unfold mousemove.
    destruct (activeTool s); try reflexivity;
      (destruct (find (hover_filter (graph s)) hits) as [hit|]; [|reflexivity];
       destruct (face hit); [|reflexivity];
       destruct (snap _) as [[sx sy] sz]; reflexivity).
  - unfold mousedown. destruct (Nat.eqb b 0); cbn [negb]; [|reflexivity].
    set (s0 := set_lastPipetteClick now s).
    assert (H0 : lastPipetteClick s0 = now) by reflexivity.
    destruct (activeTool s0) eqn:Et.
    + destruct (find_opt _ hits) as [[hit|]|];
        rewrite ?timer_selectObject; exact H0.
    + destruct (hoveredVoxel s0); exact H0.
    + destruct (hoveredVoxel s0); exact H0.
    + destruct (hoveredVoxel s0); exact H0.
    + destruct (hoveredVoxel s0) as [hv|]; [|exact H0].
      destruct (build_click_is_execute hv s0) as (c & h & ->).
      rewrite timer_execute. exact H0.
    + destruct (hoveredVoxel s0) as [hv|]; [|exact H0].
      unfold break_click.
      destruct (locked (graph s0) (hitObj hv)); [exact H0|].
      destruct (negb (isInstancedMesh (graph s0) (hitObj hv)));
        [rewrite timer_execute; exact H0|].
      destruct (hitId hv); exact H0.
    + destruct (hoveredVoxel s0) as [hv|]; [|exact H0].
      unfold pipette_click.
      destruct (kind (props (graph s0) (hitObj hv))) as [g col| |ic| | |];
        try exact H0.
      * destruct g as [w hh d|]; destruct col as [col|]; try exact H0;
          (destruct (now - lastPipetteClick s <? 300)%Z; [|exact H0];
           match goal with
           | |- context [if ?b then _ else _] => destruct b
           end; exact H0).
      * destruct ic; exact H0.
  - unfold row_onmousedown.
    assert (H1 : lastPipetteClick
                   (if Nat.eqb b 0 then selectObject (Some obj) s else s)
                 = lastPipetteClick s).
    { destruct (Nat.eqb b 0); [apply timer_selectObject|reflexivity]. }
    set (s1 := if Nat.eqb b 0 then selectObject (Some obj) s else s) in *.
    destruct (Nat.eqb b 2); [|exact H1].
    unfold showCtxMenu. fields. rewrite timer_selectObject. exact H1.
  - unfold lockBtn_onclick.
    match goal with
    | |- context [if ?b then _ else _] => destruct b
    end; reflexivity.
  - unfold ctx_item_click.
    destruct (ctxMenu s) as [items|]; [|reflexivity].
    destruct (nth_error items i) as [it|]; [|reflexivity].
    destruct (ctxEnabled it); [|reflexivity].
    destruct (ctxAction it); cbn [ctx_action].
    + unfold window_click. fields. apply timer_execute.
    + destruct (clone_obj _ _ _) as [cl h1].
      unfold window_click. fields. rewrite timer_execute. reflexivity.
    + destruct (controlsTarget s); reflexivity.
  - reflexivity.
  - apply timer_setTool.
  - apply timer_undo.
  - apply timer_redo.
  - reflexivity.
  - reflexivity.
  - unfold dragging_changed. destruct (gizmoObject s) as [o|]; [|reflexivity].
    destruct v; [reflexivity|apply timer_execute].
  - unfold gizmo_drag. destruct (gizmoObject s); reflexivity.
Qed.

Lemma run_events_timer t0 : forall es s,
  presses_not_before t0 es = true ->
  (t0 <= lastPipetteClick s)%Z ->
  (t0 <= lastPipetteClick (run_events es s))%Z.
Proof.
  unfold run_events.
  induction es as [|e es IH]; intros s Hes Hs; [exact Hs|].
  simpl in Hes. apply andb_true_iff in Hes. destruct Hes as [He Hes].
  simpl. apply IH; [exact Hes|].
  rewrite handle_timer. destruct e; try exact Hs.
  apply Z.leb_le in He. destruct (Nat.eqb button 0); assumption.
Qed.

(** The product is the nearest Number, not the exact rational: the Number
    for 0.3 is below 0.3, and its product with 15 rounds to 4.5. *)
Lemma js_mul_nearest_number :
  (js_mul (5404319552844595 # 18014398509481984) 15 == 9 # 2)%Q
  /\ Math_round (js_mul (5404319552844595 # 18014398509481984) 15) = 5%Z
  /\ Math_round ((5404319552844595 # 18014398509481984) * 15)%Q = 4%Z.
Proof. vm_compute. repeat split; reflexivity. Qed.

(** C3 (as the code has it). On a Pipette activation within 300 ms of the
    previous activation, a leaf cube sets the brush size to its rounded side
    length when that lies in 1..5 and leaves it unchanged otherwise; any other
    target, a BatchedInstanceStore included, leaves the brush size unchanged.
    The previous activation is a left press under the Pipette with a hover
    target, at time [prev]; [es] are the events between the two
    activations. *)
Theorem pipette_double_activation_size :
  forall (s0 : Editor) (hv0 : HoveredVoxel) (prev : Z)
         (hits0 : list Intersection) (es : list Event)
         (hv : HoveredVoxel) (now : Z) (hits : list Intersection),
    activeTool s0 = ToolPipette ->
    hoveredVoxel s0 = Some hv0 ->
    presses_not_before prev es = true ->
    activeTool (run_events es (mousedown 0 prev hits0 s0)) = ToolPipette ->
    hoveredVoxel (run_events es (mousedown 0 prev hits0 s0)) = Some hv ->
    (now - prev < 300)%Z ->
    brushSize (mousedown 0 now hits (run_events es (mousedown 0 prev hits0 s0)))
    = match kind (props (graph (run_events es (mousedown 0 prev hits0 s0)))
                    (hitObj hv)) with
      | Mesh (BoxGeometry _ _ _) _ =>
          if (1 <=? Math_round
                      (cubeSide (graph (run_events es (mousedown 0 prev hits0 s0)))
                         (hitObj hv)))%Z
             && (Math_round
                   (cubeSide (graph (run_events es (mousedown 0 prev hits0 s0)))
                      (hitObj hv)) <=? 5)%Z
          then Math_round
                 (cubeSide (graph (run_events es (mousedown 0 prev hits0 s0)))
                    (hitObj hv))
          else brushSize (run_events es (mousedown 0 prev hits0 s0))
      | _ => brushSize (run_events es (mousedown 0 prev hits0 s0))
      end.
Proof.
  intros s0 hv0 prev hits0 es hv now hits _ _ Hes Ht Hh Hd.
  assert (Hp : (prev <= lastPipetteClick
                          (run_events es (mousedown 0 prev hits0 s0)))%Z).
  { apply run_events_timer; [exact Hes|].
    pose proof (handle_timer (EvMouseDown 0 prev hits0) s0) as E.
    cbn [handle Nat.eqb] in E. rewrite E. lia. }
  apply pipette_size_rule; [exact Ht|exact Hh|lia].
Qed.

Lemma pipette_double_activation_size_witness :
  brushSize
    (mousedown 0 1100
       [mkIntersection 5 (mkVector3 0 4 0) (Some (mkVector3 0 1 0)) None]
       (run_events [EvMouseMove
                      [mkIntersection 5 (mkVector3 0 4 0)
                         (Some (mkVector3 0 1 0)) None]]
          (mousedown 0 1000
             [mkIntersection 5 (mkVector3 0 4 0) (Some (mkVector3 0 1 0)) None]
             (mousemove
                [mkIntersection 5 (mkVector3 0 4 0) (Some (mkVector3 0 1 0))
                   None]
                (keydown KeyI false false false
                   (initialEditor sampleScene None))))))
  = 4%Z.
Proof.
  pose proof (pipette_double_activation_size
                (mousemove
                   [mkIntersection 5 (mkVector3 0 4 0) (Some (mkVector3 0 1 0))
                      None]
                   (keydown KeyI false false false
                      (initialEditor sampleScene None)))
                (mkHoveredVoxel 0 4 0 5 None) 1000%Z
                [mkIntersection 5 (mkVector3 0 4 0) (Some (mkVector3 0 1 0))
                   None]
                [EvMouseMove
                   [mkIntersection 5 (mkVector3 0 4 0)
                      (Some (mkVector3 0 1 0)) None]]
                (mkHoveredVoxel 0 4 0 5 None) 1100%Z
                [mkIntersection 5 (mkVector3 0 4 0) (Some (mkVector3 0 1 0))
                   None]
                eq_refl eq_refl eq_refl eq_refl eq_refl eq_refl) as H.
  vm_compute in H. exact H.
Defined.
